(** * Website cloner: the orchestration core of [src/App.tsx]

    A shallow embedding of the clone orchestrator (the queue-driven state
    machine of the React component [App]), of its virtual file tree and of
    the auto-fix loop, with the properties of the specification stated and
    proved over it.

    Conventions of the embedding.
    - A JavaScript object used as a dictionary ([FileSystem]) is an
      association list in property-creation order: assigning to an existing
      key keeps its position, assigning to a new key appends.  [Object_entries]
      enumerates it the way [Object.entries] does (array-index keys first,
      in ascending numeric order, then the other keys in creation order).
      The property name [__proto__] is not an ordinary key of a JavaScript
      object; statements quantified over arbitrary paths exclude it.
    - A [Set<string>] is a [gset string]; only [has], [add] and [size] are
      used by the code.
    - Every event handler and every effect body runs to completion before
      the next one starts (section 5 of the specification: one job at a
      time).  The answers of the outside world to one run (the page fetch,
      the model's stream, ...) are an explicit argument of the run, and the
      calls made to the outside world are returned as a list of events.
    - Inside a handler, a plain read of a state variable ([visitedUrls],
      [fileSystem], [mainHtmlContent]) sees the value of the render that
      created the handler, while a functional update [setX(prev => ...)]
      sees the latest value.  The embedding keeps the two apart.
    - Browser built-ins that the code calls ([JSON.parse], [new URL],
      [String.prototype.trim], the regular-expression scan) are fields of a
      [Host] record.
    - Log entries carry their message and type; the wall-clock timestamp is
      left out.  The text of the prompts sent to the model is left out too:
      it does not reach the state. *)

From stdpp Require Import gmap strings list pretty sorting.
From Stdlib Require Import Ascii.

(** * Strings *)

Definition nl : string := String "010"%char "".
Definition dq : string := String "034"%char "".
Definition slash : ascii := "/"%char.

(** [s.includes(t)] *)
Fixpoint includes (s t : string) : bool :=
  String.prefix t s ||
  match s with
  | EmptyString => false
  | String _ s' => includes s' t
  end.

(** [s.endsWith(t)] *)
Fixpoint endsWith (s t : string) : bool :=
  String.eqb s t ||
  match s with
  | EmptyString => false
  | String _ s' => endsWith s' t
  end.

(** [s.split('/')]: the pieces of [s] between the slashes; the accumulator
    holds the piece being read. *)
Fixpoint split_go (acc : string) (s : string) : list string :=
  match s with
  | EmptyString => [acc]
  | String c s' =>
      if Ascii.eqb c slash then acc :: split_go "" s'
      else split_go (acc +:+ String c "") s'
  end.

Definition split_slash (s : string) : list string := split_go "" s.

Definition truthy (s : string) : bool := negb (String.eqb s "").

(** [path.split('/').filter(p => p)] *)
Definition path_parts (path : string) : list string :=
  List.filter truthy (split_slash path).

(** * types.ts *)

Module CloningState.
Inductive t : Set :=
| IDLE | CLONING | AWAITING_USER_INPUT | QUALITY_CHECK | FIXING
| COMPLETED | ERROR.

Definition eqb (a b : t) : bool :=
  match a, b with
  | IDLE, IDLE | CLONING, CLONING
  | AWAITING_USER_INPUT, AWAITING_USER_INPUT
  | QUALITY_CHECK, QUALITY_CHECK | FIXING, FIXING
  | COMPLETED, COMPLETED | ERROR, ERROR => true
  | _, _ => false
  end.
End CloningState.

Module LogType.
Inductive t : Set :=
| INFO | WARN | ERROR | SUCCESS | SYSTEM | DEBUG | THOUGHT | NETWORK.
End LogType.

Record AgentLogEntry : Set := mkLog {
  message : string;
  type : LogType.t
}.

#[local] Unset Elimination Schemes.
Inductive FileSystemNode : Set :=
| File (content : string)
| Folder (children : list (string * FileSystemNode)).
#[local] Set Elimination Schemes.

(** [interface FileSystem { [key: string]: FileSystemNode }] *)
Definition FileSystem : Set := list (string * FileSystemNode).

(** * JavaScript objects as dictionaries *)

Section JsObject.
Context {A : Type}.

(** [o[k]], [None] standing for [undefined] *)
Fixpoint obj_get (k : string) (o : list (string * A)) : option A :=
  match o with
  | [] => None
  | (k', v) :: o' => if String.eqb k k' then Some v else obj_get k o'
  end.

(** [o[k] = v], for a key whose assignment makes an own property.  The
    key [__proto__], whose assignment sets the prototype of the object and
    makes no property, is kept out by the hypothesis [ordinary] of the
    statements on insertion. *)
Fixpoint obj_set (k : string) (v : A) (o : list (string * A))
  : list (string * A) :=
  match o with
  | [] => [(k, v)]
  | (k', v') :: o' =>
      if String.eqb k k' then (k, v) :: o' else (k', v') :: obj_set k v o'
  end.

(** The value of a string of decimal digits. *)
Fixpoint digits_value (acc : N) (s : string) : option N :=
  match s with
  | EmptyString => Some acc
  | String c s' =>
      let d := N_of_ascii c in
      if ((48 <=? d) && (d <=? 57))%N
      then digits_value (acc * 10 + (d - 48))%N s'
      else None
  end.

(** An array index is a canonical numeric string below [2^32 - 1]. *)
Definition array_index (k : string) : option N :=
  match k with
  | EmptyString => None
  | _ =>
      match digits_value 0 k with
      | Some n =>
          if String.eqb (pretty n) k && (n <? 4294967295)%N
          then Some n else None
      | None => None
      end
  end.

Definition index_entries (o : list (string * A)) : list (N * (string * A)) :=
  omap (fun kv => match array_index kv.1 with
                  | Some n => Some (n, kv)
                  | None => None
                  end) o.

Definition named_entries (o : list (string * A)) : list (string * A) :=
  filter (fun kv => array_index kv.1 = None) o.

Definition index_le (x y : N * (string * A)) : Prop := (x.1 <= y.1)%N.

#[local] Instance index_le_dec x y : Decision (index_le x y) :=
  N.le_dec x.1 y.1.

(** [Object.entries(o)] *)
Definition Object_entries (o : list (string * A)) : list (string * A) :=
  (merge_sort index_le (index_entries o)).*2 ++ named_entries o.
End JsObject.

(** * The virtual file tree *)

(** [path ? `${path}/${name}` : name] *)
Definition child_path (path name : string) : string :=
  match path with
  | EmptyString => name
  | _ => path +:+ "/" +:+ name
  end.

(** The body of the loop of [traverse] for one entry [name, childNode],
    [currentPath] already computed; an entry of the result is the path and
    the content of one file. *)
Fixpoint visit (currentPath : string) (childNode : FileSystemNode)
  : list (string * string) :=
  match childNode with
  | File content => [(currentPath, content)]
  | Folder children =>
      mjoin (Object_entries
               ((fun kv => (kv.1, visit (child_path currentPath kv.1) kv.2))
                  <$> children)).*2
  end.

Definition traverse (node : FileSystem) (path : string)
  : list (string * string) :=
  mjoin (Object_entries
           ((fun kv => (kv.1, visit (child_path path kv.1) kv.2)) <$> node)).*2.

(** The text pushed for one file. *)
Definition file_block (e : string * string) : string :=
  "--- File: " +:+ e.1 +:+ " ---" +:+ nl +:+ "```" +:+ nl +:+ e.2 +:+ nl +:+ "```".

Definition getFileSystemAsText (fs : FileSystem) : list string :=
  file_block <$> traverse fs "".

(** The walk of [addFileToSystem] along [parts], from the object [current]:
    the loop over all parts but the last, then the assignment of the file.
    With no part at all, [parts[parts.length - 1]] is [undefined] and the
    file lands under the property name ["undefined"]. *)
Fixpoint add_parts (parts : list string) (content : string)
  (current : FileSystem) : FileSystem :=
  match parts with
  | [] => obj_set "undefined" (File content) current
  | [last] => obj_set last (File content) current
  | part :: rest =>
      let children :=
        match obj_get part current with
        | Some (Folder ch) => ch
        | _ => []
        end in
      obj_set part (Folder (add_parts rest content children)) current
  end.

Definition addFileToSystem (fs : FileSystem) (path content : string)
  : FileSystem :=
  add_parts (path_parts path) content fs.


(** * Component state, events and the monad of a handler run *)

(** What a [throw] or a rejected promise carries: an [Error] object with its
    message, or some other value (the [ProgressEvent] with which
    [fileToBase64] rejects). *)
Inductive Thrown : Set :=
| ErrorObject (msg : string)
| OtherValue.

(** [error instanceof Error ? error.message : fallback] *)
Definition errorMessage (error : Thrown) (fallback : string) : string :=
  match error with
  | ErrorObject msg => msg
  | OtherValue => fallback
  end.

Inductive Result (A : Type) : Type :=
| Ok (a : A)
| Throws (e : Thrown).
Arguments Ok {A} a.
Arguments Throws {A} e.

(** [{ url: string; screenshot?: File }]; the image file is its data. *)
Record Job : Set := mkJob {
  url : string;
  screenshot : option string
}.

(** The [useState] variables of [App]. *)
Record State : Type := mkState {
  cloningState : CloningState.t;
  agentLogs : list AgentLogEntry;
  fileSystem : FileSystem;
  activeFile : option (string * string);
  mainHtmlContent : option string;
  isScreenshotModalOpen : bool;
  urlToClone : string;
  authUrl : string;
  cloningQueue : list Job;
  visitedUrls : gset string;
  consoleErrors : list string;
  fixAttempts : nat
}.

Definition initialState : State :=
  {| cloningState := CloningState.IDLE; agentLogs := []; fileSystem := [];
     activeFile := None; mainHtmlContent := None;
     isScreenshotModalOpen := false; urlToClone := ""; authUrl := "";
     cloningQueue := []; visitedUrls := ∅; consoleErrors := [];
     fixAttempts := 0 |}.

(** The state setters, each taking the updater [prev => ...]. *)
Definition setCloningState (f : CloningState.t → CloningState.t) (s : State) : State :=
  {| cloningState := f (cloningState s); agentLogs := agentLogs s;
     fileSystem := fileSystem s; activeFile := activeFile s;
     mainHtmlContent := mainHtmlContent s;
     isScreenshotModalOpen := isScreenshotModalOpen s;
     urlToClone := urlToClone s; authUrl := authUrl s;
     cloningQueue := cloningQueue s; visitedUrls := visitedUrls s;
     consoleErrors := consoleErrors s; fixAttempts := fixAttempts s |}.

Definition setAgentLogs (f : list AgentLogEntry → list AgentLogEntry) (s : State) : State :=
  {| cloningState := cloningState s; agentLogs := f (agentLogs s);
     fileSystem := fileSystem s; activeFile := activeFile s;
     mainHtmlContent := mainHtmlContent s;
     isScreenshotModalOpen := isScreenshotModalOpen s;
     urlToClone := urlToClone s; authUrl := authUrl s;
     cloningQueue := cloningQueue s; visitedUrls := visitedUrls s;
     consoleErrors := consoleErrors s; fixAttempts := fixAttempts s |}.

Definition setFileSystem (f : FileSystem → FileSystem) (s : State) : State :=
  {| cloningState := cloningState s; agentLogs := agentLogs s;
     fileSystem := f (fileSystem s); activeFile := activeFile s;
     mainHtmlContent := mainHtmlContent s;
     isScreenshotModalOpen := isScreenshotModalOpen s;
     urlToClone := urlToClone s; authUrl := authUrl s;
     cloningQueue := cloningQueue s; visitedUrls := visitedUrls s;
     consoleErrors := consoleErrors s; fixAttempts := fixAttempts s |}.

Definition setActiveFile (f : option (string * string) → option (string * string)) (s : State) : State :=
  {| cloningState := cloningState s; agentLogs := agentLogs s;
     fileSystem := fileSystem s; activeFile := f (activeFile s);
     mainHtmlContent := mainHtmlContent s;
     isScreenshotModalOpen := isScreenshotModalOpen s;
     urlToClone := urlToClone s; authUrl := authUrl s;
     cloningQueue := cloningQueue s; visitedUrls := visitedUrls s;
     consoleErrors := consoleErrors s; fixAttempts := fixAttempts s |}.

Definition setMainHtmlContent (f : option string → option string) (s : State) : State :=
  {| cloningState := cloningState s; agentLogs := agentLogs s;
     fileSystem := fileSystem s; activeFile := activeFile s;
     mainHtmlContent := f (mainHtmlContent s);
     isScreenshotModalOpen := isScreenshotModalOpen s;
     urlToClone := urlToClone s; authUrl := authUrl s;
     cloningQueue := cloningQueue s; visitedUrls := visitedUrls s;
     consoleErrors := consoleErrors s; fixAttempts := fixAttempts s |}.

Definition setIsScreenshotModalOpen (f : bool → bool) (s : State) : State :=
  {| cloningState := cloningState s; agentLogs := agentLogs s;
     fileSystem := fileSystem s; activeFile := activeFile s;
     mainHtmlContent := mainHtmlContent s;
     isScreenshotModalOpen := f (isScreenshotModalOpen s);
     urlToClone := urlToClone s; authUrl := authUrl s;
     cloningQueue := cloningQueue s; visitedUrls := visitedUrls s;
     consoleErrors := consoleErrors s; fixAttempts := fixAttempts s |}.

Definition setUrlToClone (f : string → string) (s : State) : State :=
  {| cloningState := cloningState s; agentLogs := agentLogs s;
     fileSystem := fileSystem s; activeFile := activeFile s;
     mainHtmlContent := mainHtmlContent s;
     isScreenshotModalOpen := isScreenshotModalOpen s;
     urlToClone := f (urlToClone s); authUrl := authUrl s;
     cloningQueue := cloningQueue s; visitedUrls := visitedUrls s;
     consoleErrors := consoleErrors s; fixAttempts := fixAttempts s |}.

Definition setAuthUrl (f : string → string) (s : State) : State :=
  {| cloningState := cloningState s; agentLogs := agentLogs s;
     fileSystem := fileSystem s; activeFile := activeFile s;
     mainHtmlContent := mainHtmlContent s;
     isScreenshotModalOpen := isScreenshotModalOpen s;
     urlToClone := urlToClone s; authUrl := f (authUrl s);
     cloningQueue := cloningQueue s; visitedUrls := visitedUrls s;
     consoleErrors := consoleErrors s; fixAttempts := fixAttempts s |}.

Definition setCloningQueue (f : list Job → list Job) (s : State) : State :=
  {| cloningState := cloningState s; agentLogs := agentLogs s;
     fileSystem := fileSystem s; activeFile := activeFile s;
     mainHtmlContent := mainHtmlContent s;
     isScreenshotModalOpen := isScreenshotModalOpen s;
     urlToClone := urlToClone s; authUrl := authUrl s;
     cloningQueue := f (cloningQueue s); visitedUrls := visitedUrls s;
     consoleErrors := consoleErrors s; fixAttempts := fixAttempts s |}.

Definition setVisitedUrls (f : gset string → gset string) (s : State) : State :=
  {| cloningState := cloningState s; agentLogs := agentLogs s;
     fileSystem := fileSystem s; activeFile := activeFile s;
     mainHtmlContent := mainHtmlContent s;
     isScreenshotModalOpen := isScreenshotModalOpen s;
     urlToClone := urlToClone s; authUrl := authUrl s;
     cloningQueue := cloningQueue s; visitedUrls := f (visitedUrls s);
     consoleErrors := consoleErrors s; fixAttempts := fixAttempts s |}.

Definition setConsoleErrors (f : list string → list string) (s : State) : State :=
  {| cloningState := cloningState s; agentLogs := agentLogs s;
     fileSystem := fileSystem s; activeFile := activeFile s;
     mainHtmlContent := mainHtmlContent s;
     isScreenshotModalOpen := isScreenshotModalOpen s;
     urlToClone := urlToClone s; authUrl := authUrl s;
     cloningQueue := cloningQueue s; visitedUrls := visitedUrls s;
     consoleErrors := f (consoleErrors s); fixAttempts := fixAttempts s |}.

Definition setFixAttempts (f : nat → nat) (s : State) : State :=
  {| cloningState := cloningState s; agentLogs := agentLogs s;
     fileSystem := fileSystem s; activeFile := activeFile s;
     mainHtmlContent := mainHtmlContent s;
     isScreenshotModalOpen := isScreenshotModalOpen s;
     urlToClone := urlToClone s; authUrl := authUrl s;
     cloningQueue := cloningQueue s; visitedUrls := visitedUrls s;
     consoleErrors := consoleErrors s; fixAttempts := f (fixAttempts s) |}.

(** The calls a run makes to the outside world. *)
Inductive Event : Set :=
| EvWindowOpen (target : string)
| EvFetchPage (target : string)
| EvFetchAsset (target : string)
| EvReadScreenshot
| EvModelStream (page : string)
| EvModelClone (page : string)
| EvModelReview
| EvModelFix (errors : list string).

Definition is_model_call (e : Event) : bool :=
  match e with
  | EvModelStream _ | EvModelClone _ | EvModelReview | EvModelFix _ => true
  | _ => false
  end.

(** A handler run: it reads and updates the latest state, records the
    calls it makes, and either returns or throws. *)
Definition Proc (A : Type) : Type :=
  State * list Event → Result A * (State * list Event).

Definition ret {A} (a : A) : Proc A := fun w => (Ok a, w).

Definition bind {A B} (m : Proc A) (k : A → Proc B) : Proc B :=
  fun w =>
    match m w with
    | (Ok a, w') => k a w'
    | (Throws e, w') => (Throws e, w')
    end.

Definition throw {A} (e : Thrown) : Proc A := fun w => (Throws e, w).

(** [try { body } catch (error) { handler }] *)
Definition try_catch {A} (body : Proc A) (handler : Thrown → Proc A) : Proc A :=
  fun w =>
    match body w with
    | (Ok a, w') => (Ok a, w')
    | (Throws e, w') => handler e w'
    end.

(** [await p] for a promise whose outcome is [r]. *)
Definition await {A} (r : Result A) : Proc A := fun w => (r, w).

Definition update (f : State → State) : Proc unit :=
  fun w => (Ok (), (f w.1, w.2)).

Definition emit (e : Event) : Proc unit :=
  fun w => (Ok (), (w.1, w.2 ++ [e])).

(** The state and the calls at the end of a run started from [s]. *)
Definition exec {A} (m : Proc A) (s : State) : State * list Event :=
  (m (s, [])).2.

Declare Scope proc_scope.
Delimit Scope proc_scope with proc.
Notation "x <- m ;; k" := (bind m (fun x => k))
  (at level 100, m at next level, right associativity) : proc_scope.
Notation "m ;;; k" := (bind m (fun _ => k))
  (at level 100, right associativity) : proc_scope.
Notation "'when' b 'then' m" := (if b then m else ret ())
  (at level 99, b at level 98, m at level 98) : proc_scope.

Open Scope proc_scope.

Fixpoint for_each {A} (l : list A) (body : A → Proc unit) : Proc unit :=
  match l with
  | [] => ret ()
  | x :: l' => body x ;;; for_each l' body
  end.

(** [addLog(message, type)] *)
Definition addLog (msg : string) (ty : LogType.t) : Proc unit :=
  update (setAgentLogs (fun prev => prev ++ [mkLog msg ty])).

(** The script put in front of the preview document. *)
Definition consoleCaptureScript : string :=
  nl +:+
  "<script>" +:+ nl +:+
  "  const originalError = console.error;" +:+ nl +:+
  "  console.error = function(...args) {" +:+ nl +:+
  "    const message = args.map(arg => {" +:+ nl +:+
  "        try {" +:+ nl +:+
  "            if (arg instanceof Error) return arg.stack;" +:+ nl +:+
  "            if (typeof arg === 'object' && arg !== null) return JSON.stringify(arg);" +:+ nl +:+
  "            return String(arg);" +:+ nl +:+
  "        } catch (e) {" +:+ nl +:+
  "            return 'Unserializable object';" +:+ nl +:+
  "        }" +:+ nl +:+
  "    }).join(' ');" +:+ nl +:+
  "    window.parent.postMessage({ type: 'console-error', message }, '*');" +:+ nl +:+
  "    originalError.apply(console, args);" +:+ nl +:+
  "  };" +:+ nl +:+
  "  window.addEventListener('error', function(event) {" +:+ nl +:+
  "    window.parent.postMessage({ type: 'console-error', message: event.message + ' at ' + event.filename + ':' + event.lineno }, '*');" +:+ nl +:+
  "  });" +:+ nl +:+
  "  window.addEventListener('unhandledrejection', event => {" +:+ nl +:+
  "    const reason = event.reason instanceof Error ? event.reason.stack : String(event.reason);" +:+ nl +:+
  "    window.parent.postMessage({ type: 'console-error', message: 'Unhandled promise rejection: ' + reason }, '*');" +:+ nl +:+
  "  });" +:+ nl +:+
  "</script>" +:+ nl.

(** One record of the streamed protocol, as [JSON.parse] returns it; a
    value that is none of the five is kept as its [JSON.stringify] text. *)
Inductive Action : Set :=
| thought (content : string)
| file (path content : string)
| authWall (msg : string)
| nextPage (target : string)
| complete (msg : string)
| unknown (json : string).

(** The browser built-ins. *)
Record Host : Type := mkHost {
  (** [s.trim()] *)
  trim : string → string;
  (** [new URL(input, base).href]; it throws a [TypeError] on a bad URL *)
  URL_href : string → string → Result string;
  (** [JSON.parse(line)] read as a record of the protocol; [None] when the
      parse throws or yields [null] ([null.action] throws in the same
      [try]) *)
  JSON_parse : string → option Action;
  (** the captures [match[1] || match[2]] of the scan for
      [<link href="....css">] and [<script src="....js">] *)
  asset_matches : string → list string
}.

(** [response.ok] *)
Definition response_ok (status : N) : bool :=
  ((200 <=? status) && (status <=? 299))%N.

Definition lower (c : ascii) : ascii :=
  let n := nat_of_ascii c in
  if (65 <=? n)%nat && (n <=? 90)%nat then ascii_of_nat (n + 32) else c.

Fixpoint lower_string (s : string) : string :=
  match s with
  | EmptyString => EmptyString
  | String c s' => String (lower c) (lower_string s')
  end.

(** [/^(https?:\/\/)/i.test(url)] *)
Definition has_http_scheme (u : string) : bool :=
  let l := lower_string u in
  String.prefix "http://" l || String.prefix "https://" l.

(** The answer of the fetch proxy to one request. *)
Inductive FetchAnswer : Set :=
| FetchRejects (e : Thrown)
| FetchResponds (status : N) (text : Result string).

(** What the model returns for a repair or a review, after [JSON.parse]. *)
Record Patch : Set := mkPatch {
  analysis : string;
  filesToUpdate : list (string * string)
}.

(** * The streaming orchestrator ([src/App.tsx]) *)

Module Streaming.

Definition MAX_FIX_ATTEMPTS : nat := 3.

(** The answers of the outside world to one run of [processQueue]. *)
Record PageAnswers : Type := mkPageAnswers {
  (** [fetch(proxyUrl)] and [fetchResponse.text()] *)
  page : FetchAnswer;
  (** [fileToBase64(job.screenshot)] *)
  image : Result string;
  (** [ai.models.generateContentStream(...)]: the [chunk.text] of the
      chunks it yields, and how the iteration ends ([Some e]: it throws
      [e] after the last chunk) *)
  stream : Result (list string * option Thrown)
}.

Section WithHost.
Context (host : Host).

Definition handleInitiateCloning (rawUrl : string) (useScreenshot : bool)
  (windowOpens : bool) (s : State) : State * list Event :=
  if negb (truthy rawUrl)
     || negb (CloningState.eqb (cloningState s) CloningState.IDLE
              || CloningState.eqb (cloningState s) CloningState.COMPLETED
              || CloningState.eqb (cloningState s) CloningState.ERROR)
  then (s, [])
  else
    let url := trim host rawUrl in
    let url := if has_http_scheme url then url else "https://" +:+ url in
    exec (
      update (setCloningState (fun _ => CloningState.CLONING)) ;;;
      update (setAgentLogs (fun _ => [])) ;;;
      update (setFileSystem (fun _ => [])) ;;;
      update (setActiveFile (fun _ => None)) ;;;
      update (setMainHtmlContent (fun _ => None)) ;;;
      update (setVisitedUrls (fun _ => ∅)) ;;;
      update (setConsoleErrors (fun _ => [])) ;;;
      update (setFixAttempts (fun _ => 0)) ;;;
      addLog "Initializing Full-Stack Agentic Cloner v6.0 (Streaming)..." LogType.SYSTEM ;;;
      update (setUrlToClone (fun _ => url)) ;;;
      if useScreenshot then
        try_catch
          (emit (EvWindowOpen url) ;;;
           (if windowOpens then ret () else throw OtherValue) ;;;
           update (setIsScreenshotModalOpen (fun _ => true)))
          (fun _ =>
             addLog ("Could not open new tab for URL: " +:+ url +:+
                     ". Please check browser pop-up settings.") LogType.ERROR ;;;
             update (setCloningState (fun _ => CloningState.ERROR)))
      else
        update (setCloningQueue (fun _ => [mkJob url None]))
    ) s.

Definition handleScreenshotReady (image_file : string) (s : State) : State :=
  setCloningQueue (fun _ => [mkJob (urlToClone s) (Some image_file)])
    (setIsScreenshotModalOpen (fun _ => false) s).

Definition handleResumeCloning (nextUrl : string) (s : State) : State :=
  if negb (truthy nextUrl) then
    (exec (addLog "Resuming cancelled. No URL provided." LogType.WARN ;;;
           update (setCloningState (fun _ => CloningState.ERROR))) s).1
  else
    (exec (addLog ("User provided new URL. Resuming cloning process at: " +:+ nextUrl)
                  LogType.SYSTEM ;;;
           update (setCloningQueue (fun prev => prev ++ [mkJob nextUrl None])) ;;;
           update (setAuthUrl (fun _ => "")) ;;;
           update (setCloningState (fun _ => CloningState.CLONING))) s).1.

(** The [onCancel] of the authentication prompt. *)
Definition handleCancelAuth (s : State) : State :=
  (exec (addLog "User cancelled authentication. Cloning stopped." LogType.WARN ;;;
         update (setCloningState (fun _ => CloningState.ERROR))) s).1.

(** The loop shared by [handleQualityCheck] and [handleAutoFix]: merge
    the files into the copy of the tree, put every [.html] file in the
    preview; returns the tree and [htmlUpdated]. *)
Fixpoint apply_files (log_prefix : string) (files : list (string * string))
  (updatedFileSystem : FileSystem) (htmlUpdated : bool)
  : Proc (FileSystem * bool) :=
  match files with
  | [] => ret (updatedFileSystem, htmlUpdated)
  | (path, content) :: rest =>
      addLog (log_prefix +:+ path) LogType.DEBUG ;;;
      let updatedFileSystem := addFileToSystem updatedFileSystem path content in
      if endsWith path ".html" then
        update (setMainHtmlContent (fun _ => Some (consoleCaptureScript +:+ content))) ;;;
        apply_files log_prefix rest updatedFileSystem true
      else
        apply_files log_prefix rest updatedFileSystem htmlUpdated
  end.

(** [setMainHtmlContent(prev => prev ? prev + ' ' : null)] *)
Definition nudge_preview (prev : option string) : option string :=
  match prev with
  | Some p => if truthy p then Some (p +:+ " ") else None
  | None => None
  end.

(** The callback of [setTimeout(..., 0)]:
    [setMainHtmlContent(prev => prev?.trim() ?? null)] *)
Definition previewTimer (s : State) : State :=
  setMainHtmlContent (fun prev => trim host <$> prev) s.

(** [handleQualityCheck], with the model's answer [answer] (after
    [JSON.parse]); [fileSystem] is the tree of the render. *)
Definition handleQualityCheck (fileSystem : FileSystem)
  (answer : Result Patch) : Proc unit :=
  addLog "AI is reviewing code for quality improvements..." LogType.DEBUG ;;;
  try_catch
    (emit EvModelReview ;;;
     result <- await answer ;;
     (match filesToUpdate result with
      | [] => addLog "AI Quality Review: No improvements suggested." LogType.SYSTEM
      | files =>
          addLog ("AI Quality Review: " +:+ analysis result) LogType.SYSTEM ;;;
          r <- apply_files "AI is applying quality improvement to: " files fileSystem false ;;
          update (setFileSystem (fun _ => r.1)) ;;;
          (when negb r.2 then update (setMainHtmlContent nudge_preview)) ;;;
          addLog "AI applied quality improvements." LogType.SUCCESS
      end) ;;;
     addLog "Cloning process complete. Now monitoring for errors." LogType.SYSTEM ;;;
     update (setCloningState (fun _ => CloningState.COMPLETED)))
    (fun error =>
       addLog ("Failed to perform quality check: " +:+
               errorMessage error "An unknown error occurred during quality check.")
              LogType.ERROR ;;;
       update (setCloningState (fun _ => CloningState.ERROR))).

(** [handleAutoFix(errors)] *)
Definition handleAutoFix (fileSystem : FileSystem) (errors : list string)
  (answer : Result Patch) : Proc unit :=
  update (setCloningState (fun _ => CloningState.FIXING)) ;;;
  update (setFixAttempts (fun prev => prev + 1)) ;;;
  update (setConsoleErrors (fun _ => [])) ;;;
  addLog ("Analyzing " +:+ pretty (length errors) +:+ " console error(s)...") LogType.DEBUG ;;;
  try_catch
    (emit (EvModelFix errors) ;;;
     result <- await answer ;;
     addLog ("AI Analysis: " +:+ analysis result) LogType.SYSTEM ;;;
     match filesToUpdate result with
     | [] =>
         addLog "AI analyzed the error but did not provide a file to fix. Stopping auto-fix." LogType.WARN ;;;
         update (setCloningState (fun _ => CloningState.ERROR))
     | files =>
         r <- apply_files "AI is applying fix to: " files fileSystem false ;;
         update (setFileSystem (fun _ => r.1)) ;;;
         (when negb r.2 then update (setMainHtmlContent nudge_preview)) ;;;
         addLog "AI proposed a fix. Applied changes and reloading preview." LogType.SUCCESS ;;;
         update (setCloningState (fun _ => CloningState.COMPLETED))
     end)
    (fun error =>
       addLog ("Failed to apply fix: " +:+
               errorMessage error "An unknown error occurred during auto-fix.")
              LogType.ERROR ;;;
       update (setCloningState (fun _ => CloningState.ERROR))).

(** [handleStreamedAction(action, currentUrl)]; it returns [true] to
    stop.  [visitedUrls] and [mainHtmlContent] are the values of the
    render that created the effect.  The log line of a queued link is
    placed where the handler is called; the component adds it when the
    updater of the queue runs. *)
Definition handleStreamedAction (visitedUrls : gset string)
  (mainHtmlContent : option string) (action : Action) (currentUrl : string)
  : Proc bool :=
  match action with
  | thought content => addLog content LogType.THOUGHT ;;; ret false
  | file path content =>
      addLog ("Creating file: " +:+ path) LogType.INFO ;;;
      update (setFileSystem (fun prevFs => addFileToSystem prevFs path content)) ;;;
      (when endsWith path ".html" && bool_decide (mainHtmlContent = None)
       then update (setMainHtmlContent (fun _ => Some (consoleCaptureScript +:+ content)))) ;;;
      ret false
  | authWall msg =>
      addLog ("AI Agent: " +:+ dq +:+ msg +:+ dq) LogType.WARN ;;;
      update (setAuthUrl (fun _ => currentUrl)) ;;;
      update (setCloningState (fun _ => CloningState.AWAITING_USER_INPUT)) ;;;
      ret true
  | nextPage target =>
      match URL_href host target currentUrl with
      | Ok nextUrl =>
          fun w =>
            let prev := cloningQueue w.1 in
            if bool_decide (nextUrl ∉ visitedUrls)
               && negb (existsb (fun j => String.eqb (url j) nextUrl) prev)
               && (length prev + size visitedUrls <? 5)
            then
              (addLog ("AI queued next page: " +:+ nextUrl) LogType.INFO ;;;
               update (setCloningQueue (fun prev => prev ++ [mkJob nextUrl None])) ;;;
               ret false) w
            else ret false w
      | Throws _ =>
          addLog ("AI returned an invalid next page URL: " +:+ target) LogType.WARN ;;;
          ret false
      end
  | complete msg => addLog msg LogType.SUCCESS ;;; ret false
  | unknown json => addLog ("Unknown AI action: " +:+ json) LogType.WARN ;;; ret false
  end.

(** The body of [if (line) { try { ... } catch { ... } }] for the text
    [raw] cut from the buffer. *)
Definition handle_line (visitedUrls : gset string)
  (mainHtmlContent : option string) (currentUrl : string) (raw : string)
  : Proc bool :=
  let line := trim host raw in
  if truthy line then
    match JSON_parse host line with
    | Some action => handleStreamedAction visitedUrls mainHtmlContent action currentUrl
    | None => addLog ("AI Output (non-JSON): " +:+ line) LogType.DEBUG ;;; ret false
    end
  else ret false.

(** The [while ((newlineIndex = buffer.indexOf('\n')) !== -1)] loop on
    the buffer [acc ++ text], [acc] holding no newline: it returns the
    buffer left and [stopProcessing]. *)
Fixpoint drain (visitedUrls : gset string) (mainHtmlContent : option string)
  (currentUrl : string) (acc : string) (text : string) : Proc (string * bool) :=
  match text with
  | EmptyString => ret (acc, false)
  | String c text' =>
      if Ascii.eqb c "010"%char then
        stop <- handle_line visitedUrls mainHtmlContent currentUrl acc ;;
        if (stop : bool) then ret (text', true)
        else drain visitedUrls mainHtmlContent currentUrl "" text'
      else drain visitedUrls mainHtmlContent currentUrl (acc +:+ String c "") text'
  end.

(** [for await (const chunk of responseStream) { ... }] *)
Fixpoint read_chunks (visitedUrls : gset string) (mainHtmlContent : option string)
  (currentUrl : string) (buffer : string) (stopProcessing : bool)
  (chunks : list string) (ending : option Thrown) : Proc (string * bool) :=
  match chunks with
  | [] =>
      match ending with
      | Some e => throw e
      | None => ret (buffer, stopProcessing)
      end
  | chunk :: rest =>
      if stopProcessing then ret (buffer, true)
      else
        r <- drain visitedUrls mainHtmlContent currentUrl "" (buffer +:+ chunk) ;;
        read_chunks visitedUrls mainHtmlContent currentUrl r.1 r.2 rest ending
  end.

(** [assetPath => new URL(assetPath, job.url).href] over the matches. *)
Fixpoint resolve_assets (paths : list string) (base : string) : Proc (list string) :=
  match paths with
  | [] => ret []
  | p :: rest =>
      u <- await (URL_href host p base) ;;
      us <- resolve_assets rest base ;;
      ret (u :: us)
  end.

(** The effect on [[cloningState, cloningQueue]]. *)
Definition processQueue (s : State) (w : PageAnswers) : State * list Event :=
  if negb (CloningState.eqb (cloningState s) CloningState.CLONING) then (s, [])
  else
    match cloningQueue s with
    | [] => (s, [])
    | job :: _ =>
        if bool_decide (url job ∈ visitedUrls s) then
          (setCloningQueue (drop 1) s, [])
        else
          exec (
            update (setVisitedUrls (fun prev => prev ∪ {[ url job ]})) ;;;
            addLog ("Cloning page (" +:+ pretty (size (visitedUrls s) + 1) +:+ "/5): " +:+ url job)
                   LogType.SYSTEM ;;;
            try_catch
              (addLog "Fetching source code..." LogType.INFO ;;;
               emit (EvFetchPage (url job)) ;;;
               htmlContent <-
                 match page w with
                 | FetchRejects e => throw e
                 | FetchResponds status text =>
                     if response_ok status then await text
                     else throw (ErrorObject ("Failed to fetch URL " +:+ url job +:+
                                              ". Status: " +:+ pretty status +:+ "."))
                 end ;;
               addLog "Successfully fetched page source." LogType.SUCCESS ;;;
               assetUrls <- resolve_assets (asset_matches host htmlContent) (url job) ;;
               (when negb (bool_decide (assetUrls = [])) then
                  (addLog ("Found " +:+ pretty (length assetUrls) +:+
                           " assets (CSS/JS). Fetching...") LogType.INFO ;;;
                   for_each assetUrls (fun assetUrl => emit (EvFetchAsset assetUrl)))) ;;;
               (match screenshot job with
                | Some _ => emit EvReadScreenshot ;;; _ <- await (image w) ;; ret ()
                | None => ret ()
                end) ;;;
               addLog "Dispatching AI agent. Streaming response..." LogType.SYSTEM ;;;
               emit (EvModelStream (url job)) ;;;
               responseStream <- await (stream w) ;;
               r <- read_chunks (visitedUrls s) (mainHtmlContent s) (url job)
                      "" false responseStream.1 responseStream.2 ;;
               (when truthy (trim host r.1) && negb r.2 then
                  (match JSON_parse host (trim host r.1) with
                   | Some action =>
                       _ <- handleStreamedAction (visitedUrls s) (mainHtmlContent s)
                              action (url job) ;;
                       ret ()
                   | None =>
                       addLog ("AI Output (non-JSON): " +:+ trim host r.1) LogType.DEBUG
                   end)) ;;;
               (when negb r.2 then update (setCloningQueue (drop 1))))
              (fun error =>
                 addLog ("An error occurred: " +:+
                         errorMessage error "An unknown error occurred.") LogType.ERROR ;;;
                 update (setCloningState (fun _ => CloningState.ERROR)))
          ) s
    end.

(** The effect on [[cloningState, cloningQueue.length, visitedUrls.size]]. *)
Definition qualityGate (s : State) : State :=
  if CloningState.eqb (cloningState s) CloningState.CLONING
     && bool_decide (cloningQueue s = [])
     && (0 <? size (visitedUrls s))
  then
    (exec (addLog ("Initial cloning phase complete. Cloned " +:+
                   pretty (size (visitedUrls s)) +:+
                   " page(s). Starting AI quality review...") LogType.SYSTEM ;;;
           update (setCloningState (fun _ => CloningState.QUALITY_CHECK))) s).1
  else s.

(** The effect on [[cloningState, handleQualityCheck]]. *)
Definition qualityCheck (s : State) (answer : Result Patch) : State * list Event :=
  if CloningState.eqb (cloningState s) CloningState.QUALITY_CHECK
  then exec (handleQualityCheck (fileSystem s) answer) s
  else (s, []).

(** The [message] listener. *)
Definition handleMessage (msg : string) (s : State) : State :=
  setConsoleErrors
    (fun prev => if existsb (fun e => includes e msg) prev then prev else prev ++ [msg]) s.

(** The effect on [[consoleErrors, cloningState, fixAttempts]]. *)
Definition autoFixTrigger (s : State) (answer : Result Patch) : State * list Event :=
  if negb (bool_decide (consoleErrors s = []))
     && (CloningState.eqb (cloningState s) CloningState.COMPLETED
         || CloningState.eqb (cloningState s) CloningState.ERROR)
     && (fixAttempts s <? MAX_FIX_ATTEMPTS)
  then
    exec (addLog ("Detected " +:+ pretty (length (consoleErrors s)) +:+
                  " console error(s). Attempting to auto-fix... (Attempt " +:+
                  pretty (fixAttempts s + 1) +:+ "/" +:+ pretty MAX_FIX_ATTEMPTS +:+ ")")
                 LogType.SYSTEM ;;;
          handleAutoFix (fileSystem s) (consoleErrors s) answer) s
  else if negb (bool_decide (consoleErrors s = []))
          && (MAX_FIX_ATTEMPTS <=? fixAttempts s)
          && negb (CloningState.eqb (cloningState s) CloningState.FIXING)
  then
    exec (addLog "Max auto-fix attempts reached. Please fix the remaining errors manually."
                 LogType.WARN ;;;
          update (setCloningState (fun _ => CloningState.ERROR))) s
  else (s, []).

(** What can happen to the component: a user action (offered by the
    interface only in the states where its control is shown), an
    effect run with the answers it gets, a message from the preview,
    the timer. *)
Inductive Op : Type :=
| InitiateCloning (rawUrl : string) (useScreenshot windowOpens : bool)
| ScreenshotReady (image_file : string)
| ScreenshotCancel
| ResumeCloning (nextUrl : string)
| CancelAuth
| SelectFile (selected : string * string)
| ProcessQueue (w : PageAnswers)
| QualityGate
| QualityCheck (answer : Result Patch)
| ConsoleMessage (msg : string)
| AutoFixTrigger (answer : Result Patch)
| PreviewTimer.

Definition apply_op (op : Op) (s : State) : State * list Event :=
  match op with
  | InitiateCloning rawUrl useScreenshot windowOpens =>
      handleInitiateCloning rawUrl useScreenshot windowOpens s
  | ScreenshotReady image_file =>
      if isScreenshotModalOpen s then (handleScreenshotReady image_file s, [])
      else (s, [])
  | ScreenshotCancel =>
      if isScreenshotModalOpen s
      then (setIsScreenshotModalOpen (fun _ => false) s, [])
      else (s, [])
  | ResumeCloning nextUrl =>
      if CloningState.eqb (cloningState s) CloningState.AWAITING_USER_INPUT
      then (handleResumeCloning nextUrl s, [])
      else (s, [])
  | CancelAuth =>
      if CloningState.eqb (cloningState s) CloningState.AWAITING_USER_INPUT
      then (handleCancelAuth s, [])
      else (s, [])
  | SelectFile selected => (setActiveFile (fun _ => Some selected) s, [])
  | ProcessQueue w => processQueue s w
  | QualityGate => (qualityGate s, [])
  | QualityCheck answer => qualityCheck s answer
  | ConsoleMessage msg => (handleMessage msg s, [])
  | AutoFixTrigger answer => autoFixTrigger s answer
  | PreviewTimer => (previewTimer s, [])
  end.

(** The state and the calls made after the operations [ops], in order.
    An operation is applied as a whole: a run of [processQueue] is not
    interleaved with the runs of the effect that a change of the queue
    starts before it ends. *)
Fixpoint run (ops : list Op) (s : State) : State * list Event :=
  match ops with
  | [] => (s, [])
  | op :: rest =>
      let r1 := apply_op op s in
      let r2 := run rest r1.1 in
      (r2.1, r1.2 ++ r2.2)
  end.

(** The operations of one session: no new clone is started. *)
Definition same_session (op : Op) : bool :=
  match op with
  | InitiateCloning _ _ _ => false
  | _ => true
  end.

End WithHost.
End Streaming.

(** * The batch orchestrator ([src/unnamed/part_001]) *)

Module Batch.

Definition MAX_PAGES : nat := 5.

(** The structured response of the model, after [JSON.parse]. *)
Record CloneResult : Set := mkCloneResult {
  thoughtProcess : string;
  isAuthWall : bool;
  messageForUser : string;
  files : list (string * string);
  backendFiles : list (string * string);
  nextPageUrl : option string
}.

(** The answers of the outside world to one run of [processQueue]. *)
Record PageAnswers : Type := mkPageAnswers {
  page : FetchAnswer;
  (** the answer of the proxy for each asset *)
  asset : string → FetchAnswer;
  image : Result string;
  (** [ai.models.generateContent(...)], then [JSON.parse(response.text)] *)
  model : Result (Result CloneResult)
}.

(** What [clonePage] returns. *)
Record PageOutcome : Set := mkPageOutcome {
  newFileSystem : FileSystem;
  nextUrl : option string;
  stop : bool
}.

Section WithHost.
Context (host : Host).

(** One asset request of the [Promise.all]; the log lines are taken in
    the order of the requests. *)
Definition fetch_asset (w : PageAnswers) (assetUrl : string) : Proc unit :=
  emit (EvFetchAsset assetUrl) ;;;
  match asset w assetUrl with
  | FetchRejects e =>
      addLog ("Error fetching asset " +:+ assetUrl +:+ ": " +:+ errorMessage e "undefined")
             LogType.ERROR
  | FetchResponds status text =>
      if response_ok status then
        match text with
        | Ok _ => addLog ("Fetched asset: " +:+ assetUrl) LogType.SUCCESS
        | Throws e =>
            addLog ("Error fetching asset " +:+ assetUrl +:+ ": " +:+ errorMessage e "undefined")
                   LogType.ERROR
        end
      else addLog ("Failed to fetch asset: " +:+ assetUrl) LogType.WARN
  end.

Fixpoint resolve_assets (paths : list string) (base : string) : Proc (list string) :=
  match paths with
  | [] => ret []
  | p :: rest =>
      u <- await (URL_href host p base) ;;
      us <- resolve_assets rest base ;;
      ret (u :: us)
  end.

(** [for (const file of allFiles) { ... }] *)
Fixpoint merge_files (mainHtmlContent : option string)
  (allFiles : list (string * string)) (newFileSystem : FileSystem)
  : Proc FileSystem :=
  match allFiles with
  | [] => ret newFileSystem
  | (path, content) :: rest =>
      let newFileSystem := addFileToSystem newFileSystem path content in
      (when endsWith path ".html" && bool_decide (mainHtmlContent = None)
       then update (setMainHtmlContent (fun _ => Some (consoleCaptureScript +:+ content)))) ;;;
      addLog ("Created/Updated file: " +:+ path) LogType.INFO ;;;
      merge_files mainHtmlContent rest newFileSystem
  end.

(** [clonePage(job, currentFileSystem)]; [visitedUrls] and
    [mainHtmlContent] are the values of the render. *)
Definition clonePage (visitedUrls : gset string) (mainHtmlContent : option string)
  (w : PageAnswers) (job : Job) (currentFileSystem : FileSystem)
  : Proc PageOutcome :=
  if bool_decide (url job ∈ visitedUrls) || (MAX_PAGES <=? size visitedUrls) then
    ret (mkPageOutcome currentFileSystem None false)
  else
    update (setVisitedUrls (fun prev => prev ∪ {[ url job ]})) ;;;
    addLog ("Cloning page (" +:+ pretty (size visitedUrls + 1) +:+ "/" +:+
            pretty MAX_PAGES +:+ "): " +:+ url job) LogType.SYSTEM ;;;
    addLog ("Fetching source code for " +:+ url job +:+ "...") LogType.INFO ;;;
    emit (EvFetchPage (url job)) ;;;
    htmlContent <-
      match page w with
      | FetchRejects e => throw e
      | FetchResponds status text =>
          if response_ok status then await text
          else throw (ErrorObject ("Failed to fetch URL " +:+ url job +:+
                                   ". Status: " +:+ pretty status +:+ "."))
      end ;;
    addLog "Successfully fetched page source." LogType.SUCCESS ;;;
    assetUrls <- resolve_assets (asset_matches host htmlContent) (url job) ;;
    (when negb (bool_decide (assetUrls = [])) then
       (addLog ("Found " +:+ pretty (length assetUrls) +:+ " assets (CSS/JS). Fetching...")
               LogType.INFO ;;;
        for_each assetUrls (fetch_asset w))) ;;;
    addLog (match screenshot job with
            | Some _ => "Dispatching Multimodal AI agent with full asset context."
            | None => "Dispatching HTML-only AI agent with full asset context."
            end) LogType.SYSTEM ;;;
    (match screenshot job with
     | Some _ => emit EvReadScreenshot ;;; _ <- await (image w) ;; ret ()
     | None => ret ()
     end) ;;;
    emit (EvModelClone (url job)) ;;;
    response <- await (model w) ;;
    addLog "AI analysis complete. Processing results." LogType.SUCCESS ;;;
    result <- await response ;;
    (when truthy (thoughtProcess result) then
       addLog (thoughtProcess result) LogType.THOUGHT) ;;;
    addLog ("AI Agent: " +:+ dq +:+ messageForUser result +:+ dq)
           (if isAuthWall result then LogType.WARN else LogType.SYSTEM) ;;;
    if isAuthWall result then
      update (setAuthUrl (fun _ => url job)) ;;;
      update (setCloningState (fun _ => CloningState.AWAITING_USER_INPUT)) ;;;
      ret (mkPageOutcome currentFileSystem None true)
    else
      let allFiles := files result ++ backendFiles result in
      newFileSystem <-
        match allFiles with
        | [] =>
            addLog "AI did not return any files for this page." LogType.WARN ;;;
            ret currentFileSystem
        | _ =>
            addLog ("Reconstructing file system for " +:+ url job +:+ ".") LogType.INFO ;;;
            merge_files mainHtmlContent allFiles currentFileSystem
        end ;;
      nextUrl <-
        match nextPageUrl result with
        | Some target =>
            if truthy target then
              match URL_href host target (url job) with
              | Ok u => ret (Some u)
              | Throws _ =>
                  addLog ("AI returned an invalid next page URL: " +:+ target)
                         LogType.WARN ;;;
                  ret None
              end
            else ret None
        | None => ret None
        end ;;
      ret (mkPageOutcome newFileSystem nextUrl false).

(** The effect on [[cloningState, cloningQueue]].  [cloningQueue.shift()]
    removes the job from the array held by the state. *)
Definition processQueue (s : State) (w : PageAnswers) : State * list Event :=
  if CloningState.eqb (cloningState s) CloningState.CLONING then
    match cloningQueue s with
    | [] => (s, [])
    | job :: shifted =>
        if bool_decide (url job ∈ visitedUrls s) then
          (setCloningQueue (fun _ => shifted) s, [])
        else
          exec (
            update (setCloningQueue (fun _ => shifted)) ;;;
            try_catch
              (result <- clonePage (visitedUrls s) (mainHtmlContent s) w job (fileSystem s) ;;
               update (setFileSystem (fun _ => newFileSystem result)) ;;;
               if stop result then ret ()
               else
                 newQueue <-
                   match nextUrl result with
                   | Some next =>
                       if truthy next
                          && bool_decide (next ∉ visitedUrls s)
                          && negb (existsb (fun j => String.eqb (url j) next) shifted)
                       then
                         addLog ("AI identified next page to clone: " +:+ next) LogType.INFO ;;;
                         ret (shifted ++ [mkJob next None])
                       else ret shifted
                   | None => ret shifted
                   end ;;
                 (when bool_decide (newQueue = []) || (5 <=? size (visitedUrls s)) then
                    (addLog ("Cloning process complete. Cloned " +:+
                             pretty (size (visitedUrls s) + 1) +:+
                             " page(s). Now monitoring for errors.") LogType.SUCCESS ;;;
                     update (setCloningState (fun _ => CloningState.COMPLETED)))) ;;;
                 update (setCloningQueue (fun _ => newQueue)))
              (fun error =>
                 addLog ("An error occurred: " +:+
                         errorMessage error "An unknown error occurred.") LogType.ERROR ;;;
                 update (setCloningState (fun _ => CloningState.ERROR)))
          ) s
    end
  else (s, []).

End WithHost.
End Batch.

(** * A host for the examples

    Its [JSON.parse] reads the few lines that the examples feed to it.  Its
    [new URL] takes an absolute [http(s)] URL with something after the
    scheme as it stands and throws on a bare scheme; the examples resolve
    no other input. *)

Definition json_authWall (msg : string) : string :=
  "{" +:+ dq +:+ "action" +:+ dq +:+ ":" +:+ dq +:+ "authWall" +:+ dq +:+ "," +:+
  dq +:+ "message" +:+ dq +:+ ":" +:+ dq +:+ msg +:+ dq +:+ "}".

Definition json_file (path content : string) : string :=
  "{" +:+ dq +:+ "action" +:+ dq +:+ ":" +:+ dq +:+ "file" +:+ dq +:+ "," +:+
  dq +:+ "path" +:+ dq +:+ ":" +:+ dq +:+ path +:+ dq +:+ "," +:+
  dq +:+ "content" +:+ dq +:+ ":" +:+ dq +:+ content +:+ dq +:+ "}".

Definition json_nextPage (target : string) : string :=
  "{" +:+ dq +:+ "action" +:+ dq +:+ ":" +:+ dq +:+ "nextPage" +:+ dq +:+ "," +:+
  dq +:+ "url" +:+ dq +:+ ":" +:+ dq +:+ target +:+ dq +:+ "}".

Definition is_space (c : ascii) : bool :=
  let n := nat_of_ascii c in
  (n =? 32) || ((9 <=? n) && (n <=? 13)).

Fixpoint trim_left (s : string) : string :=
  match s with
  | EmptyString => EmptyString
  | String c s' => if is_space c then trim_left s' else s
  end.

Definition example_trim (s : string) : string :=
  String.rev (trim_left (String.rev (trim_left s))).

Definition example_URL_href (input base : string) : Result string :=
  if has_http_scheme input
     && negb (String.eqb (lower_string input) "http://")
     && negb (String.eqb (lower_string input) "https://")
  then Ok input
  else Throws (ErrorObject "Failed to construct 'URL': Invalid URL").

Definition example_JSON_parse (line : string) : option Action :=
  if String.eqb line (json_authWall "Please sign in.") then Some (authWall "Please sign in.")
  else if String.eqb line (json_file "index.html" "<p>hi</p>") then Some (file "index.html" "<p>hi</p>")
  else if String.eqb line (json_nextPage "https://a.test/2") then Some (nextPage "https://a.test/2")
  else None.

Definition example_host : Host :=
  {| trim := example_trim;
     URL_href := example_URL_href;
     JSON_parse := example_JSON_parse;
     asset_matches := fun _ => [] |}.

(** * Notions used to state the properties *)

(** Induction on a tree, with the hypothesis for every child of a folder. *)
Section NodeInduction.
Variable P : FileSystemNode → Prop.
Hypothesis P_File : ∀ content, P (File content).
Hypothesis P_Folder :
  ∀ children, Forall (fun kv => P kv.2) children → P (Folder children).

Fixpoint FileSystemNode_ind (n : FileSystemNode) : P n :=
  match n with
  | File content => P_File content
  | Folder children =>
      P_Folder children
        ((fix children_ind (l : list (string * FileSystemNode))
            : Forall (fun kv => P kv.2) l :=
            match l with
            | [] => List.Forall_nil _
            | kv :: l' => List.Forall_cons _ kv l' (FileSystemNode_ind kv.2) (children_ind l')
            end) children)
  end.
End NodeInduction.

Fixpoint has_slash (s : string) : bool :=
  match s with
  | EmptyString => false
  | String c s' => Ascii.eqb c slash || has_slash s'
  end.

(** A path segment: not empty, no slash. *)
Definition is_segment (k : string) : bool := truthy k && negb (has_slash k).

(** The node reached from [n] along the keys [ks]. *)
Fixpoint lookup_node (ks : list string) (n : FileSystemNode)
  : option FileSystemNode :=
  match ks with
  | [] => Some n
  | k :: ks' =>
      match n with
      | Folder children =>
          match obj_get k children with
          | Some child => lookup_node ks' child
          | None => None
          end
      | File _ => None
      end
  end.

Definition lookup_parts (ks : list string) (fs : FileSystem)
  : option FileSystemNode :=
  lookup_node ks (Folder fs).

(** A tree as insertions build it: in every folder the keys are distinct
    path segments. *)
#[local] Unset Elimination Schemes.
Inductive wf_node : FileSystemNode → Prop :=
| wf_File content : wf_node (File content)
| wf_Folder children :
    NoDup children.*1 →
    Forall (fun kv => is_segment kv.1 = true) children →
    Forall (fun kv => wf_node kv.2) children →
    wf_node (Folder children).
#[local] Set Elimination Schemes.

(** The keys under which [addFileToSystem] puts the file of [path]. *)
Definition target (path : string) : list string :=
  match path_parts path with
  | [] => ["undefined"]
  | parts => parts
  end.

(** The path that [traverse] builds for the keys [ks] from the root. *)
Definition join_path (ks : list string) : string := foldl child_path "" ks.

(** What flattening the tree gives for the path [p]: the contents of the
    entries of [traverse] whose path is [p]. *)
Definition retrieve (p : string) (fs : FileSystem) : list string :=
  (filter (fun e => e.1 = p) (traverse fs "")).*2.

(** A sequence of insertions [(path, content)], in order. *)
Definition file_merge (fs : FileSystem) (ops : list (string * string))
  : FileSystem :=
  foldl (fun fs op => addFileToSystem fs op.1 op.2) fs ops.

(** One of the two key lists is a prefix of the other: the same place, or
    one inside the other. *)
Definition nested (ks1 ks2 : list string) : Prop :=
  ks1 `prefix_of` ks2 ∨ ks2 `prefix_of` ks1.

(** No segment of the path is the property name [__proto__]. *)
Definition ordinary (path : string) : Prop :=
  Forall (fun k => k ≠ "__proto__") (path_parts path).

(** Every character of the string is a slash. *)
Fixpoint only_slashes (s : string) : bool :=
  match s with
  | EmptyString => true
  | String c s' => Ascii.eqb c slash && only_slashes s'
  end.

(** The text of the stream: the chunks one after the other. *)
Definition stream_text (chunks : list string) : string :=
  foldr String.append "" chunks.

Fixpoint has_newline (s : string) : bool :=
  match s with
  | EmptyString => false
  | String c s' => Ascii.eqb c "010"%char || has_newline s'
  end.

(** The page fetches among the calls. *)
Definition fetched_pages (evs : list Event) : list string :=
  omap (fun e => match e with EvFetchPage u => Some u | _ => None end) evs.

(** What [traverse] appends to the path of a node for the keys [ks] below it. *)
Definition tail_path (ks : list string) : string :=
  foldr (fun k r => "/" +:+ k +:+ r) "" ks.

(** The folder that the walk enters at [part]: the one already there, or a
    fresh empty one. *)
Definition entered (part : string) (current : FileSystem) : FileSystem :=
  match obj_get part current with
  | Some (Folder ch) => ch
  | _ => []
  end.


(** What [child_path] puts in front of the name of a child. *)
Definition path_prefix (path : string) : string :=
  match path with
  | EmptyString => ""
  | _ => path +:+ "/"
  end.

(** The entries of the children of a folder, in creation order. *)
Definition visit_children (pre : string) (children : list (string * FileSystemNode))
  : list (string * string) :=
  mjoin ((fun kv => visit (pre +:+ kv.1) kv.2) <$> children).

(** What the entries of path [cp ++ tail_path ks] below the node [n] are,
    read off the tree. *)
Definition found (p : string) (o : option FileSystemNode) : list (string * string) :=
  match o with
  | Some (File content) => [(p, content)]
  | _ => []
  end.

(** The content of the last insertion of [ops] that goes to the keys [ks]. *)
Definition last_write (ks : list string) (ops : list (string * string))
  : option string :=
  foldl (fun acc op => if decide (target op.1 = ks) then Some op.2 else acc) None ops.

#[global] Instance ordinary_dec path : Decision (ordinary path).
Proof. unfold ordinary. apply _. Defined.

#[global] Instance nested_dec ks1 ks2 : Decision (nested ks1 ks2).
Proof. unfold nested. apply _. Defined.

(** A run [m] keeps the relation [R] between the world it starts from and
    the world it ends in. *)
Definition respects (R : relation (State * list Event)) {A} (m : Proc A) : Prop :=
  ∀ w, R w (m w).2.

(** What every run but the start of a clone and the start of a repair
    keeps: the visited set only grows, the count of repairs stays, and the
    pages fetched are among [allowed]. *)
Definition within (allowed : list string) : relation (State * list Event) :=
  fun w w' =>
    visitedUrls w.1 ⊆ visitedUrls w'.1
    ∧ fixAttempts w'.1 = fixAttempts w.1
    ∧ ∃ evs, w'.2 = w.2 ++ evs ∧ fetched_pages evs ⊆ allowed.

#[global] Instance Event_eq_dec : EqDecision Event.
Proof. solve_decision. Defined.

#[global] Instance CloningState_eq_dec : EqDecision CloningState.t.
Proof. solve_decision. Defined.

#[global] Instance LogType_eq_dec : EqDecision LogType.t.
Proof. solve_decision. Defined.

#[global] Instance AgentLogEntry_eq_dec : EqDecision AgentLogEntry.
Proof. solve_decision. Defined.

(** * Concrete runs used as examples *)

(** A page that the proxy serves. *)
Definition page_ok : FetchAnswer := FetchResponds 200 (Ok "<html></html>").

(** The model answers with the one record [authWall], sent as the last
    line of the stream, with no line break after it. *)
Definition auth_wall_unterminated : Streaming.PageAnswers :=
  Streaming.mkPageAnswers page_ok (Ok "")
    (Ok ([json_authWall "Please sign in."], None)).

(** The same record followed by a line break. *)
Definition auth_wall_terminated : Streaming.PageAnswers :=
  Streaming.mkPageAnswers page_ok (Ok "")
    (Ok ([json_authWall "Please sign in." +:+ nl], None)).

(** The proxy answers 404. *)
Definition page_not_found : Streaming.PageAnswers :=
  Streaming.mkPageAnswers (FetchResponds 404 (Ok "Not Found")) (Ok "") (Ok ([], None)).

(** A clone of [https://a.test/1] on which every page is an
    authentication wall and the user resumes five times, each time at a
    new URL.  After a resumption the effect runs twice: once to drop the
    job of the wall, already visited, once to process the new job. *)
Definition six_auth_walls : list Streaming.Op :=
  [ Streaming.InitiateCloning "https://a.test/1" false true;
    Streaming.ProcessQueue auth_wall_terminated;
    Streaming.ResumeCloning "https://a.test/2";
    Streaming.ProcessQueue auth_wall_terminated;
    Streaming.ProcessQueue auth_wall_terminated;
    Streaming.ResumeCloning "https://a.test/3";
    Streaming.ProcessQueue auth_wall_terminated;
    Streaming.ProcessQueue auth_wall_terminated;
    Streaming.ResumeCloning "https://a.test/4";
    Streaming.ProcessQueue auth_wall_terminated;
    Streaming.ProcessQueue auth_wall_terminated;
    Streaming.ResumeCloning "https://a.test/5";
    Streaming.ProcessQueue auth_wall_terminated;
    Streaming.ProcessQueue auth_wall_terminated;
    Streaming.ResumeCloning "https://a.test/6";
    Streaming.ProcessQueue auth_wall_terminated;
    Streaming.ProcessQueue auth_wall_terminated ].

(** The state in which the first page of a clone is about to be processed. *)
Definition seeded : State :=
  (Streaming.handleInitiateCloning example_host "https://a.test/1" false true
     initialState).1.

(** A finished clone whose three repairs are used up, with an error pending. *)
Definition exhausted : State :=
  setConsoleErrors (fun _ => ["ReferenceError: x is not defined"])
    (setFixAttempts (fun _ => 3)
       (setCloningState (fun _ => CloningState.COMPLETED) initialState)).

(** The batch model answers that the page is an authentication wall. *)
Definition wall_result : Batch.CloneResult :=
  {| Batch.thoughtProcess :=
       "Detected an authentication wall. Halting file generation and awaiting user action.";
     Batch.isAuthWall := true;
     Batch.messageForUser := "Please sign in.";
     Batch.files := [];
     Batch.backendFiles := [];
     Batch.nextPageUrl := None |}.

Definition batch_auth_wall : Batch.PageAnswers :=
  Batch.mkPageAnswers page_ok (fun _ => FetchRejects OtherValue) (Ok "")
    (Ok (Ok wall_result)).

(** A run keeps the visited set among the sets that satisfy [P]. *)
Definition visited_in (P : gset string → Prop) : relation (State * list Event) :=
  fun w w' => P (visitedUrls w.1) → P (visitedUrls w'.1).

(** A run only appends to the queue. *)
Definition queue_grows : relation (State * list Event) :=
  fun w w' => cloningQueue w.1 `prefix_of` cloningQueue w'.1.

(** * Further notions: the handlers and the repair loop *)

(** The state in which a clone without screenshot starts at [u]: nothing
    of the previous clone is left but [authUrl] and the flag of the
    screenshot dialogue. *)
Definition fresh_clone (u : string) (s : State) : State :=
  {| cloningState := CloningState.CLONING;
     agentLogs :=
       [mkLog "Initializing Full-Stack Agentic Cloner v6.0 (Streaming)..." LogType.SYSTEM];
     fileSystem := [];
     activeFile := None;
     mainHtmlContent := None;
     isScreenshotModalOpen := isScreenshotModalOpen s;
     urlToClone := u;
     authUrl := authUrl s;
     cloningQueue := [mkJob u None];
     visitedUrls := ∅;
     consoleErrors := [];
     fixAttempts := 0 |}.

(** A clone started with a screenshot whose dialogue was dismissed: the
    state is [CLONING], nothing is queued, nothing is visited, the
    dialogue is closed and repairs are left. *)
Definition waiting_for_nothing (s : State) : Prop :=
  cloningState s = CloningState.CLONING
  ∧ cloningQueue s = []
  ∧ visitedUrls s = ∅
  ∧ isScreenshotModalOpen s = false
  ∧ fixAttempts s < Streaming.MAX_FIX_ATTEMPTS.

(** The state after a clone with screenshot is started from the initial
    state and its dialogue is dismissed. *)
Definition dismissed : State :=
  (Streaming.run example_host
     [Streaming.InitiateCloning "example.com" true true; Streaming.ScreenshotCancel]
     initialState).1.

(** The state after the page of the first job could not be fetched. *)
Definition failed_fetch : State :=
  (Streaming.processQueue example_host seeded page_not_found).1.

(** The [.html] files of a patch, in order. *)
Definition html_files (files : list (string * string)) : list (string * string) :=
  List.filter (fun f => endsWith f.1 ".html") files.

(** The log lines of the loop over the files of a patch. *)
Definition patch_logs (log_prefix : string) (files : list (string * string))
  : list AgentLogEntry :=
  (fun f => mkLog (log_prefix +:+ f.1) LogType.DEBUG) <$> files.

(** The preview after the loop over the files of a patch: the last
    [.html] file of the patch behind the capture script, or the preview as
    it was. *)
Definition looped_preview (files : list (string * string)) (prev : option string)
  : option string :=
  match last (html_files files) with
  | Some f => Some (consoleCaptureScript +:+ f.2)
  | None => prev
  end.

(** The preview after a patch is applied: when the patch holds no [.html]
    file, a space is put behind the preview to make the frame reload. *)
Definition patched_preview (files : list (string * string)) (prev : option string)
  : option string :=
  match last (html_files files) with
  | Some f => Some (consoleCaptureScript +:+ f.2)
  | None => Streaming.nudge_preview prev
  end.

(** The requests for a repair among the calls. *)
Definition fix_calls (evs : list Event) : nat :=
  length (List.filter (fun e => match e with EvModelFix _ => true | _ => false end) evs).

(** A patch of one style sheet, and a state in which a repair is due. *)
Definition css_patch : Patch :=
  {| analysis := "A selector was misspelt.";
     filesToUpdate := [("public/css/style.css", "body { margin: 0; }")] |}.

Definition broken_preview : State :=
  setConsoleErrors (fun _ => ["ReferenceError: x is not defined"])
    (setMainHtmlContent (fun _ => Some "<p>hi</p>")
       (setFileSystem (fun _ => [("index.html", File "<p>hi</p>")])
          (setCloningState (fun _ => CloningState.COMPLETED) initialState))).

(** A state in which the review is due, and a patch that rewrites the page. *)
Definition under_review : State :=
  setCloningState (fun _ => CloningState.QUALITY_CHECK) broken_preview.

Definition html_patch : Patch :=
  {| analysis := "Added the viewport tag.";
     filesToUpdate := [("index.html", "<p>one</p>"); ("about.html", "<p>two</p>")] |}.

(** * Further notions: one run of the queue *)

(** The calls of a queue run besides the fetch of the page. *)
Definition side_call (e : Event) : bool :=
  match e with
  | EvFetchAsset _ | EvReadScreenshot | EvModelStream _ => true
  | _ => false
  end.

(** What a queue run for the page [u] keeps from the fetch of the page up
    to its last step: the visited set, the count of repairs and the console
    errors stay, the queue is only appended to, the state stays unless an
    authentication wall sets it to [AWAITING_USER_INPUT] with [authUrl] the
    URL of the page, and the calls are the side calls of the run. *)
Definition keeps_job (u : string) : relation (State * list Event) :=
  fun w w' =>
    visitedUrls w'.1 = visitedUrls w.1
    ∧ fixAttempts w'.1 = fixAttempts w.1
    ∧ consoleErrors w'.1 = consoleErrors w.1
    ∧ cloningQueue w.1 `prefix_of` cloningQueue w'.1
    ∧ ((cloningState w'.1 = cloningState w.1 ∧ authUrl w'.1 = authUrl w.1)
       ∨ (cloningState w'.1 = CloningState.AWAITING_USER_INPUT ∧ authUrl w'.1 = u))
    ∧ ∃ evs, w'.2 = w.2 ++ evs ∧ forallb side_call evs = true.

(** A run [m] started in any world that [R] relates to the world [w0]
    ends with a result and a world that satisfy [Φ w0]. *)
Definition guarded {A} (R : relation (State * list Event))
  (Φ : State * list Event → Result A → State * list Event → Prop)
  (m : Proc A) : Prop :=
  ∀ w0 w, R w0 w → Φ w0 (m w).1 (m w).2.

(** How the body of a queue run for the page [u] ends, seen from the world
    [w0] after the fetch was requested: it throws, or the loop stopped at
    an authentication wall and the job stays, or the stream was read to
    its end and the job at the head of the queue is dropped. *)
Definition job_body_end (u : string) (w0 : State * list Event)
  (res : Result unit) (w' : State * list Event) : Prop :=
  match res with
  | Throws _ => keeps_job u w0 w'
  | Ok _ =>
      (keeps_job u w0 w'
       ∧ cloningState w'.1 = CloningState.AWAITING_USER_INPUT)
      ∨ ∃ w2, keeps_job u w0 w2
              ∧ w' = (setCloningQueue (drop 1) w2.1, w2.2)
  end.

(** The state left by an authentication wall on the first page. *)
Definition at_the_wall : State :=
  (Streaming.processQueue example_host seeded auth_wall_terminated).1.

(** A page of one file with a link to follow. *)
Definition page_ok_stream : Streaming.PageAnswers :=
  Streaming.mkPageAnswers page_ok (Ok "")
    (Ok ([json_file "index.html" "<p>hi</p>" +:+ nl;
          json_nextPage "https://a.test/2" +:+ nl], None)).

(** * Further notions: a stream without link *)

(** A job appended to the queue changes [cloningQueue], on which the
    effect of [processQueue] depends: the effect runs again while the
    stream of the page is still read.  The statements on the queue at the
    end of a run are made for the streams that name no next page, during
    which the effect does not run again. *)

(** The text [raw] cut from the buffer is a record that names a next
    page. *)
Definition link_record (host : Host) (raw : string) : bool :=
  let line := trim host raw in
  truthy line
  && match JSON_parse host line with
     | Some (nextPage _) => true
     | _ => false
     end.

(** A line of the text [acc ++ text], or what is left behind its last
    line break, is a record that names a next page; [acc] holds no line
    break. *)
Fixpoint has_link (host : Host) (acc text : string) : bool :=
  match text with
  | EmptyString => link_record host acc
  | String c text' =>
      if Ascii.eqb c "010"%char
      then link_record host acc || has_link host "" text'
      else has_link host (acc +:+ String c "") text'
  end.


(** The run left the queue as it was. *)
Definition same_queue : relation (State * list Event) :=
  fun w w' => cloningQueue w'.1 = cloningQueue w.1.


(** A page of two files, without link. *)
Definition page_files_stream : Streaming.PageAnswers :=
  Streaming.mkPageAnswers page_ok (Ok "")
    (Ok ([json_file "index.html" "<p>hi</p>" +:+ nl;
          "Sure, here are the files:" +:+ nl], None)).

(** The same text as in [page_files_stream], cut elsewhere. *)
Definition page_files_stream_cut : Streaming.PageAnswers :=
  Streaming.mkPageAnswers page_ok (Ok "")
    (Ok (["{"; String.substring 1 200 (json_file "index.html" "<p>hi</p>");
          nl +:+ "Sure, here are"; ""; " the files:" +:+ nl], None)).

(** * The batch component as a whole ([src/unnamed/part_001]) *)

Module BatchSession.

Section WithHost.
Context (host : Host).

(** [handleInitiateCloning] of the batch version; it differs from the
    streaming one by the line it logs. *)
Definition handleInitiateCloning (rawUrl : string) (useScreenshot : bool)
  (windowOpens : bool) (s : State) : State * list Event :=
  if negb (truthy rawUrl)
     || negb (CloningState.eqb (cloningState s) CloningState.IDLE
              || CloningState.eqb (cloningState s) CloningState.COMPLETED
              || CloningState.eqb (cloningState s) CloningState.ERROR)
  then (s, [])
  else
    let url := trim host rawUrl in
    let url := if has_http_scheme url then url else "https://" +:+ url in
    exec (
      update (setCloningState (fun _ => CloningState.CLONING)) ;;;
      update (setAgentLogs (fun _ => [])) ;;;
      update (setFileSystem (fun _ => [])) ;;;
      update (setActiveFile (fun _ => None)) ;;;
      update (setMainHtmlContent (fun _ => None)) ;;;
      update (setVisitedUrls (fun _ => ∅)) ;;;
      update (setConsoleErrors (fun _ => [])) ;;;
      update (setFixAttempts (fun _ => 0)) ;;;
      addLog "Initializing Full-Stack Agentic Cloner v5.1..." LogType.SYSTEM ;;;
      update (setUrlToClone (fun _ => url)) ;;;
      if useScreenshot then
        try_catch
          (emit (EvWindowOpen url) ;;;
           (if windowOpens then ret () else throw OtherValue) ;;;
           update (setIsScreenshotModalOpen (fun _ => true)))
          (fun _ =>
             addLog ("Could not open new tab for URL: " +:+ url +:+
                     ". Please check browser pop-up settings.") LogType.ERROR ;;;
             update (setCloningState (fun _ => CloningState.ERROR)))
      else
        update (setCloningQueue (fun _ => [mkJob url None]))
    ) s.

(** What can happen to the batch component.  The handlers of the
    screenshot, of the resumption and of the messages of the preview, the
    repair and its trigger have the same code as in the streaming
    version; the batch version has no review. *)
Inductive Op : Type :=
| InitiateCloning (rawUrl : string) (useScreenshot windowOpens : bool)
| ScreenshotReady (image_file : string)
| ScreenshotCancel
| ResumeCloning (nextUrl : string)
| CancelAuth
| SelectFile (selected : string * string)
| ProcessQueue (w : Batch.PageAnswers)
| ConsoleMessage (msg : string)
| AutoFixTrigger (answer : Result Patch)
| PreviewTimer.

Definition apply_op (op : Op) (s : State) : State * list Event :=
  match op with
  | InitiateCloning rawUrl useScreenshot windowOpens =>
      handleInitiateCloning rawUrl useScreenshot windowOpens s
  | ScreenshotReady image_file =>
      if isScreenshotModalOpen s
      then (Streaming.handleScreenshotReady image_file s, [])
      else (s, [])
  | ScreenshotCancel =>
      if isScreenshotModalOpen s
      then (setIsScreenshotModalOpen (fun _ => false) s, [])
      else (s, [])
  | ResumeCloning nextUrl =>
      if CloningState.eqb (cloningState s) CloningState.AWAITING_USER_INPUT
      then (Streaming.handleResumeCloning nextUrl s, [])
      else (s, [])
  | CancelAuth =>
      if CloningState.eqb (cloningState s) CloningState.AWAITING_USER_INPUT
      then (Streaming.handleCancelAuth s, [])
      else (s, [])
  | SelectFile selected => (setActiveFile (fun _ => Some selected) s, [])
  | ProcessQueue w => Batch.processQueue host s w
  | ConsoleMessage msg => (Streaming.handleMessage msg s, [])
  | AutoFixTrigger answer => Streaming.autoFixTrigger s answer
  | PreviewTimer => (Streaming.previewTimer host s, [])
  end.

Fixpoint run (ops : list Op) (s : State) : State * list Event :=
  match ops with
  | [] => (s, [])
  | op :: rest =>
      let r1 := apply_op op s in
      let r2 := run rest r1.1 in
      (r2.1, r1.2 ++ r2.2)
  end.

End WithHost.
End BatchSession.

(** The batch model answers with one page and a link to follow. *)
Definition batch_page (next : string) : Batch.PageAnswers :=
  Batch.mkPageAnswers page_ok (fun _ => FetchRejects OtherValue) (Ok "")
    (Ok (Ok {| Batch.thoughtProcess := "";
               Batch.isAuthWall := false;
               Batch.messageForUser := "Done.";
               Batch.files := [("index.html", "<p>hi</p>")];
               Batch.backendFiles := [];
               Batch.nextPageUrl := Some next |})).

(** Six pages, each with a link to the next. *)
Definition six_batch_pages : list BatchSession.Op :=
  [ BatchSession.InitiateCloning "https://a.test/1" false true;
    BatchSession.ProcessQueue (batch_page "https://a.test/2");
    BatchSession.ProcessQueue (batch_page "https://a.test/3");
    BatchSession.ProcessQueue (batch_page "https://a.test/4");
    BatchSession.ProcessQueue (batch_page "https://a.test/5");
    BatchSession.ProcessQueue (batch_page "https://a.test/6");
    BatchSession.ProcessQueue (batch_page "https://a.test/7") ].

(** Five pages are visited and a sixth is queued. *)
Definition at_the_bound : State :=
  (BatchSession.run example_host (take 6 six_batch_pages) initialState).1.

(** * Further notions: the file tree *)

(** The contents of the files of a tree, in creation order. *)
Fixpoint file_contents (n : FileSystemNode) : list string :=
  match n with
  | File content => [content]
  | Folder children => mjoin ((fun kv => file_contents kv.2) <$> children)
  end.

(** A tree with a file, a folder of two files and a file whose name is a
    number. *)
Definition sample_tree : FileSystem :=
  [("index.html", File "<p>hi</p>");
   ("public", Folder [("css", Folder [("style.css", File "body {}")]);
                      ("app.js", File "run()")]);
   ("404", File "not found")].

(** * The list of existing files in the prompt of a page *)

(** [s.split(sep)] for a separator [sep] of at least one character: the
    pieces between the occurrences of [sep], found from the left without
    overlap; [skip] counts the characters of an occurrence still to pass. *)
Fixpoint split_on_go (sep : string) (skip : nat) (acc : string) (s : string)
  : list string :=
  match s with
  | EmptyString => [acc]
  | String c s' =>
      match skip with
      | S n => split_on_go sep n acc s'
      | O =>
          if String.prefix sep s
          then acc :: split_on_go sep (String.length sep - 1) "" s'
          else split_on_go sep 0 (acc +:+ String c "") s'
      end
  end.

Definition split_on (sep s : string) : list string := split_on_go sep 0 "" s.

Fixpoint string_drop (n : nat) (s : string) : string :=
  match n, s with
  | S n', String _ s' => string_drop n' s'
  | _, _ => s
  end.

(** [s.replace(pattern, '')] for a string [pattern] of at least one
    character: the first occurrence of the pattern is taken out. *)
Fixpoint remove_first (pattern : string) (s : string) : string :=
  if String.prefix pattern s then string_drop (String.length pattern) s
  else
    match s with
    | EmptyString => EmptyString
    | String c s' => String c (remove_first pattern s')
    end.

(** [f.split('---')[1].replace(' File: ', '').trim()]; [None] stands for
    the [TypeError] of reading [replace] of [undefined], when the text has
    no [---]. *)
Definition existing_file (host : Host) (f : string) : option string :=
  match split_on "---" f with
  | _ :: piece :: _ => Some (trim host (remove_first " File: " piece))
  | _ => None
  end.

(** [getFileSystemAsText(fileSystem).map(f => ...)], the names put in the
    prompt after [Existing Files:]. *)
Definition existingFiles (host : Host) (fs : FileSystem) : option (list string) :=
  mapM (existing_file host) (getFileSystemAsText fs).

(** * The components that show the state *)

(** ** [AgentLog] ([src/unnamed/part_004]) *)

Definition getLogTypePrefix (type : LogType.t) : string :=
  match type with
  | LogType.SUCCESS => "[SUCCESS]"
  | LogType.WARN => "[WARN]   "
  | LogType.ERROR => "[ERROR]  "
  | LogType.SYSTEM => "[SYSTEM] "
  | LogType.DEBUG => "[DEBUG]  "
  | LogType.THOUGHT => "[AGENT]  "
  | LogType.INFO => "[INFO]   "
  | _ => "[LOG]    "
  end.

(** ** [CodeEditor] ([src/unnamed/part_005]) *)

(** [file.content.split('\n').length] *)
Definition lineCount (content : string) : nat := length (split_on nl content).

(** [Array.from({ length: lineCount }, (_, i) => i + 1)], the numbers
    shown beside the code. *)
Definition lineNumbers (content : string) : list nat := seq 1 (lineCount content).

Fixpoint count_newlines (s : string) : nat :=
  match s with
  | EmptyString => 0
  | String c s' => (if Ascii.eqb c "010"%char then 1 else 0) + count_newlines s'
  end.

(** ** [fileToBase64] ([src/App.tsx]) *)

(** [(reader.result as string).split(',')[1]], the value the promise
    resolves with for the data URL [dataUrl]; [None] stands for
    [undefined]. *)
Definition fileToBase64_result (dataUrl : string) : option string :=
  split_on "," dataUrl !! 1.

Fixpoint has_comma (s : string) : bool :=
  match s with
  | EmptyString => false
  | String c s' => Ascii.eqb c ","%char || has_comma s'
  end.

(** ** The preview *)

(** The run left the content of the preview as it was. *)
Definition same_preview : relation (State * list Event) :=
  fun w w' => mainHtmlContent w'.1 = mainHtmlContent w.1.

(** * Properties of strings and of objects *)

Lemma str_app_cons c s t : String c s +:+ t = String c (s +:+ t).
Proof. reflexivity. Qed.

Lemma str_app_nil_r s : s +:+ "" = s.
Proof. induction s as [|c s IH]; [done|]. by rewrite str_app_cons, IH. Qed.

Lemma str_app_assoc a b c : (a +:+ b) +:+ c = a +:+ (b +:+ c).
Proof. induction a as [|x a IH]; [done|]. by rewrite !str_app_cons, IH. Qed.

Lemma app_eq_self s t : s = s +:+ t → t = "".
Proof.
  intros H. symmetry. apply (String.app_inj s). by rewrite str_app_nil_r.
Qed.

Lemma truthy_true s : truthy s = true ↔ s ≠ "".
Proof.
  unfold truthy. destruct (String.eqb_spec s ""); simpl; split; congruence.
Qed.

Lemma eqb_false_ne a b : String.eqb a b = false ↔ a ≠ b.
Proof. apply String.eqb_neq. Qed.

Section ObjectFacts.
Context {A : Type}.
Implicit Types (o : list (string * A)) (k : string) (v : A).

Lemma obj_get_set_eq k v o : obj_get k (obj_set k v o) = Some v.
Proof.
  induction o as [|[k' v'] o IH]; simpl.
  - by rewrite String.eqb_refl.
  - destruct (String.eqb_spec k k') as [->|Hne]; simpl.
    + by rewrite String.eqb_refl.
    + apply eqb_false_ne in Hne. by rewrite Hne.
Qed.

Lemma obj_get_set_ne k k' v o :
  k ≠ k' → obj_get k' (obj_set k v o) = obj_get k' o.
Proof.
  intros Hne. induction o as [|[k0 v0] o IH]; simpl.
  - assert (String.eqb k' k = false) as -> by (apply eqb_false_ne; congruence).
    done.
  - destruct (String.eqb_spec k k0) as [->|Hne0]; simpl.
    + assert (String.eqb k' k0 = false) as -> by (apply eqb_false_ne; congruence).
      done.
    + by rewrite IH.
Qed.

Lemma obj_get_None k o : obj_get k o = None ↔ k ∉ o.*1.
Proof.
  induction o as [|[k' v'] o IH]; simpl.
  - split; [intros _; apply not_elem_of_nil | done].
  - rewrite not_elem_of_cons.
    destruct (String.eqb_spec k k') as [->|Hne].
    + split; [done|]. intros [? _]. done.
    + rewrite IH. split; [by split|]. by intros [_ ?].
Qed.

Lemma obj_get_Some k v o : obj_get k o = Some v → (k, v) ∈ o.
Proof.
  induction o as [|[k' v'] o IH]; simpl; [done|].
  destruct (String.eqb_spec k k') as [->|Hne].
  - intros [= ->]. left.
  - intros H. right. auto.
Qed.

Lemma obj_set_keys k v o :
  (obj_set k v o).*1 = if decide (k ∈ o.*1) then o.*1 else o.*1 ++ [k].
Proof.
  induction o as [|[k' v'] o IH].
  - case_decide as Hin; [by apply elem_of_nil in Hin|done].
  - cbn [obj_set]. destruct (String.eqb_spec k k') as [->|Hne].
    + rewrite decide_True by (rewrite fmap_cons; left). done.
    + rewrite !fmap_cons, IH. cbn [fst].
      destruct (decide (k ∈ o.*1)) as [Hin|Hnin].
      * rewrite decide_True by (by right). done.
      * rewrite decide_False; [done|].
        rewrite not_elem_of_cons. done.
Qed.

Lemma obj_set_NoDup k v o : NoDup o.*1 → NoDup (obj_set k v o).*1.
Proof.
  intros Hnd. rewrite obj_set_keys. case_decide; [done|].
  apply NoDup_app. split_and!; [done| |apply NoDup_singleton].
  intros x Hx ->%list_elem_of_singleton. done.
Qed.

Lemma obj_set_Forall (P : string * A → Prop) k v o :
  P (k, v) → Forall P o → Forall P (obj_set k v o).
Proof.
  intros Hkv. induction 1 as [|[k' v'] o Hx Ho IH]; simpl.
  - by constructor.
  - destruct (String.eqb k k'); by constructor.
Qed.

Lemma index_named_entries o : (index_entries o).*2 ++ named_entries o ≡ₚ o.
Proof.
  unfold index_entries, named_entries.
  induction o as [|kv o IH]; [done|].
  cbn [omap list_omap].
  destruct (array_index kv.1) as [n|] eqn:Hidx.
  - rewrite filter_cons_False by (rewrite Hidx; done).
    rewrite fmap_cons. cbn [snd app]. by constructor.
  - rewrite filter_cons_True by done.
    rewrite <- Permutation_middle. by constructor.
Qed.

(** [Object.entries] lists every own property once. *)
Lemma Object_entries_perm o : Object_entries o ≡ₚ o.
Proof.
  unfold Object_entries.
  rewrite merge_sort_Permutation. apply index_named_entries.
Qed.
End ObjectFacts.

(** * Insertion into the file tree *)

Lemma add_parts_last k content current :
  add_parts [k] content current = obj_set k (File content) current.
Proof. reflexivity. Qed.

Lemma add_parts_step k k' ks content current :
  add_parts (k :: k' :: ks) content current
  = obj_set k (Folder (add_parts (k' :: ks) content (entered k current))) current.
Proof. reflexivity. Qed.

Lemma has_slash_app a b : has_slash (a +:+ b) = has_slash a || has_slash b.
Proof.
  induction a as [|c a IH]; [done|].
  rewrite str_app_cons. simpl. rewrite IH. by rewrite orb_assoc.
Qed.

Lemma split_go_no_slash acc s :
  has_slash acc = false →
  Forall (fun x => has_slash x = false) (split_go acc s).
Proof.
  revert acc. induction s as [|c s IH]; intros acc Hacc; simpl.
  - by constructor.
  - destruct (Ascii.eqb c slash) eqn:Hc.
    + constructor; [done|]. by apply IH.
    + apply IH. rewrite has_slash_app, Hacc. simpl. by rewrite Hc.
Qed.

Lemma path_parts_segments path : Forall (fun k => is_segment k = true) (path_parts path).
Proof.
  unfold path_parts, split_slash.
  pose proof (split_go_no_slash "" path eq_refl) as H.
  induction H as [|x l Hx Hl IH]; simpl; [by constructor|].
  destruct (truthy x) eqn:Hx'; [|done].
  constructor; [|done]. unfold is_segment. by rewrite Hx', Hx.
Qed.

Lemma target_segments path : Forall (fun k => is_segment k = true) (target path).
Proof.
  unfold target. pose proof (path_parts_segments path) as H.
  destruct (path_parts path); [|done]. by repeat constructor.
Qed.

Lemma target_nonempty path : target path ≠ [].
Proof. unfold target. by destruct (path_parts path). Qed.

Lemma addFileToSystem_target fs path content :
  addFileToSystem fs path content = add_parts (target path) content fs.
Proof. unfold addFileToSystem, target. by destruct (path_parts path). Qed.

(** The file is where it was put. *)
Lemma lookup_add_parts ks content fs :
  ks ≠ [] → lookup_parts ks (add_parts ks content fs) = Some (File content).
Proof.
  unfold lookup_parts. revert fs.
  induction ks as [|k ks IH]; intros fs Hne; [done|].
  destruct ks as [|k' ks].
  - rewrite add_parts_last. cbn [lookup_node]. by rewrite obj_get_set_eq.
  - rewrite add_parts_step. cbn [lookup_node]. rewrite obj_get_set_eq.
    by apply IH.
Qed.

(** Below a file, and in an empty folder, there is nothing. *)
Lemma lookup_node_entered k js fs :
  js ≠ [] →
  lookup_node js (Folder (entered k fs))
  = match obj_get k fs with
    | Some child => lookup_node js child
    | None => None
    end.
Proof.
  intros Hjs. unfold entered.
  destruct js as [|j js]; [done|].
  destruct (obj_get k fs) as [[c|ch]|]; done.
Qed.

(** Places that are neither on the way to the file nor below it keep
    what they hold. *)
Lemma lookup_add_parts_other ks ks' content fs :
  ks ≠ [] → ¬ nested ks ks' →
  lookup_parts ks' (add_parts ks content fs) = lookup_parts ks' fs.
Proof.
  unfold lookup_parts, nested. revert fs ks'.
  induction ks as [|k ks IH]; intros fs ks' Hne Hn; [done|].
  destruct ks' as [|j js].
  { exfalso. apply Hn. right. apply prefix_nil. }
  destruct (decide (k = j)) as [<-|Hkj].
  - destruct ks as [|k' ks].
    { exfalso. apply Hn. left. apply prefix_cons, prefix_nil. }
    rewrite add_parts_step. cbn [lookup_node]. rewrite obj_get_set_eq.
    assert (js ≠ []) as Hjs.
    { intros ->. apply Hn. right. apply prefix_cons, prefix_nil. }
    rewrite IH; [by apply lookup_node_entered|done|].
    intros [H|H]; apply Hn; [left|right]; by apply prefix_cons.
  - assert (obj_get j (add_parts (k :: ks) content fs) = obj_get j fs) as Hget.
    { destruct ks as [|k' ks].
      - rewrite add_parts_last. by apply obj_get_set_ne.
      - rewrite add_parts_step. by apply obj_get_set_ne. }
    cbn [lookup_node]. by rewrite Hget.
Qed.

(** Every place on the way to the file is a folder afterwards. *)
Lemma lookup_add_parts_prefix pre suf content fs :
  pre ≠ [] → suf ≠ [] →
  ∃ ch, lookup_parts pre (add_parts (pre ++ suf) content fs) = Some (Folder ch).
Proof.
  unfold lookup_parts. revert fs.
  induction pre as [|k pre IH]; intros fs Hpre Hsuf; [done|].
  destruct pre as [|k2 pre].
  - destruct suf as [|k' rest]; [done|].
    change ([k] ++ k' :: rest) with (k :: k' :: rest).
    rewrite add_parts_step. cbn [lookup_node]. rewrite obj_get_set_eq.
    eexists. reflexivity.
  - change ((k :: k2 :: pre) ++ suf) with (k :: k2 :: (pre ++ suf)).
    rewrite add_parts_step. cbn [lookup_node]. rewrite obj_get_set_eq.
    by apply (IH (entered k fs)).
Qed.

Lemma wf_entered k fs : wf_node (Folder fs) → wf_node (Folder (entered k fs)).
Proof.
  intros Hwf. unfold entered.
  destruct (obj_get k fs) as [[c|ch]|] eqn:Hget;
    try (constructor; constructor).
  inversion Hwf as [|? _ _ Hch]; subst.
  apply obj_get_Some in Hget.
  rewrite Forall_forall in Hch. apply (Hch _ Hget).
Qed.

Lemma wf_obj_set k n fs :
  is_segment k = true → wf_node n → wf_node (Folder fs) →
  wf_node (Folder (obj_set k n fs)).
Proof.
  intros Hk Hn Hwf. inversion Hwf as [|? Hnd Hkeys Hch]; subst.
  constructor.
  - by apply obj_set_NoDup.
  - by apply obj_set_Forall.
  - by apply obj_set_Forall.
Qed.

(** Insertion keeps the tree well formed. *)
Lemma wf_add_parts ks content fs :
  ks ≠ [] → Forall (fun k => is_segment k = true) ks →
  wf_node (Folder fs) → wf_node (Folder (add_parts ks content fs)).
Proof.
  revert fs. induction ks as [|k ks IH]; intros fs Hne Hks Hwf; [done|].
  apply Forall_cons in Hks as [Hk Hks].
  destruct ks as [|k' ks].
  - rewrite add_parts_last. apply wf_obj_set; [done|constructor|done].
  - rewrite add_parts_step. apply wf_obj_set; [done| |done].
    apply IH; [done|done|]. by apply wf_entered.
Qed.

Lemma wf_addFileToSystem fs path content :
  wf_node (Folder fs) → wf_node (Folder (addFileToSystem fs path content)).
Proof.
  rewrite addFileToSystem_target.
  apply wf_add_parts; [apply target_nonempty|apply target_segments].
Qed.

Lemma wf_file_merge fs ops :
  wf_node (Folder fs) → wf_node (Folder (file_merge fs ops)).
Proof.
  unfold file_merge. revert fs.
  induction ops as [|[p c] ops IH]; intros fs Hwf; [done|].
  simpl. apply IH. by apply wf_addFileToSystem.
Qed.

(** * Flattening the file tree *)

Lemma child_path_prefix path name : child_path path name = path_prefix path +:+ name.
Proof.
  destruct path as [|c path]; [done|].
  unfold child_path, path_prefix. by rewrite str_app_assoc.
Qed.

Lemma app_nonempty_r a b : b ≠ "" → a +:+ b ≠ "".
Proof. intros Hb. destruct a; [done|]. by rewrite str_app_cons. Qed.

Lemma app_nonempty_l a b : a ≠ "" → a +:+ b ≠ "".
Proof. intros Ha. destruct a; [done|]. by rewrite str_app_cons. Qed.

Lemma segment_nonempty k : is_segment k = true → k ≠ "".
Proof. unfold is_segment. intros [H _]%andb_true_iff. by apply truthy_true. Qed.

Lemma segment_no_slash k : is_segment k = true → has_slash k = false.
Proof. unfold is_segment. intros [_ H]%andb_true_iff. by apply negb_true_iff. Qed.

Lemma tail_path_cons k ks : tail_path (k :: ks) = "/" +:+ k +:+ tail_path ks.
Proof. reflexivity. Qed.

Lemma tail_path_head ks : tail_path ks = "" ∨ ∃ r, tail_path ks = String slash r.
Proof. destruct ks as [|k ks]; [by left|right]. by eexists. Qed.

Lemma foldl_child_path cp ks :
  cp ≠ "" → foldl child_path cp ks = cp +:+ tail_path ks.
Proof.
  revert cp. induction ks as [|k ks IH]; intros cp Hcp; simpl.
  - by rewrite str_app_nil_r.
  - rewrite IH.
    + rewrite child_path_prefix. destruct cp as [|c cp]; [done|].
      unfold path_prefix. fold (tail_path ks). by rewrite !str_app_assoc.
    + rewrite child_path_prefix. apply app_nonempty_l.
      destruct cp; [done|]. unfold path_prefix. by rewrite str_app_cons.
Qed.

Lemma join_path_cons k ks : k ≠ "" → join_path (k :: ks) = k +:+ tail_path ks.
Proof. intros Hk. unfold join_path. simpl. by apply foldl_child_path. Qed.

(** Two paths that agree start with the same segment. *)
Lemma segment_head_inj a b ks1 ks2 :
  has_slash a = false → has_slash b = false →
  a +:+ tail_path ks1 = b +:+ tail_path ks2 → a = b.
Proof.
  revert b. induction a as [|c a IH]; intros b Ha Hb Heq.
  - destruct b as [|d b]; [done|]. exfalso.
    simpl in Hb. apply orb_false_iff in Hb as [Hd _].
    change ("" +:+ tail_path ks1) with (tail_path ks1) in Heq.
    rewrite str_app_cons in Heq.
    destruct (tail_path_head ks1) as [H|[r H]]; rewrite H in Heq; [done|].
    injection Heq as <- _. by rewrite Ascii.eqb_refl in Hd.
  - simpl in Ha. apply orb_false_iff in Ha as [Hc Ha].
    destruct b as [|d b].
    + exfalso. change ("" +:+ tail_path ks2) with (tail_path ks2) in Heq.
      rewrite str_app_cons in Heq.
      destruct (tail_path_head ks2) as [H|[r H]]; rewrite H in Heq; [done|].
      injection Heq as -> _. by rewrite Ascii.eqb_refl in Hc.
    + simpl in Hb. apply orb_false_iff in Hb as [_ Hb].
      rewrite !str_app_cons in Heq. injection Heq as -> Heq.
      f_equal. by apply IH.
Qed.

Lemma visit_folder cp children :
  visit cp (Folder children) ≡ₚ visit_children (path_prefix cp) children.
Proof.
  unfold visit_children. cbn [visit].
  rewrite Object_entries_perm, <- list_fmap_compose.
  apply reflexive_eq. f_equal. apply Forall_fmap_ext_1, Forall_forall.
  intros [name child] _. simpl. by rewrite child_path_prefix.
Qed.

Lemma traverse_root fs : traverse fs "" ≡ₚ visit_children "" fs.
Proof.
  unfold visit_children, traverse.
  rewrite Object_entries_perm, <- list_fmap_compose. done.
Qed.

Lemma visit_children_cons pre name child rest :
  visit_children pre ((name, child) :: rest)
  = visit (pre +:+ name) child ++ visit_children pre rest.
Proof. reflexivity. Qed.

(** Every path listed below a node extends the path of the node. *)
Lemma visit_paths n : ∀ cp e, cp ≠ "" → e ∈ visit cp n → ∃ ks, e.1 = cp +:+ tail_path ks.
Proof.
  induction n as [content|children IH] using FileSystemNode_ind; intros cp e Hcp He.
  - apply list_elem_of_singleton in He as ->. exists []. simpl. by rewrite str_app_nil_r.
  - rewrite visit_folder in He. unfold visit_children in He.
    apply list_elem_of_join in He as (l & He & Hl).
    apply list_elem_of_fmap in Hl as ([name child] & -> & Hin).
    rewrite Forall_forall in IH. simpl in He.
    destruct (IH _ Hin (path_prefix cp +:+ name) e) as [ks Hks]; [|done|].
    { apply app_nonempty_l. destruct cp; [done|]. unfold path_prefix. by rewrite str_app_cons. }
    exists (name :: ks). rewrite Hks, tail_path_cons.
    destruct cp as [|c cp]; [done|]. unfold path_prefix. by rewrite !str_app_assoc.
Qed.

Lemma filter_none {A} (P : A → Prop) `{∀ x, Decision (P x)} (l : list A) :
  (∀ x, x ∈ l → ¬ P x) → filter P l = [].
Proof.
  induction l as [|x l IH]; intros Hl; [done|].
  rewrite filter_cons_False by (apply Hl; left).
  apply IH. intros y Hy. apply Hl. by right.
Qed.

Lemma found_perm p o (l : list (string * string)) : l ≡ₚ found p o → l = found p o.
Proof.
  unfold found. destruct o as [[content|children]|].
  - apply Permutation_singleton_r.
  - apply Permutation_nil_r.
  - apply Permutation_nil_r.
Qed.

(** Below a child named otherwise there is no entry of the wanted path. *)
Lemma visit_other_child pre name child k ks :
  name ≠ k → has_slash name = false → has_slash k = false → pre +:+ name ≠ "" →
  filter (fun e => e.1 = pre +:+ k +:+ tail_path ks) (visit (pre +:+ name) child) = [].
Proof.
  intros Hne Hname Hk Hcp. apply filter_none. intros e He Heq.
  destruct (visit_paths child _ e Hcp He) as [ks' Hks'].
  rewrite Hks', str_app_assoc in Heq.
  apply (String.app_inj pre) in Heq.
  apply Hne. by eapply segment_head_inj.
Qed.

(** The wanted entry of a folder is the wanted entry of the child found
    under the first key. *)
Lemma visit_children_filter pre k ks children :
  NoDup children.*1 →
  Forall (fun kv => is_segment kv.1 = true) children →
  has_slash k = false →
  filter (fun e => e.1 = pre +:+ k +:+ tail_path ks) (visit_children pre children)
  = match obj_get k children with
    | Some child =>
        filter (fun e => e.1 = pre +:+ k +:+ tail_path ks) (visit (pre +:+ k) child)
    | None => []
    end.
Proof.
  intros Hnd Hkeys Hk.
  induction children as [|[name child] rest IH]; [done|].
  rewrite visit_children_cons, filter_app.
  apply NoDup_cons in Hnd as [Hname Hnd].
  apply Forall_cons in Hkeys as [Hseg Hkeys]. simpl in Hseg.
  specialize (IH Hnd Hkeys). simpl.
  destruct (String.eqb_spec k name) as [->|Hne].
  - rewrite IH. simpl in Hname. apply obj_get_None in Hname. rewrite Hname.
    by rewrite (right_id_L [] app).
  - rewrite visit_other_child, IH; [done|congruence| |done|].
    + by apply segment_no_slash.
    + by apply app_nonempty_r, segment_nonempty.
Qed.

(** The entries of a given path below a node, read off the tree. *)
Lemma visit_filter n :
  ∀ cp ks, cp ≠ "" → wf_node n →
    Forall (fun k => is_segment k = true) ks →
    filter (fun e => e.1 = cp +:+ tail_path ks) (visit cp n)
    = found (cp +:+ tail_path ks) (lookup_node ks n).
Proof.
  induction n as [content|children IH] using FileSystemNode_ind;
    intros cp ks Hcp Hwf Hks.
  - destruct ks as [|k ks]; simpl.
    + rewrite str_app_nil_r. by rewrite filter_cons_True.
    + rewrite filter_cons_False; [done|]. simpl.
      intros H%app_eq_self. fold (tail_path ks) in H. by rewrite !str_app_cons in H.
  - inversion Hwf as [|? Hnd Hkeys Hch]; subst.
    assert (path_prefix cp = cp +:+ "/") as Hpre by (by destruct cp).
    destruct ks as [|k ks].
    + change (tail_path []) with "". cbn [lookup_node found].
      rewrite str_app_nil_r. apply filter_none. intros e He Heq.
      destruct (visit_paths (Folder children) cp e Hcp He) as [ks' Hks'].
      rewrite visit_folder in He. unfold visit_children in He.
      apply list_elem_of_join in He as (l & He & Hl).
      apply list_elem_of_fmap in Hl as ([name child] & -> & Hin). simpl in He.
      rewrite Forall_forall in Hkeys. pose proof (Hkeys _ Hin) as Hseg. simpl in Hseg.
      assert (path_prefix cp +:+ name ≠ "") as Hcp'.
      { by apply app_nonempty_r, segment_nonempty. }
      destruct (visit_paths child _ e Hcp' He) as [ks2 Hks2].
      rewrite Hks2, Hpre, !str_app_assoc in Heq.
      symmetry in Heq. apply app_eq_self in Heq. by rewrite str_app_cons in Heq.
    + apply Forall_cons in Hks as [Hk Hks].
      assert (cp +:+ tail_path (k :: ks) = path_prefix cp +:+ k +:+ tail_path ks) as Hp.
      { rewrite tail_path_cons, Hpre. by rewrite !str_app_assoc. }
      rewrite Hp. apply found_perm.
      rewrite visit_folder.
      rewrite visit_children_filter by (done || by apply segment_no_slash).
      cbn [lookup_node]. apply reflexive_eq.
      destruct (obj_get k children) as [child|] eqn:Hget; [|done].
      apply obj_get_Some in Hget.
      rewrite Forall_forall in IH, Hch.
      rewrite <- (str_app_assoc (path_prefix cp) k).
      apply (IH _ Hget); [|by apply (Hch _ Hget)|done].
      by apply app_nonempty_r, segment_nonempty.
Qed.

(** * File merge: the claims on the file tree *)

Lemma retrieve_lookup fs ks :
  wf_node (Folder fs) → ks ≠ [] → Forall (fun k => is_segment k = true) ks →
  retrieve (join_path ks) fs = (found (join_path ks) (lookup_parts ks fs)).*2.
Proof.
  intros Hwf Hne Hks. destruct ks as [|k ks]; [done|].
  apply Forall_cons in Hks as [Hk Hks].
  inversion Hwf as [|? Hnd Hkeys Hch]; subst.
  unfold retrieve. f_equal.
  rewrite join_path_cons by (by apply segment_nonempty).
  apply found_perm. rewrite traverse_root.
  change (k +:+ tail_path ks) with ("" +:+ k +:+ tail_path ks).
  rewrite visit_children_filter by (done || by apply segment_no_slash).
  unfold lookup_parts. cbn [lookup_node]. apply reflexive_eq.
  destruct (obj_get k fs) as [child|] eqn:Hget; [|done].
  apply obj_get_Some in Hget. rewrite Forall_forall in Hch.
  change ("" +:+ k +:+ tail_path ks) with (k +:+ tail_path ks).
  change ("" +:+ k) with k.
  apply visit_filter; [by apply segment_nonempty|by apply (Hch _ Hget)|done].
Qed.

Lemma wf_empty : wf_node (Folder []).
Proof. constructor; constructor. Qed.

Lemma file_merge_app fs ops1 ops2 :
  file_merge fs (ops1 ++ ops2) = file_merge (file_merge fs ops1) ops2.
Proof. unfold file_merge. apply foldl_app. Qed.

(** What one insertion at [q] keeps of an earlier insertion at the keys
    [ks], when the two places are not nested. *)
Lemma addFileToSystem_keeps fs q c' ks content :
  ¬ nested (target q) ks →
  lookup_parts ks fs = Some (File content) →
  (∀ pre suf, pre ≠ [] → suf ≠ [] → ks = pre ++ suf →
     ∃ ch, lookup_parts pre fs = Some (Folder ch)) →
  lookup_parts ks (addFileToSystem fs q c') = Some (File content)
  ∧ (∀ pre suf, pre ≠ [] → suf ≠ [] → ks = pre ++ suf →
       ∃ ch, lookup_parts pre (addFileToSystem fs q c') = Some (Folder ch)).
Proof.
  intros Hn Hfile Hfolders. rewrite addFileToSystem_target. split.
  - rewrite lookup_add_parts_other; [done|apply target_nonempty|done].
  - intros pre suf Hpre Hsuf ->.
    destruct (decide (pre `prefix_of` target q)) as [[suf' Hq]|Hnp].
    + destruct suf' as [|k suf'].
      * exfalso. apply Hn. left. rewrite Hq, (right_id_L [] app).
        by apply prefix_app_r.
      * rewrite Hq. by apply lookup_add_parts_prefix.
    + rewrite lookup_add_parts_other; [by eapply Hfolders|apply target_nonempty|].
      intros [Hqp|Hpq]; [|done].
      apply Hn. left. etrans; [done|]. by apply prefix_app_r.
Qed.

Lemma file_merge_keeps ops : ∀ fs ks content,
  Forall (fun op => ¬ nested (target op.1) ks) ops →
  lookup_parts ks fs = Some (File content) →
  (∀ pre suf, pre ≠ [] → suf ≠ [] → ks = pre ++ suf →
     ∃ ch, lookup_parts pre fs = Some (Folder ch)) →
  lookup_parts ks (file_merge fs ops) = Some (File content)
  ∧ (∀ pre suf, pre ≠ [] → suf ≠ [] → ks = pre ++ suf →
       ∃ ch, lookup_parts pre (file_merge fs ops) = Some (Folder ch)).
Proof.
  induction ops as [|[q c'] ops IH]; intros fs ks content Hops Hfile Hfolders.
  - by split.
  - apply Forall_cons in Hops as [Hq Hops]. simpl in Hq.
    destruct (addFileToSystem_keeps fs q c' ks content Hq Hfile Hfolders) as [H1 H2].
    change (file_merge fs ((q, c') :: ops))
      with (file_merge (addFileToSystem fs q c') ops).
    by apply IH.
Qed.

Lemma only_slashes_parts path : only_slashes path = true → path_parts path = [].
Proof.
  unfold path_parts, split_slash.
  induction path as [|c path IH]; simpl; [done|].
  intros [Hc Hrest]%andb_true_iff. rewrite Hc. simpl. by apply IH.
Qed.

(** C3, as the specification states it, at a concrete input: after ["a"]
    and then ["a/b"] are written, flattening has no entry for ["a"], whose
    last written content was ["x"]. *)
Lemma last_write_lost :
  let ops := [("a", "x"); ("a/b", "y")] in
  path_parts "a" ≠ []
  ∧ last_write (target "a") ops = Some "x"
  ∧ retrieve "a" (file_merge [] ops) ≠ ["x"].
Proof. vm_compute. split_and!; done. Qed.

(** C3 (amended).  After any sequence of file-merge insertions into the
    empty tree, made along ordinary path segments, flattening the tree
    yields for the path of an insertion exactly the content of that
    insertion, provided no later insertion goes to the same place, to a
    place above it or to a place below it; and every place on the way to
    the inserted file holds a folder, whatever it held before. *)
Theorem file_merge_last_write_wins
  (before after : list (string * string)) (q p content : string) :
  Forall (fun op => ordinary op.1) (before ++ (q, content) :: after) →
  target q = target p →
  Forall (fun op => ¬ nested (target op.1) (target p)) after →
  let fs := file_merge [] (before ++ (q, content) :: after) in
  retrieve (join_path (target p)) fs = [content]
  ∧ (∀ pre suf, pre ≠ [] → suf ≠ [] → target p = pre ++ suf →
       ∃ ch, lookup_parts pre fs = Some (Folder ch)).
Proof.
  intros _ Hq Hafter fs.
  assert (wf_node (Folder fs)) as Hwf by apply wf_file_merge, wf_empty.
  subst fs. rewrite file_merge_app in *.
  change (file_merge (file_merge [] before) ((q, content) :: after))
    with (file_merge (addFileToSystem (file_merge [] before) q content) after) in *.
  set (fs1 := file_merge [] before) in *.
  destruct (file_merge_keeps after (addFileToSystem fs1 q content) (target p) content)
    as [Hfile Hfolders]; [done| | |].
  - rewrite addFileToSystem_target, Hq.
    apply lookup_add_parts, target_nonempty.
  - intros pre suf Hpre Hsuf Hp.
    rewrite addFileToSystem_target, Hq, Hp. by apply lookup_add_parts_prefix.
  - split; [|done].
    rewrite retrieve_lookup; [|done|apply target_nonempty|apply target_segments].
    by rewrite Hfile.
Qed.

Lemma file_merge_last_write_wins_witness :
  let ops := [("a/b", "old"); ("a//b/", "new"); ("a/c", "z")] in
  Forall (fun op => ordinary op.1) ops
  ∧ target "a//b/" = target "a/b"
  ∧ Forall (fun op => ¬ nested (target op.1) (target "a/b")) [("a/c", "z")]
  ∧ retrieve "a/b" (file_merge [] ops) = ["new"].
Proof.
  assert (Forall (fun op => ordinary op.1)
            [("a/b", "old"); ("a//b/", "new"); ("a/c", "z")]) as H1.
  { apply (bool_decide_unpack _). vm_compute. exact I. }
  assert (Forall (fun op => ¬ nested (target op.1) (target "a/b")) [("a/c", "z")]) as H2.
  { apply (bool_decide_unpack _). vm_compute. exact I. }
  split_and!; [exact H1|reflexivity|exact H2|].
  apply (file_merge_last_write_wins [("a/b", "old")] [("a/c", "z")] "a//b/" "a/b" "new"
           H1 eq_refl H2).
Defined.

(** C9.  From the empty tree, inserting a file at [a/b/c.txt] and
    flattening the tree to text yields exactly one entry, of path
    [a/b/c.txt] and of the inserted content. *)
Theorem insert_then_flatten (content : string) :
  traverse (addFileToSystem [] "a/b/c.txt" content) "" = [("a/b/c.txt", content)]
  ∧ getFileSystemAsText (addFileToSystem [] "a/b/c.txt" content)
    = ["--- File: a/b/c.txt ---" +:+ nl +:+ "```" +:+ nl +:+ content +:+ nl +:+ "```"].
Proof. split; reflexivity. Qed.

(** C10.  For a path with no non-empty segment (the empty string, or only
    slashes) [addFileToSystem] returns a tree: it assigns the file to the
    property ["undefined"] of the root, whatever the content. *)
Theorem empty_path_lands_on_undefined (fs : FileSystem) (path content : string) :
  only_slashes path = true →
  path_parts path = []
  ∧ addFileToSystem fs path content = obj_set "undefined" (File content) fs
  ∧ obj_get "undefined" (addFileToSystem fs path content) = Some (File content).
Proof.
  intros Hpath. apply only_slashes_parts in Hpath.
  unfold addFileToSystem. rewrite Hpath. simpl.
  split_and!; [done|done|apply obj_get_set_eq].
Qed.

Lemma empty_path_lands_on_undefined_witness :
  addFileToSystem [("index.html", File "<p>hi</p>")] "//" "lost"
  = [("index.html", File "<p>hi</p>"); ("undefined", File "lost")].
Proof.
  apply (empty_path_lands_on_undefined [("index.html", File "<p>hi</p>")] "//" "lost").
  reflexivity.
Defined.

(** * Reasoning about handler runs *)

Lemma fetched_pages_app evs1 evs2 :
  fetched_pages (evs1 ++ evs2) = fetched_pages evs1 ++ fetched_pages evs2.
Proof. unfold fetched_pages. apply omap_app. Qed.

#[global] Instance within_preorder allowed : PreOrder (within allowed).
Proof.
  split.
  - intros w. unfold within. split_and!; [done|done|].
    exists []. split; [by rewrite (right_id_L [] app)|]. apply list_subseteq_nil.
  - intros w1 w2 w3 (Hv1 & Hf1 & evs1 & He1 & Hp1) (Hv2 & Hf2 & evs2 & He2 & Hp2).
    unfold within. split_and!; [by etrans|congruence|].
    exists (evs1 ++ evs2). split.
    + by rewrite He2, He1, (assoc_L app).
    + rewrite fetched_pages_app. by apply list_subseteq_app_iff_l.
Qed.

Section Respects.
Context (R : relation (State * list Event)) `{!PreOrder R}.

Lemma respects_ret {A} (a : A) : respects R (ret a).
Proof. intros w. reflexivity. Qed.

Lemma respects_throw {A} e : respects R (throw (A := A) e).
Proof. intros w. reflexivity. Qed.

Lemma respects_await {A} (r : Result A) : respects R (await r).
Proof. intros w. reflexivity. Qed.

Lemma respects_bind {A B} (m : Proc A) (k : A → Proc B) :
  respects R m → (∀ a, respects R (k a)) → respects R (bind m k).
Proof.
  intros Hm Hk w. unfold bind. specialize (Hm w).
  destruct (m w) as [[a|e] w']; simpl in *; [|done].
  etrans; [done|]. apply Hk.
Qed.

Lemma respects_try_catch {A} (body : Proc A) (handler : Thrown → Proc A) :
  respects R body → (∀ e, respects R (handler e)) → respects R (try_catch body handler).
Proof.
  intros Hm Hk w. unfold try_catch. specialize (Hm w).
  destruct (body w) as [[a|e] w']; simpl in *; [done|].
  etrans; [done|]. apply Hk.
Qed.

Lemma respects_update f :
  (∀ s evs, R (s, evs) (f s, evs)) → respects R (update f).
Proof. intros Hf [s evs]. apply Hf. Qed.

Lemma respects_emit ev :
  (∀ s evs, R (s, evs) (s, evs ++ [ev])) → respects R (emit ev).
Proof. intros Hf [s evs]. apply Hf. Qed.

Lemma respects_for_each {A} (l : list A) (body : A → Proc unit) :
  (∀ x, respects R (body x)) → respects R (for_each l body).
Proof.
  intros Hbody. induction l as [|x l IH]; simpl.
  - apply respects_ret.
  - apply respects_bind; [apply Hbody|]. intros _. apply IH.
Qed.

Lemma respects_fun {A} (m : Proc A) :
  (∀ w, R w (m w).2) → respects R m.
Proof. done. Qed.
End Respects.

(** A state update that touches neither the visited set nor the count of
    repairs, or that only adds to the visited set. *)
Ltac within_leaf :=
  intros; unfold within; cbn [fst snd visitedUrls fixAttempts
    setCloningState setAgentLogs setFileSystem setActiveFile
    setMainHtmlContent setIsScreenshotModalOpen setUrlToClone setAuthUrl
    setCloningQueue setVisitedUrls setConsoleErrors];
  split_and!;
  [ first [reflexivity | apply union_subseteq_l]
  | reflexivity
  | first [ exists []; split; [by rewrite (right_id_L [] app)|apply list_subseteq_nil]
          | eexists; split;
            [reflexivity
            |cbn [fetched_pages omap list_omap];
             first [apply list_subseteq_nil | reflexivity]] ] ].

(** One step through the structure of a run; [leaf] proves that a state
    update or a call keeps the relation. *)
Ltac respects_step_with leaf :=
  first
    [ apply respects_ret; apply _
    | apply respects_throw; apply _
    | apply respects_await; apply _
    | apply respects_update; [leaf]
    | apply respects_emit; [leaf]
    | apply respects_bind; [apply _| |intros ?]
    | apply respects_try_catch; [apply _| |intros ?]
    | apply respects_for_each; [apply _|intros ?]
    | progress (unfold addLog)
    | match goal with
      | |- respects _ (match ?x with _ => _ end) => destruct x
      | |- respects _ (let _ := _ in _) => cbv zeta
      end ].

Ltac respects_step := respects_step_with within_leaf.

Ltac respects_tac := repeat respects_step.

(** Unfold the monad of a run down to pairs. *)
Ltac proc_unfold :=
  cbv beta iota zeta delta
    [try_catch bind ret throw await update emit addLog exec fst snd
     Batch.stop Batch.nextUrl Batch.newFileSystem].

(** The calls listed on the left of the arrow hold no call of the model
    for a clone. *)
Ltac no_model_call :=
  let Hin := fresh "Hin" in
  cbn; intros Hin;
  repeat
    (first
       [ apply elem_of_app in Hin as [Hin|Hin]
       | apply elem_of_cons in Hin as [Hin|Hin]
       | by apply elem_of_nil in Hin
       | discriminate Hin
       | match goal with
         | Hevs : Forall (fun e => is_model_call e = false) ?evs, H : _ ∈ ?evs |- _ =>
             rewrite Forall_forall in Hevs; specialize (Hevs _ H); discriminate Hevs
         end ]).

(** Running a bind whose first part is known. *)
Lemma bind_update {B} f (k : unit → Proc B) w :
  bind (update f) k w = k () (f w.1, w.2).
Proof. reflexivity. Qed.

Lemma try_catch_update {B} f (k : unit → Proc B) h w :
  try_catch (bind (update f) k) h w = try_catch (k ()) h (f w.1, w.2).
Proof. reflexivity. Qed.

Lemma try_catch_emit {B} e (k : unit → Proc B) h w :
  try_catch (bind (emit e) k) h w = try_catch (k ()) h (w.1, w.2 ++ [e]).
Proof. reflexivity. Qed.

Lemma bind_Ok {A B} (m : Proc A) (k : A → Proc B) w a w1 :
  m w = (Ok a, w1) → bind m k w = k a w1.
Proof. intros Hm. unfold bind. by rewrite Hm. Qed.

Lemma bind_Throws {A B} (m : Proc A) (k : A → Proc B) w e w1 :
  m w = (Throws e, w1) → bind m k w = (Throws e, w1).
Proof. intros Hm. unfold bind. by rewrite Hm. Qed.

(** * The streaming orchestrator: what its runs keep *)

Section StreamingRuns.
Context (host : Host) (allowed : list string).
Import Streaming.

Lemma respects_apply_files log_prefix files fs hu :
  respects (within allowed) (apply_files log_prefix files fs hu).
Proof.
  revert fs hu. induction files as [|[path content] files IH]; intros fs hu;
    cbn [apply_files].
  - respects_tac.
  - respects_tac; apply IH.
Qed.

Lemma respects_handleQualityCheck fs answer :
  respects (within allowed) (handleQualityCheck fs answer).
Proof.
  unfold handleQualityCheck. respects_tac; apply respects_apply_files.
Qed.

(** The part of [handleAutoFix] after the three state updates. *)
Lemma respects_handleAutoFix_request fs errors answer :
  respects (within allowed)
    (bind (update (setConsoleErrors (fun _ => [])))
       (fun _ => bind (addLog ("Analyzing " +:+ pretty (length errors) +:+
                               " console error(s)...") LogType.DEBUG)
       (fun _ => try_catch
          (emit (EvModelFix errors) ;;;
           result <- await answer ;;
           addLog ("AI Analysis: " +:+ analysis result) LogType.SYSTEM ;;;
           match filesToUpdate result with
           | [] =>
               addLog "AI analyzed the error but did not provide a file to fix. Stopping auto-fix." LogType.WARN ;;;
               update (setCloningState (fun _ => CloningState.ERROR))
           | files =>
               r <- apply_files "AI is applying fix to: " files fs false ;;
               update (setFileSystem (fun _ => r.1)) ;;;
               (when negb r.2 then update (setMainHtmlContent nudge_preview)) ;;;
               addLog "AI proposed a fix. Applied changes and reloading preview." LogType.SUCCESS ;;;
               update (setCloningState (fun _ => CloningState.COMPLETED))
           end)
          (fun error =>
             addLog ("Failed to apply fix: " +:+
                     errorMessage error "An unknown error occurred during auto-fix.")
                    LogType.ERROR ;;;
             update (setCloningState (fun _ => CloningState.ERROR)))))).
Proof. respects_tac; apply respects_apply_files. Qed.

(** A repair adds one to the count of repairs, keeps the visited set and
    fetches no page. *)
Lemma handleAutoFix_run fs errors answer w :
  let w' := (handleAutoFix fs errors answer w).2 in
  visitedUrls w.1 ⊆ visitedUrls w'.1
  ∧ fixAttempts w'.1 = S (fixAttempts w.1)
  ∧ ∃ evs, w'.2 = w.2 ++ evs ∧ fetched_pages evs ⊆ allowed.
Proof.
  destruct w as [s evs0].
  pose proof (respects_handleAutoFix_request fs errors answer
                (setFixAttempts (fun prev => prev + 1)
                   (setCloningState (fun _ => CloningState.FIXING) s), evs0)) as H.
  unfold within in H. cbn [fst snd visitedUrls fixAttempts setFixAttempts setCloningState] in H.
  destruct H as (Hv & Hf & Hevs).
  cbv zeta. split_and!; [exact Hv| |exact Hevs].
  etrans; [exact Hf|]. apply Nat.add_1_r.
Qed.

End StreamingRuns.


(** The handlers of the stream keep every relation that the updates they
    make keep: the log, the file tree, the preview, [authUrl], the state,
    and a job appended to the queue. *)
Section HandlerRuns.
Context (host : Host) (R : relation (State * list Event)) `{!PreOrder R}.
Hypothesis R_log : ∀ f s evs, R (s, evs) (setAgentLogs f s, evs).
Hypothesis R_tree : ∀ f s evs, R (s, evs) (setFileSystem f s, evs).
Hypothesis R_preview : ∀ f s evs, R (s, evs) (setMainHtmlContent f s, evs).
Hypothesis R_authUrl : ∀ f s evs, R (s, evs) (setAuthUrl f s, evs).
Hypothesis R_state : ∀ f s evs, R (s, evs) (setCloningState f s, evs).
Hypothesis R_enqueue :
  ∀ j s evs, R (s, evs) (setCloningQueue (fun prev => prev ++ [j]) s, evs).
Import Streaming.

Ltac handler_step := respects_step_with ltac:(auto).

Lemma respects_handleStreamedAction visited main action currentUrl :
  respects R (handleStreamedAction host visited main action currentUrl).
Proof.
  destruct action; cbn [handleStreamedAction]; repeat handler_step.
  apply respects_fun. intros w. cbv zeta.
  destruct (_ && _); [|reflexivity].
  match goal with
  | |- R w (?m w).2 =>
      assert (respects R m) as Hm by (repeat handler_step); apply Hm
  end.
Qed.

Lemma respects_handle_line visited main currentUrl raw :
  respects R (handle_line host visited main currentUrl raw).
Proof.
  unfold handle_line. repeat handler_step. apply respects_handleStreamedAction.
Qed.

Lemma respects_drain visited main currentUrl text : ∀ acc,
  respects R (drain host visited main currentUrl acc text).
Proof.
  induction text as [|c text IH]; intros acc; cbn [drain].
  - repeat handler_step.
  - destruct (Ascii.eqb c "010"); [|apply IH].
    apply respects_bind; [apply _|apply respects_handle_line|].
    intros [|]; [repeat handler_step|apply IH].
Qed.

Lemma respects_read_chunks visited main currentUrl chunks ending : ∀ buffer stop,
  respects R (read_chunks host visited main currentUrl buffer stop chunks ending).
Proof.
  induction chunks as [|chunk chunks IH]; intros buffer stop; cbn [read_chunks].
  - repeat handler_step.
  - destruct stop; [repeat handler_step|].
    apply respects_bind; [apply _|apply respects_drain|]. intros r. apply IH.
Qed.

Lemma respects_resolve_assets paths base :
  respects R (resolve_assets host paths base).
Proof.
  induction paths as [|p paths IH]; cbn [resolve_assets]; repeat handler_step.
  apply IH.
Qed.
End HandlerRuns.

Section StreamingOps.
Context (host : Host).
Import Streaming.

(** One run of [processQueue]: the visited set only grows, the count of
    repairs stays, and the only page it may fetch is one that was not
    visited. *)
Lemma processQueue_run s w :
  let r := processQueue host s w in
  visitedUrls s ⊆ visitedUrls r.1
  ∧ fixAttempts r.1 = fixAttempts s
  ∧ ∀ u, u ∈ fetched_pages r.2 → u ∉ visitedUrls s.
Proof.
  unfold processQueue.
  destruct (negb _); [by split_and!; [done|done|intros u Hu; apply elem_of_nil in Hu]|].
  destruct (cloningQueue s) as [|job rest];
    [by split_and!; [done|done|intros u Hu; apply elem_of_nil in Hu]|].
  case_bool_decide as Hvis;
    [by split_and!; [done|done|intros u Hu; apply elem_of_nil in Hu]|].
  unfold exec.
  match goal with
  | |- context [?m (s, [])] =>
      assert (respects (within [url job]) m) as Hm
  end.
  { respects_tac;
      first [ apply respects_resolve_assets | apply respects_read_chunks
            | apply respects_handleStreamedAction ];
      first [ apply _ | within_leaf ]. }
  destruct (Hm (s, [])) as (Hv & Hf & evs & Hevs & Hpages).
  cbv zeta. split_and!; [exact Hv|exact Hf|].
  intros u Hu. rewrite Hevs in Hu. simpl in Hu.
  apply Hpages, list_elem_of_singleton in Hu as ->. exact Hvis.
Qed.

Lemma handleInitiateCloning_fixAttempts rawUrl useScreenshot windowOpens s :
  fixAttempts s ≤ MAX_FIX_ATTEMPTS →
  fixAttempts (handleInitiateCloning host rawUrl useScreenshot windowOpens s).1
  ≤ MAX_FIX_ATTEMPTS.
Proof.
  intros Hs. unfold handleInitiateCloning.
  destruct (_ || _); [done|].
  destruct useScreenshot, windowOpens; cbn; unfold MAX_FIX_ATTEMPTS; lia.
Qed.

Lemma autoFixTrigger_run s answer :
  let r := autoFixTrigger s answer in
  visitedUrls s ⊆ visitedUrls r.1
  ∧ fetched_pages r.2 = []
  ∧ (fixAttempts s ≤ MAX_FIX_ATTEMPTS → fixAttempts r.1 ≤ MAX_FIX_ATTEMPTS).
Proof.
  unfold autoFixTrigger.
  destruct (_ && _ && (fixAttempts s <? MAX_FIX_ATTEMPTS)) eqn:Hfix.
  - apply andb_true_iff in Hfix as [_ Hlt%Nat.ltb_lt].
    unfold exec. cbv zeta.
    match goal with
    | |- context [bind (addLog ?msg ?ty) ?k (s, [])] =>
        change (bind (addLog msg ty) k (s, []))
          with (handleAutoFix (fileSystem s) (consoleErrors s) answer
                  (setAgentLogs (fun prev => prev ++ [mkLog msg ty]) s, []))
    end.
    match goal with
    | |- context [handleAutoFix ?fs ?errs ?a ?w] =>
        destruct (handleAutoFix_run [] fs errs a w) as (Hv & Hf & evs & Hevs & Hp)
    end.
    cbn [fst snd visitedUrls fixAttempts setAgentLogs] in Hv, Hf, Hevs.
    split_and!; [exact Hv| |lia].
    rewrite Hevs. simpl. destruct (fetched_pages evs) as [|u l]; [done|].
    exfalso. eapply elem_of_nil, Hp. left.
  - destruct (_ && _ && negb _); cbn; split_and!; done.
Qed.

Lemma qualityCheck_run s answer :
  let r := qualityCheck s answer in
  visitedUrls s ⊆ visitedUrls r.1
  ∧ fixAttempts r.1 = fixAttempts s
  ∧ fetched_pages r.2 = [].
Proof.
  unfold qualityCheck. destruct (CloningState.eqb _ _); [|by split_and!].
  unfold exec.
  destruct (respects_handleQualityCheck [] (fileSystem s) answer (s, []))
    as (Hv & Hf & evs & Hevs & Hp).
  cbv zeta. split_and!; [exact Hv|exact Hf|].
  rewrite Hevs. simpl. destruct (fetched_pages evs) as [|u l]; [done|].
  exfalso. eapply elem_of_nil, Hp. left.
Qed.

(** One operation of a session: the visited set only grows and every
    page fetched was not visited before. *)
Lemma apply_op_session op s :
  same_session op = true →
  let r := apply_op host op s in
  visitedUrls s ⊆ visitedUrls r.1
  ∧ ∀ u, u ∈ fetched_pages r.2 → u ∉ visitedUrls s.
Proof.
  intros Hop. destruct op; try discriminate Hop; cbn [apply_op].
  - destruct (isScreenshotModalOpen s); split; (done || by intros u Hu%elem_of_nil).
  - destruct (isScreenshotModalOpen s); split; (done || by intros u Hu%elem_of_nil).
  - destruct (CloningState.eqb _ _); [|split; (done || by intros u Hu%elem_of_nil)].
    unfold handleResumeCloning.
    destruct (negb _); split; (done || by intros u Hu%elem_of_nil).
  - destruct (CloningState.eqb _ _); split; (done || by intros u Hu%elem_of_nil).
  - split; (done || by intros u Hu%elem_of_nil).
  - destruct (processQueue_run s w) as (Hv & _ & Hp). by split.
  - unfold qualityGate. destruct (_ && _ && _); split; (done || by intros u Hu%elem_of_nil).
  - destruct (qualityCheck_run s answer) as (Hv & _ & Hp). split; [done|].
    rewrite Hp. by intros u Hu%elem_of_nil.
  - split; (done || by intros u Hu%elem_of_nil).
  - destruct (autoFixTrigger_run s answer) as (Hv & Hp & _). split; [done|].
    rewrite Hp. by intros u Hu%elem_of_nil.
  - split; (done || by intros u Hu%elem_of_nil).
Qed.

(** One operation keeps the count of repairs within its ceiling. *)
Lemma apply_op_fixAttempts op s :
  fixAttempts s ≤ MAX_FIX_ATTEMPTS →
  fixAttempts (apply_op host op s).1 ≤ MAX_FIX_ATTEMPTS.
Proof.
  intros Hs. destruct op; cbn [apply_op].
  - by apply handleInitiateCloning_fixAttempts.
  - by destruct (isScreenshotModalOpen s).
  - by destruct (isScreenshotModalOpen s).
  - destruct (CloningState.eqb _ _); [|done].
    unfold handleResumeCloning. by destruct (negb _).
  - by destruct (CloningState.eqb _ _).
  - done.
  - destruct (processQueue_run s w) as (_ & Hf & _). by rewrite Hf.
  - unfold qualityGate. by destruct (_ && _ && _).
  - destruct (qualityCheck_run s answer) as (_ & Hf & _). by rewrite Hf.
  - done.
  - destruct (autoFixTrigger_run s answer) as (_ & _ & Hf). by apply Hf.
  - done.
Qed.

Lemma run_fixAttempts ops : ∀ s,
  fixAttempts s ≤ MAX_FIX_ATTEMPTS →
  fixAttempts (run host ops s).1 ≤ MAX_FIX_ATTEMPTS.
Proof.
  induction ops as [|op ops IH]; intros s Hs; [done|].
  cbn [run fst]. apply IH. by apply apply_op_fixAttempts.
Qed.

Lemma run_session ops : ∀ s u,
  forallb same_session ops = true →
  u ∈ visitedUrls s →
  u ∉ fetched_pages (run host ops s).2.
Proof.
  induction ops as [|op ops IH]; intros s u Hops Hu.
  - apply not_elem_of_nil.
  - cbn [forallb] in Hops. apply andb_true_iff in Hops as [Hop Hops].
    destruct (apply_op_session op s Hop) as [Hv Hp].
    cbn [run snd]. rewrite fetched_pages_app, elem_of_app.
    intros [Hin|Hin].
    + by apply (Hp u).
    + apply (IH (apply_op host op s).1 u); [done| |done]. by apply Hv.
Qed.
End StreamingOps.

(** * The batch orchestrator *)

Section BatchRuns.
Context (host : Host).
Import Batch.

(** Resolving the asset URLs touches neither the state nor the calls. *)
Lemma resolve_assets_pure paths base w0 :
  (resolve_assets host paths base w0).2 = w0.
Proof.
  induction paths as [|p paths IH]; [done|].
  cbn [resolve_assets]. unfold bind at 1, await.
  destruct (URL_href host p base) as [u|e]; [|done].
  unfold bind at 1. destruct (resolve_assets host paths base w0) as [[us|e] w1].
  - simpl in IH. by subst.
  - simpl in IH. by subst.
Qed.

(** Fetching the assets returns, changes only the log, and calls only
    the proxy. *)
Lemma fetch_assets_run w urls : ∀ w0,
  ∃ s1 evs,
    for_each urls (fetch_asset w) w0 = (Ok (), (s1, w0.2 ++ evs))
    ∧ fileSystem s1 = fileSystem w0.1
    ∧ cloningState s1 = cloningState w0.1
    ∧ authUrl s1 = authUrl w0.1
    ∧ Forall (fun e => is_model_call e = false) evs.
Proof.
  induction urls as [|u urls IH]; intros [s0 evs0].
  - exists s0, []. rewrite (right_id_L [] app). by split_and!.
  - cbn [for_each]. unfold bind at 1.
    assert (∃ s', fetch_asset w u (s0, evs0) = (Ok (), (s', evs0 ++ [EvFetchAsset u]))
                  ∧ fileSystem s' = fileSystem s0
                  ∧ cloningState s' = cloningState s0
                  ∧ authUrl s' = authUrl s0) as (s' & -> & Hfs & Hst & Hau).
    { unfold fetch_asset.
      destruct (asset w u) as [e|status [text|e]]; [| |];
        try destruct (response_ok status); cbn; eexists; by split_and!. }
    destruct (IH (s', evs0 ++ [EvFetchAsset u])) as (s1 & evs & -> & Hfs1 & Hst1 & Hau1 & Hevs).
    exists s1, (EvFetchAsset u :: evs). cbn [fst snd] in *.
    split_and!; [by rewrite <- (assoc_L app)|congruence|congruence|congruence|].
    by constructor.
Qed.
End BatchRuns.

(** * Reading the stream line by line *)

Section StreamLines.
Context (host : Host).
Import Streaming.

(** The loop on a text in two parts: if it stops in the first part, the
    second part is left in the buffer, unread. *)
Lemma drain_app visited main currentUrl text1 text2 : ∀ acc w,
  drain host visited main currentUrl acc (text1 +:+ text2) w
  = match drain host visited main currentUrl acc text1 w with
    | (Ok (buffer, false), w1) => drain host visited main currentUrl buffer text2 w1
    | (Ok (buffer, true), w1) => (Ok (buffer +:+ text2, true), w1)
    | (Throws e, w1) => (Throws e, w1)
    end.
Proof.
  induction text1 as [|c text1 IH]; intros acc w; [done|].
  rewrite str_app_cons. cbn [drain].
  destruct (Ascii.eqb c "010"); [|apply IH].
  unfold bind.
  destruct (handle_line host visited main currentUrl acc w) as [[[|]|e] w1];
    [done|apply IH|done].
Qed.

(** A line without line break is gathered in the accumulator. *)
Lemma drain_line visited main currentUrl line text : ∀ acc w,
  has_newline line = false →
  drain host visited main currentUrl acc (line +:+ nl +:+ text) w
  = bind (handle_line host visited main currentUrl (acc +:+ line))
      (fun stop : bool =>
         if stop then ret (text, true)
         else drain host visited main currentUrl "" text) w.
Proof.
  induction line as [|c line IH]; intros acc w Hline.
  - rewrite str_app_nil_r. reflexivity.
  - cbn [has_newline] in Hline. apply orb_false_iff in Hline as [Hc Hline].
    rewrite str_app_cons. cbn [drain]. rewrite Hc.
    rewrite IH by done. by rewrite str_app_assoc.
Qed.

(** The in-loop path of C5: when a line of the stream is an [authWall]
    record, the loop handles it and stops; the text after the line break
    is handed back unread, so none of its records is applied. *)
Lemma drain_stops_at_auth_wall visited main currentUrl line text msg w :
  has_newline line = false →
  truthy (trim host line) = true →
  JSON_parse host (trim host line) = Some (authWall msg) →
  drain host visited main currentUrl "" (line +:+ nl +:+ text) w
  = (Ok (text, true),
     (handleStreamedAction host visited main (authWall msg) currentUrl w).2).
Proof.
  intros Hline Htrim Hparse. rewrite drain_line by done.
  change ("" +:+ line) with line.
  unfold bind at 1, handle_line. rewrite Htrim, Hparse.
  by destruct w.
Qed.

(** Handling an [authWall] record leaves the file tree and the queue as
    they are. *)
Lemma auth_wall_frame visited main currentUrl msg w :
  let w' := (handleStreamedAction host visited main (authWall msg) currentUrl w).2 in
  fileSystem w'.1 = fileSystem w.1
  ∧ cloningQueue w'.1 = cloningQueue w.1
  ∧ cloningState w'.1 = CloningState.AWAITING_USER_INPUT
  ∧ authUrl w'.1 = currentUrl.
Proof. by destruct w. Qed.

Lemma has_newline_app a b : has_newline (a +:+ b) = has_newline a || has_newline b.
Proof.
  induction a as [|c a IH]; [done|].
  rewrite str_app_cons. cbn [has_newline]. by rewrite IH, orb_assoc.
Qed.

(** Text without line break in front of the text to read is the same as
    text in the accumulator. *)
Lemma drain_acc visited main currentUrl front text : ∀ acc w,
  has_newline front = false →
  drain host visited main currentUrl acc (front +:+ text) w
  = drain host visited main currentUrl (acc +:+ front) text w.
Proof.
  induction front as [|c front IH]; intros acc w Hfront.
  - by rewrite str_app_nil_r.
  - cbn [has_newline] in Hfront. apply orb_false_iff in Hfront as [Hc Hfront].
    rewrite str_app_cons. cbn [drain]. rewrite Hc, IH by done.
    by rewrite str_app_assoc.
Qed.

(** The buffer left by the loop holds no line break. *)
Lemma drain_buffer visited main currentUrl text : ∀ acc w buffer w',
  has_newline acc = false →
  drain host visited main currentUrl acc text w = (Ok (buffer, false), w') →
  has_newline buffer = false.
Proof.
  induction text as [|c text IH]; intros acc w buffer w' Hacc; cbn [drain].
  - by intros [= <- _].
  - destruct (Ascii.eqb c "010") eqn:Hc.
    + unfold bind.
      destruct (handle_line host visited main currentUrl acc w) as [[[|]|e] w1];
        [done| |done].
      by apply IH.
    + apply IH. rewrite has_newline_app, Hacc. cbn. by rewrite Hc.
Qed.

(** After a text that ends with a line break the buffer is empty. *)
Lemma drain_after_line_break visited main currentUrl text : ∀ acc w buffer w',
  drain host visited main currentUrl acc (text +:+ nl) w = (Ok (buffer, false), w') →
  buffer = "".
Proof.
  induction text as [|c text IH]; intros acc w buffer w'.
  - change ("" +:+ nl) with nl. cbn [drain nl Ascii.eqb Bool.eqb]. unfold bind.
    destruct (handle_line host visited main currentUrl acc w) as [[[|]|e] w1];
      [done| |done].
    by intros [= <- _].
  - rewrite str_app_cons. cbn [drain].
    destruct (Ascii.eqb c "010"); [|apply IH].
    unfold bind.
    destruct (handle_line host visited main currentUrl acc w) as [[[|]|e] w1];
      [done| |done].
    apply IH.
Qed.

(** The chunks are read like their text in one piece: same state and calls
    at the end, same [stopProcessing]; only the throw that ends the
    iteration is the chunks' own. *)
Lemma read_chunks_text visited main currentUrl ending chunks : ∀ buffer w,
  has_newline buffer = false →
  let d := drain host visited main currentUrl "" (buffer +:+ stream_text chunks) w in
  let r := read_chunks host visited main currentUrl buffer false chunks ending w in
  r.2 = d.2
  ∧ match d.1 with
    | Ok (b, stop) => r.1 = Ok (b, stop) ∨ (∃ b', stop = true ∧ r.1 = Ok (b', true))
                      ∨ ∃ e, r.1 = Throws e
    | Throws e => r.1 = Throws e
    end.
Proof.
  induction chunks as [|chunk chunks IH]; intros buffer w Hbuf; cbv zeta.
  - cbn [stream_text foldr read_chunks].
    rewrite (drain_acc _ _ _ buffer "" "" w Hbuf). cbn [drain].
    change ("" +:+ buffer) with buffer.
    destruct ending as [e|]; cbn; (split; [done|]); [right; right; by eexists|by left].
  - cbn [stream_text foldr read_chunks]. fold (stream_text chunks).
    rewrite <- str_app_assoc, drain_app. unfold bind.
    destruct (drain host visited main currentUrl "" (buffer +:+ chunk) w)
      as [[[b [|]]|e] w1] eqn:Hd; cbn [fst snd].
    + destruct chunks as [|c2 chunks]; cbn [read_chunks].
      * destruct ending as [e|]; cbn; (split; [done|]);
          [right; right; by eexists|right; left; exists b; by split].
      * cbn. split; [done|]. right. left. exists b. by split.
    + assert (has_newline b = false) as Hb.
      { eapply drain_buffer; [|exact Hd]. done. }
      specialize (IH b w1 Hb). cbv zeta in IH.
      rewrite (drain_acc _ _ _ b (stream_text chunks) "" w1 Hb) in IH.
      exact IH.
    + done.
Qed.
End StreamLines.

#[global] Instance queue_grows_preorder : PreOrder queue_grows.
Proof.
  split.
  - intros w. unfold queue_grows. reflexivity.
  - intros w1 w2 w3 H12 H23. unfold queue_grows in *. by etrans.
Qed.

Section AuthWallInLoop.
Context (host : Host).
Import Streaming.

(** The lines of the stream only append to the queue. *)
Lemma read_chunks_queue visited main currentUrl chunks ending buffer stop :
  respects queue_grows
    (read_chunks host visited main currentUrl buffer stop chunks ending).
Proof.
  apply respects_read_chunks; [apply _|..]; intros; unfold queue_grows; cbn;
    first [reflexivity | by apply prefix_app_r].
Qed.

(** A text that holds an [authWall] line is read up to that line at most:
    the text after the line break of that line changes nothing. *)
Lemma drain_auth_wall_text visited main currentUrl pre line post msg w :
  (pre = "" ∨ ∃ pre', pre = pre' +:+ nl) →
  has_newline line = false →
  truthy (trim host line) = true →
  JSON_parse host (trim host line) = Some (authWall msg) →
  let d := drain host visited main currentUrl "" (pre +:+ line +:+ nl +:+ post) w in
  let d0 := drain host visited main currentUrl "" (pre +:+ line +:+ nl) w in
  d.2 = d0.2
  ∧ ((∃ b b0, d.1 = Ok (b, true) ∧ d0.1 = Ok (b0, true))
     ∨ ∃ e, d.1 = Throws e ∧ d0.1 = Throws e).
Proof.
  intros Hpre Hline Htrim Hparse. cbv zeta.
  rewrite (drain_app host visited main currentUrl pre (line +:+ nl +:+ post)).
  rewrite (drain_app host visited main currentUrl pre (line +:+ nl)).
  destruct (drain host visited main currentUrl "" pre w) as [[[b [|]]|e] w1] eqn:Hd;
    cbn [fst snd].
  - split; [done|]. left. by eexists _, _.
  - assert (b = "") as ->.
    { destruct Hpre as [->|[pre' ->]].
      - cbn in Hd. by injection Hd as <- _.
      - by eapply drain_after_line_break. }
    rewrite (drain_stops_at_auth_wall host visited main currentUrl line post msg w1)
      by done.
    replace (line +:+ nl) with (line +:+ nl +:+ "") by (by rewrite str_app_nil_r).
    rewrite (drain_stops_at_auth_wall host visited main currentUrl line "" msg w1)
      by done.
    split; [done|]. left. by eexists _, _.
  - split; [done|]. right. by eexists.
Qed.

(** Resolving the asset URLs touches neither the state nor the calls. *)
Lemma resolve_assets_world paths base w0 :
  (resolve_assets host paths base w0).2 = w0.
Proof.
  induction paths as [|p paths IH]; [done|].
  cbn [resolve_assets]. unfold bind at 1, await.
  destruct (URL_href host p base) as [u|e]; [|done].
  unfold bind at 1. destruct (resolve_assets host paths base w0) as [[us|e] w1].
  - simpl in IH. by subst.
  - simpl in IH. by subst.
Qed.

(** Requesting the assets only adds calls. *)
Lemma for_each_emit {A} (l : list A) (g : A → Proc unit) (f : A → Event) :
  (∀ x w, g x w = (Ok (), (w.1, w.2 ++ [f x]))) →
  ∀ w, for_each l g w = (Ok (), (w.1, w.2 ++ (f <$> l))).
Proof.
  intros Hg. induction l as [|x l IH]; intros [s evs]; cbn [for_each fst snd].
  - rewrite fmap_nil, (right_id_L [] app). done.
  - unfold bind at 1. rewrite Hg, IH, fmap_cons. cbn [fst snd].
    by rewrite <- (assoc_L app).
Qed.
End AuthWallInLoop.

(** * The page bound in the batch orchestrator *)

#[global] Instance visited_in_preorder P : PreOrder (visited_in P).
Proof.
  split.
  - by intros w H.
  - intros w1 w2 w3 H12 H23 H. by apply H23, H12.
Qed.

Ltac visited_leaf :=
  intros; unfold visited_in;
  cbn [fst snd visitedUrls
    setCloningState setAgentLogs setFileSystem setActiveFile
    setMainHtmlContent setIsScreenshotModalOpen setUrlToClone setAuthUrl
    setCloningQueue setVisitedUrls setConsoleErrors setFixAttempts];
  auto.

Ltac visited_step := respects_step_with visited_leaf.

Section BatchBound.
Context (host : Host) (P : gset string → Prop).
Import Batch.

Lemma visited_in_resolve_assets paths base :
  respects (visited_in P) (resolve_assets host paths base).
Proof.
  induction paths as [|p paths IH]; cbn [resolve_assets]; repeat visited_step.
  apply IH.
Qed.

Lemma visited_in_fetch_asset w assetUrl :
  respects (visited_in P) (fetch_asset w assetUrl).
Proof. unfold fetch_asset. repeat visited_step. Qed.

Lemma visited_in_merge_files main files : ∀ fs,
  respects (visited_in P) (merge_files main files fs).
Proof.
  induction files as [|[path content] files IH]; intros fs; cbn [merge_files];
    repeat visited_step; apply IH.
Qed.

(** [clonePage] adds at most the URL of the job to the visited set. *)
Lemma visited_in_clonePage visited main w job fs :
  (∀ V, P V → P (V ∪ {[ url job ]})) →
  respects (visited_in P) (clonePage host visited main w job fs).
Proof.
  intros Hgrow. unfold clonePage.
  repeat visited_step;
    first [ apply visited_in_resolve_assets | apply visited_in_fetch_asset
          | apply visited_in_merge_files ].
Qed.

(** A job that is visited or that comes when the bound is reached is
    rejected: [clonePage] leaves the visited set as it is. *)
Lemma visited_in_clonePage_rejected visited main w job fs :
  bool_decide (url job ∈ visited) || (MAX_PAGES <=? size visited) = true →
  respects (visited_in P) (clonePage host visited main w job fs).
Proof. intros Hguard. unfold clonePage. rewrite Hguard. repeat visited_step. Qed.
End BatchBound.

(** The batch orchestrator keeps the bound of C1: a run of its
    [processQueue] never takes the visited set beyond 5 URLs. *)
Lemma batch_visited_bounded (host : Host) s w :
  size (visitedUrls s) ≤ Batch.MAX_PAGES →
  size (visitedUrls (Batch.processQueue host s w).1) ≤ Batch.MAX_PAGES.
Proof.
  intros Hs. unfold Batch.processQueue.
  destruct (CloningState.eqb _ _); [|done].
  destruct (cloningQueue s) as [|job shifted]; [done|].
  case_bool_decide as Hvis; [done|].
  unfold exec.
  destruct (bool_decide (url job ∈ visitedUrls s)
            || (Batch.MAX_PAGES <=? size (visitedUrls s))) eqn:Hguard.
  - match goal with
    | |- context [?m (s, [])] =>
        assert (respects (visited_in (fun V => V = visitedUrls s)) m) as Hm
    end.
    { repeat visited_step. by apply visited_in_clonePage_rejected. }
    rewrite (Hm (s, []) eq_refl). exact Hs.
  - apply orb_false_iff in Hguard as [_ Hsize%Nat.leb_gt].
    match goal with
    | |- context [?m (s, [])] =>
        assert (respects
                  (visited_in (fun V => V = visitedUrls s
                                        ∨ V = visitedUrls s ∪ {[ url job ]})) m) as Hm
    end.
    { repeat visited_step. apply visited_in_clonePage.
      intros V [->| ->]; right; [done|].
      by rewrite <- (assoc_L (∪)), (idemp_L (∪)). }
    destruct (Hm (s, [])) as [-> | ->]; [by left|exact Hs|].
    rewrite size_union by (by apply disjoint_singleton_r).
    rewrite size_singleton. lia.
Qed.

(** * The claims on the streaming orchestrator *)

Lemma prefix_app_refl b c : String.prefix b (b +:+ c) = true.
Proof.
  induction b as [|x b IH]; [by destruct c|].
  rewrite str_app_cons. simpl. rewrite IH. by destruct (ascii_dec x x).
Qed.

Lemma includes_prefix s t : String.prefix t s = true → includes s t = true.
Proof. intros H. destruct s; cbn [includes]; by rewrite H. Qed.

Lemma includes_middle a b c : includes (a +:+ b +:+ c) b = true.
Proof.
  induction a as [|x a IH].
  - apply includes_prefix. exact (prefix_app_refl b c).
  - rewrite str_app_cons. cbn [includes]. rewrite IH. apply orb_true_r.
Qed.

(** C1, at a concrete run: six pages, each an authentication wall after
    which the user resumes at a new URL, leave six URLs in the visited
    set; no job was rejected, all six pages were fetched, and the log
    counts the sixth page of five. *)
Lemma visited_bound_exceeded :
  let r := Streaming.run example_host six_auth_walls initialState in
  size (visitedUrls r.1) = 6
  ∧ fetched_pages r.2
    = ["https://a.test/1"; "https://a.test/2"; "https://a.test/3";
       "https://a.test/4"; "https://a.test/5"; "https://a.test/6"]
  ∧ mkLog "Cloning page (6/5): https://a.test/6" LogType.SYSTEM ∈ agentLogs r.1.
Proof.
  cbv zeta. split_and!; [by vm_compute|by vm_compute|].
  apply (bool_decide_unpack _). vm_compute. exact I.
Qed.

(** C2.  In every session the count of repairs stays within the ceiling
    of 3; and when errors are pending, the count has reached the ceiling
    and no repair is in progress, the trigger moves the state to [ERROR]
    and calls nothing, the model included. *)
Theorem fix_attempts_bounded (host : Host) :
  (∀ ops, fixAttempts (Streaming.run host ops initialState).1
          ≤ Streaming.MAX_FIX_ATTEMPTS)
  ∧ (∀ s answer,
       consoleErrors s ≠ [] →
       Streaming.MAX_FIX_ATTEMPTS ≤ fixAttempts s →
       cloningState s ≠ CloningState.FIXING →
       let r := Streaming.autoFixTrigger s answer in
       cloningState r.1 = CloningState.ERROR
       ∧ fixAttempts r.1 = fixAttempts s
       ∧ r.2 = []).
Proof.
  split.
  - intros ops. apply run_fixAttempts. unfold Streaming.MAX_FIX_ATTEMPTS. simpl. lia.
  - intros s answer Herr Hfix Hst. unfold Streaming.autoFixTrigger.
    assert ((fixAttempts s <? Streaming.MAX_FIX_ATTEMPTS) = false) as ->
      by (by apply Nat.ltb_ge).
    rewrite andb_false_r.
    assert ((Streaming.MAX_FIX_ATTEMPTS <=? fixAttempts s) = true) as ->
      by (by apply Nat.leb_le).
    rewrite bool_decide_eq_false_2 by done.
    assert (CloningState.eqb (cloningState s) CloningState.FIXING = false) as ->.
    { by destruct (cloningState s). }
    cbn. done.
Qed.

Lemma fix_attempts_bounded_witness :
  consoleErrors exhausted ≠ []
  ∧ Streaming.MAX_FIX_ATTEMPTS ≤ fixAttempts exhausted
  ∧ cloningState exhausted ≠ CloningState.FIXING
  ∧ cloningState (Streaming.autoFixTrigger exhausted (Throws OtherValue)).1
    = CloningState.ERROR
  ∧ (Streaming.autoFixTrigger exhausted (Throws OtherValue)).2 = [].
Proof.
  assert (consoleErrors exhausted ≠ []) as H1 by done.
  assert (Streaming.MAX_FIX_ATTEMPTS ≤ fixAttempts exhausted) as H2 by (vm_compute; lia).
  assert (cloningState exhausted ≠ CloningState.FIXING) as H3 by done.
  destruct (proj2 (fix_attempts_bounded example_host) exhausted (Throws OtherValue) H1 H2 H3)
    as (Hs & _ & Hev).
  split_and!; [exact H1|exact H2|exact H3|exact Hs|exact Hev].
Defined.

(** C5, at a concrete run: the only record of the stream is [authWall],
    with no line break after it; it is handled, the state awaits the user,
    and the job is dropped from the queue. *)
Lemma auth_wall_job_dropped :
  let r := Streaming.processQueue example_host seeded auth_wall_unterminated in
  cloningQueue seeded = [mkJob "https://a.test/1" None]
  ∧ cloningState r.1 = CloningState.AWAITING_USER_INPUT
  ∧ authUrl r.1 = "https://a.test/1"
  ∧ cloningQueue r.1 = [].
Proof. vm_compute. done. Qed.

(** When a line break follows the record, the job stays in the queue. *)
Lemma auth_wall_job_kept :
  let r := Streaming.processQueue example_host seeded auth_wall_terminated in
  cloningState r.1 = CloningState.AWAITING_USER_INPUT
  ∧ cloningQueue r.1 = [mkJob "https://a.test/1" None].
Proof. vm_compute. done. Qed.




(** C7.  When the proxy answers the page fetch of a job with a status
    outside 200-299, the run ends in state [ERROR] and its last log entry,
    of type [ERROR], has a message that contains the status; nothing but
    that fetch was called. *)
Theorem bad_status_is_fatal (host : Host) (s : State) (w : Streaming.PageAnswers)
  (job : Job) (rest : list Job) (status : N) (text : Result string) :
  cloningState s = CloningState.CLONING →
  cloningQueue s = job :: rest →
  url job ∉ visitedUrls s →
  Streaming.page w = FetchResponds status text →
  response_ok status = false →
  let r := Streaming.processQueue host s w in
  let entry :=
    mkLog ("An error occurred: Failed to fetch URL " +:+ url job +:+
           ". Status: " +:+ pretty status +:+ ".") LogType.ERROR in
  cloningState r.1 = CloningState.ERROR
  ∧ last (agentLogs r.1) = Some entry
  ∧ (∃ earlier, agentLogs r.1 = agentLogs s ++ earlier ++ [entry])
  ∧ includes (message entry) (pretty status) = true
  ∧ r.2 = [EvFetchPage (url job)].
Proof.
  intros Hst Hq Hvis Hpage Hok r entry. subst r.
  unfold Streaming.processQueue. rewrite Hst, Hq. cbn [CloningState.eqb negb].
  rewrite bool_decide_eq_false_2 by done.
  unfold exec. rewrite Hpage, Hok. cbn.
  split_and!.
  - done.
  - by rewrite !last_snoc.
  - eexists [_; _]. rewrite <- !(assoc_L app). reflexivity.
  - subst entry. cbn [message].
    rewrite <- !str_app_assoc.
    rewrite (str_app_assoc _ (pretty status) "."). apply includes_middle.
  - done.
Qed.

Lemma bad_status_is_fatal_witness :
  let r := Streaming.processQueue example_host seeded page_not_found in
  cloningState seeded = CloningState.CLONING
  ∧ cloningQueue seeded = [mkJob "https://a.test/1" None]
  ∧ ("https://a.test/1" ∉ visitedUrls seeded)
  ∧ response_ok 404 = false
  ∧ cloningState r.1 = CloningState.ERROR
  ∧ last (agentLogs r.1)
    = Some (mkLog "An error occurred: Failed to fetch URL https://a.test/1. Status: 404."
                  LogType.ERROR).
Proof.
  assert ("https://a.test/1" ∉ visitedUrls seeded) as Hvis.
  { apply (bool_decide_unpack _). vm_compute. exact I. }
  destruct (bad_status_is_fatal example_host seeded page_not_found
              (mkJob "https://a.test/1" None) [] 404 (Ok "Not Found")
              eq_refl eq_refl Hvis eq_refl eq_refl) as (Hs & Hlast & _).
  split_and!; [reflexivity|reflexivity|exact Hvis|reflexivity|exact Hs|exact Hlast].
Defined.

(** C8.  When the URL of the job at the head of the queue is already
    visited, [processQueue] only drops that job: nothing is called (no
    fetch, no model) and the rest of the state, the file tree included,
    stays as it is.  And in one session no visited URL is fetched as a page
    again. *)
Theorem visited_job_is_skipped (host : Host) :
  (∀ s w job rest,
     cloningState s = CloningState.CLONING →
     cloningQueue s = job :: rest →
     url job ∈ visitedUrls s →
     Streaming.processQueue host s w = (setCloningQueue (fun _ => rest) s, []))
  ∧ (∀ ops s u,
       forallb Streaming.same_session ops = true →
       u ∈ visitedUrls s →
       u ∉ fetched_pages (Streaming.run host ops s).2).
Proof.
  split.
  - intros s w job rest Hst Hq Hvis.
    unfold Streaming.processQueue. rewrite Hst, Hq. cbn [CloningState.eqb negb].
    rewrite bool_decide_eq_true_2 by done.
    unfold setCloningQueue. by rewrite Hq.
  - intros ops s u. apply run_session.
Qed.

Lemma visited_job_is_skipped_witness :
  let s := setVisitedUrls (fun _ => {[ "https://a.test/1" ]}) seeded in
  cloningState s = CloningState.CLONING
  ∧ cloningQueue s = [mkJob "https://a.test/1" None]
  ∧ "https://a.test/1" ∈ visitedUrls s
  ∧ Streaming.processQueue example_host s page_not_found
    = (setCloningQueue (fun _ => []) s, [])
  ∧ "https://a.test/1"
    ∉ fetched_pages (Streaming.run example_host
                       [Streaming.ProcessQueue page_not_found;
                        Streaming.ResumeCloning "https://a.test/1";
                        Streaming.ProcessQueue page_not_found] s).2.
Proof.
  cbv zeta.
  set (s := setVisitedUrls (fun _ => {[ "https://a.test/1" ]}) seeded).
  assert ("https://a.test/1" ∈ visitedUrls s) as Hvis.
  { apply (bool_decide_unpack _). vm_compute. exact I. }
  split_and!; [reflexivity|reflexivity|exact Hvis| |].
  - exact (proj1 (visited_job_is_skipped example_host) s page_not_found
             (mkJob "https://a.test/1" None) [] eq_refl eq_refl Hvis).
  - exact (proj2 (visited_job_is_skipped example_host)
             [Streaming.ProcessQueue page_not_found;
              Streaming.ResumeCloning "https://a.test/1";
              Streaming.ProcessQueue page_not_found] s "https://a.test/1"
             eq_refl Hvis).
Defined.

(** * The claim on the batch orchestrator *)

(** C4.  In batch mode, when the model is called for the job at the head of
    the queue and its response has [isAuthWall] set, the run ends in state
    [AWAITING_USER_INPUT] with [authUrl] the URL of the job and with the
    file tree it started from. *)
Theorem auth_wall_batch (host : Host) (s : State) (w : Batch.PageAnswers)
  (job : Job) (rest : list Job) (result : Batch.CloneResult) :
  cloningState s = CloningState.CLONING →
  cloningQueue s = job :: rest →
  EvModelClone (url job) ∈ (Batch.processQueue host s w).2 →
  Batch.model w = Ok (Ok result) →
  Batch.isAuthWall result = true →
  let r := Batch.processQueue host s w in
  cloningState r.1 = CloningState.AWAITING_USER_INPUT
  ∧ authUrl r.1 = url job
  ∧ fileSystem r.1 = fileSystem s.
Proof.
  intros Hst Hq Hcall Hmodel Hwall. cbv zeta. revert Hcall.
  unfold Batch.processQueue. rewrite Hst, Hq. cbn [CloningState.eqb].
  case_bool_decide as Hvis; [by intros ?%elem_of_nil|].
  unfold exec, Batch.clonePage.
  rewrite bool_decide_eq_false_2 by done. cbn [orb].
  destruct (Batch.MAX_PAGES <=? size (visitedUrls s)).
  { proc_unfold. destruct (_ || _); cbn; by intros ?%elem_of_nil. }
  proc_unfold.
  destruct (Batch.page w) as [e|status text]; [no_model_call|].
  destruct (response_ok status); [|no_model_call].
  destruct text as [html|e]; [|no_model_call].
  match goal with
  | |- context [Batch.resolve_assets host ?p ?b ?W] =>
      pose proof (resolve_assets_pure host p b W) as Hpure;
      destruct (Batch.resolve_assets host p b W) as [[urls|e] w1]
  end; cbn [snd] in Hpure; subst w1; [|no_model_call].
  destruct (negb (bool_decide (urls = []))).
  - match goal with
    | |- context [for_each urls (Batch.fetch_asset w) ?W] =>
        destruct (fetch_assets_run w urls W) as (s2 & evs & Heq & Hfs & _ & _ & Hevs);
        rewrite Heq
    end.
    cbn in Hfs. rewrite Hmodel.
    destruct (screenshot job) as [shot|]; [destruct (Batch.image w) as [b64|e]|];
      [|no_model_call|];
      destruct (truthy (Batch.thoughtProcess result)); rewrite Hwall;
      intros _; split_and!; try reflexivity; exact Hfs.
  - rewrite Hmodel.
    destruct (screenshot job) as [shot|]; [destruct (Batch.image w) as [b64|e]|];
      [|no_model_call|];
      destruct (truthy (Batch.thoughtProcess result)); rewrite Hwall;
      intros _; split_and!; reflexivity.
Qed.

Lemma auth_wall_batch_witness :
  let r := Batch.processQueue example_host seeded batch_auth_wall in
  EvModelClone "https://a.test/1" ∈ r.2
  ∧ cloningState r.1 = CloningState.AWAITING_USER_INPUT
  ∧ authUrl r.1 = "https://a.test/1"
  ∧ fileSystem r.1 = fileSystem seeded.
Proof.
  assert (EvModelClone "https://a.test/1"
          ∈ (Batch.processQueue example_host seeded batch_auth_wall).2) as Hcall.
  { apply (bool_decide_unpack _). vm_compute. exact I. }
  split; [exact Hcall|].
  exact (auth_wall_batch example_host seeded batch_auth_wall
           (mkJob "https://a.test/1" None) [] wall_result
           eq_refl eq_refl Hcall eq_refl eq_refl).
Defined.

(** * The loop path of the stream *)

(** The half of C5 that the loop keeps: when a line of the stream is an
    [authWall] record, whatever follows its line break, in the same chunk
    or in later chunks, changes neither the file tree nor the queue, and
    the job stays at the head of the queue. *)
Lemma auth_wall_in_loop (host : Host) (s : State) (w : Streaming.PageAnswers)
  (job : Job) (rest : list Job) (chunks : list string) (ending : option Thrown)
  (pre line post msg : string) :
  cloningState s = CloningState.CLONING →
  cloningQueue s = job :: rest →
  url job ∉ visitedUrls s →
  Streaming.stream w = Ok (chunks, ending) →
  stream_text chunks = pre +:+ line +:+ nl +:+ post →
  (pre = "" ∨ ∃ pre', pre = pre' +:+ nl) →
  has_newline line = false →
  truthy (trim host line) = true →
  JSON_parse host (trim host line) = Some (authWall msg) →
  let cut := Streaming.mkPageAnswers (Streaming.page w) (Streaming.image w)
               (Ok ([pre +:+ line +:+ nl], None)) in
  let r := Streaming.processQueue host s w in
  let r0 := Streaming.processQueue host s cut in
  fileSystem r.1 = fileSystem r0.1
  ∧ cloningQueue r.1 = cloningQueue r0.1
  ∧ head (cloningQueue r.1) = Some job.
Proof.
  intros Hst Hq Hvis Hstream Htext Hpre Hline Htrim Hparse. cbv zeta.
  unfold Streaming.processQueue. rewrite Hst, Hq. cbn [CloningState.eqb negb].
  rewrite bool_decide_eq_false_2 by done.
  cbn [Streaming.page Streaming.image Streaming.stream]. rewrite Hstream.
  proc_unfold.
  destruct (Streaming.page w) as [e|status text];
    [by split_and!; [| |cbn; rewrite Hq]|].
  destruct (response_ok status); [|by split_and!; [| |cbn; rewrite Hq]].
  destruct text as [html|e]; [|by split_and!; [| |cbn; rewrite Hq]].
  match goal with
  | |- context [Streaming.resolve_assets host ?p ?b ?W] =>
      pose proof (resolve_assets_world host p b W) as Hpure;
      destruct (Streaming.resolve_assets host p b W) as [[urls|e] w1]
  end; cbn [snd] in Hpure; subst w1; [|by split_and!; [| |cbn; rewrite Hq]].
  destruct (negb (bool_decide (urls = []))); cbv beta;
    [rewrite (for_each_emit urls _ EvFetchAsset) by done|]; cbn [fst snd].
  all: match goal with
       | |- context [match screenshot _ with Some _ => _ | None => _ end (?S0, ?E0)] =>
           assert (cloningQueue S0 = job :: rest) as HqS by exact Hq;
           revert HqS; generalize S0, E0; intros s0 evs0 HqS
       end.
  all: destruct (screenshot job) as [shot|];
    [destruct (Streaming.image w) as [data|e];
       [|by split_and!; [| |cbn; rewrite HqS]]|]; cbn [fst snd].
  all: match goal with
       | |- context [Streaming.read_chunks _ ?v ?m ?u _ false _ _ ?W] =>
           pose proof (read_chunks_text host v m u ending chunks "" W eq_refl) as [Hw Hr];
           pose proof (read_chunks_text host v m u None [pre +:+ line +:+ nl] "" W eq_refl)
             as [Hw0 Hr0];
           pose proof (drain_auth_wall_text host v m u pre line post msg W
                         Hpre Hline Htrim Hparse) as [Hd Hres];
           pose proof (read_chunks_queue host v m u [pre +:+ line +:+ nl] None "" false W)
             as Hgrow;
           cbv zeta in Hw, Hr, Hw0, Hr0, Hd, Hres; unfold queue_grows in Hgrow;
           cbn [stream_text foldr] in Hw0, Hr0; rewrite str_app_nil_r in Hw0, Hr0;
           rewrite Htext in Hw, Hr;
           change ("" +:+ ?x) with x in Hw, Hr, Hw0, Hr0;
           cbn [fst snd cloningQueue setAgentLogs] in Hgrow;
           change (cloningQueue s0) with (cloningQueue s0) in Hgrow; rewrite HqS in Hgrow;
           destruct (Streaming.read_chunks host v m u "" false chunks ending W)
             as [ans w1];
           destruct (Streaming.read_chunks host v m u "" false [pre +:+ line +:+ nl] None W)
             as [ans0 w2];
           cbn [fst snd] in Hw, Hr, Hw0, Hr0, Hgrow
       end.
  all: rewrite Hd, <- Hw0 in Hw; subst w2; destruct Hgrow as [more Hgrow].
  all: assert ((∃ b, ans = Ok (b, true)) ∨ ∃ e, ans = Throws e) as Hans
         by (destruct Hres as [(b & b0 & Hb & _)|(e & He & _)]; rewrite ?Hb, ?He in Hr;
             [destruct Hr as [->|[(b' & _ & ->)|(e & ->)]]|]; eauto).
  all: assert ((∃ b, ans0 = Ok (b, true)) ∨ ∃ e, ans0 = Throws e) as Hans0
         by (destruct Hres as [(b & b0 & _ & Hb)|(e & _ & He)]; rewrite ?Hb, ?He in Hr0;
             [destruct Hr0 as [->|[(b' & _ & ->)|(e & ->)]]|]; eauto).
  all: clear Hr Hr0 Hres Hd Hw0.
  all: destruct Hans as [[b ->]|[e ->]], Hans0 as [[b0 ->]|[e0 ->]];
    cbn [fst snd negb]; rewrite ?andb_false_r; cbn.
  all: destruct w1 as [s1 evs1]; cbn [fst] in Hgrow; by rewrite Hgrow.
Qed.


(** * The handlers of the user's actions *)

Lemma has_http_scheme_https u : has_http_scheme ("https://" +:+ u) = true.
Proof. unfold has_http_scheme. simpl. by destruct (lower_string _). Qed.

Lemma idle_eqb st :
  st ∈ [CloningState.IDLE; CloningState.COMPLETED; CloningState.ERROR] →
  CloningState.eqb st CloningState.IDLE
  || CloningState.eqb st CloningState.COMPLETED
  || CloningState.eqb st CloningState.ERROR = true.
Proof.
  intros Hst. repeat (apply elem_of_cons in Hst as [->|Hst]; [done|]).
  by apply elem_of_nil in Hst.
Qed.

(** X1.  A clone without screenshot, accepted (a URL is given and the
    state is [IDLE], [COMPLETED] or [ERROR]), starts from scratch: the log
    holds the one line of the start, the file tree, the preview, the
    visited set, the console errors and the count of repairs are reset,
    and the queue holds the one job of the URL.  The URL is the trimmed
    input when that starts with [http://] or [https://] in any case, and
    the trimmed input with [https://] put in front otherwise; either way
    it starts with such a scheme.  Only [authUrl] and the flag of the
    screenshot dialogue are those of the state before.  Nothing is
    called. *)
Theorem initiate_cloning_fresh_start (host : Host) (rawUrl : string)
  (windowOpens : bool) (s : State) :
  rawUrl ≠ "" →
  cloningState s ∈ [CloningState.IDLE; CloningState.COMPLETED; CloningState.ERROR] →
  let trimmed := trim host rawUrl in
  let u := if has_http_scheme trimmed then trimmed else "https://" +:+ trimmed in
  Streaming.handleInitiateCloning host rawUrl false windowOpens s
  = (fresh_clone u s, [])
  ∧ has_http_scheme u = true.
Proof.
  intros Hraw Hst trimmed u. subst trimmed u. unfold Streaming.handleInitiateCloning.
  apply truthy_true in Hraw. rewrite Hraw, (idle_eqb _ Hst). cbn [negb orb].
  split; [done|].
  destruct (has_http_scheme (trim host rawUrl)) eqn:Hscheme;
    [done|apply has_http_scheme_https].
Qed.

Lemma initiate_cloning_fresh_start_witness :
  Streaming.handleInitiateCloning example_host "  Example.com " false true failed_fetch
  = (fresh_clone "https://Example.com" failed_fetch, [])
  ∧ Streaming.handleInitiateCloning example_host " HTTP://Example.com" false true
      failed_fetch
    = (fresh_clone "HTTP://Example.com" failed_fetch, []).
Proof.
  assert (cloningState failed_fetch
          ∈ [CloningState.IDLE; CloningState.COMPLETED; CloningState.ERROR]) as Hst.
  { apply (bool_decide_unpack _). vm_compute. exact I. }
  split.
  - exact (proj1 (initiate_cloning_fresh_start example_host "  Example.com " true
                    failed_fetch ltac:(done) Hst)).
  - exact (proj1 (initiate_cloning_fresh_start example_host " HTTP://Example.com" true
                    failed_fetch ltac:(done) Hst)).
Defined.

Lemma includes_refl s : includes s s = true.
Proof.
  apply includes_prefix. rewrite <- (str_app_nil_r s) at 2. apply prefix_app_refl.
Qed.

Lemma existsb_snoc {A} (p : A → bool) l x : existsb p (l ++ [x]) = existsb p l || p x.
Proof. rewrite existsb_app. cbn. by rewrite orb_false_r. Qed.

(** X4.  The listener of the preview records a console error once:
    a message that is part of an error already recorded (the same message
    among them) leaves the state as it is, so that a second delivery of a
    message changes nothing; any other message is put at the end of the
    list; and a list without repetition stays without repetition. *)
Theorem console_error_recorded_once (msg : string) (s : State) :
  Streaming.handleMessage msg (Streaming.handleMessage msg s)
  = Streaming.handleMessage msg s
  ∧ ((∃ e, e ∈ consoleErrors s ∧ includes e msg = true) →
     Streaming.handleMessage msg s = s)
  ∧ ((∀ e, e ∈ consoleErrors s → includes e msg = false) →
     consoleErrors (Streaming.handleMessage msg s) = consoleErrors s ++ [msg])
  ∧ (NoDup (consoleErrors s) → NoDup (consoleErrors (Streaming.handleMessage msg s))).
Proof.
  unfold Streaming.handleMessage.
  destruct (existsb (fun e => includes e msg) (consoleErrors s)) eqn:Hex.
  - assert (setConsoleErrors
              (fun prev => if existsb (fun e => includes e msg) prev then prev
                           else prev ++ [msg]) s = s) as Hsame.
    { destruct s; unfold setConsoleErrors; cbn in *. by rewrite Hex. }
    rewrite Hsame, Hsame. split_and!; [done|done| |].
    + intros Hnone. apply existsb_exists in Hex as (e & He & Hinc).
      apply list_elem_of_In in He. by rewrite (Hnone e He) in Hinc.
    + done.
  - assert (∀ e, e ∈ consoleErrors s → includes e msg = false) as Hnone.
    { intros e He. destruct (includes e msg) eqn:Hinc; [|done].
      assert (existsb (fun e => includes e msg) (consoleErrors s) = true) as Htrue.
      { apply existsb_exists. exists e. split; [by apply list_elem_of_In|done]. }
      congruence. }
    split_and!.
    + destruct s; unfold setConsoleErrors; cbn in *. rewrite Hex.
      by rewrite existsb_snoc, includes_refl, orb_true_r.
    + intros (e & He & Hinc). by rewrite (Hnone e He) in Hinc.
    + intros _. cbn. by rewrite Hex.
    + intros Hnd. cbn. rewrite Hex. apply NoDup_app. split_and!.
      * done.
      * intros e He ->%list_elem_of_singleton.
        pose proof (Hnone msg He) as Hinc. by rewrite includes_refl in Hinc.
      * apply NoDup_singleton.
Qed.

Lemma console_error_recorded_once_witness :
  Streaming.handleMessage "x is not defined" exhausted = exhausted
  ∧ consoleErrors (Streaming.handleMessage "TypeError: y is null" exhausted)
    = ["ReferenceError: x is not defined"; "TypeError: y is null"].
Proof.
  split.
  - apply (proj1 (proj2 (console_error_recorded_once "x is not defined" exhausted))).
    exists "ReferenceError: x is not defined". split; [|reflexivity].
    apply (bool_decide_unpack _). vm_compute. exact I.
  - apply (proj1 (proj2 (proj2
             (console_error_recorded_once "TypeError: y is null" exhausted)))).
    intros e He. change (consoleErrors exhausted)
      with ["ReferenceError: x is not defined"] in He.
    apply list_elem_of_singleton in He as ->. reflexivity.
Defined.

Section Dismissed.
Context (host : Host).
Import Streaming.

(** No operation leads out of the state left by a dismissed screenshot
    dialogue, and none calls anything there. *)
Lemma waiting_for_nothing_op op s :
  waiting_for_nothing s →
  waiting_for_nothing (apply_op host op s).1 ∧ (apply_op host op s).2 = [].
Proof.
  intros (Hst & Hq & Hv & Hmodal & Hfix).
  assert ((fixAttempts s <? MAX_FIX_ATTEMPTS) = true) as Hlt by (by apply Nat.ltb_lt).
  assert ((MAX_FIX_ATTEMPTS <=? fixAttempts s) = false) as Hle by (apply Nat.leb_gt; lia).
  unfold waiting_for_nothing.
  destruct op; cbn [apply_op].
  - unfold handleInitiateCloning. rewrite Hst. cbn [CloningState.eqb orb negb].
    by rewrite orb_true_r.
  - by rewrite Hmodal.
  - by rewrite Hmodal.
  - by rewrite Hst.
  - by rewrite Hst.
  - done.
  - unfold processQueue. by rewrite Hst, Hq.
  - unfold qualityGate. rewrite Hst, Hq, Hv, size_empty. cbn. by rewrite Hst, Hq, Hv.
  - unfold qualityCheck. by rewrite Hst.
  - done.
  - unfold autoFixTrigger. rewrite Hst, Hle. cbn [CloningState.eqb orb].
    by rewrite andb_false_r, !andb_false_l, ?andb_false_r.
  - done.
Qed.
End Dismissed.

(** X5.  A clone started with a screenshot whose dialogue is dismissed
    never ends: from the state [CLONING] with nothing queued, nothing
    visited and the dialogue closed, every sequence of operations (user
    actions, runs of the effects, messages of the preview) leaves the
    state [CLONING] and the queue empty, and calls nothing. *)
Theorem dismissed_dialogue_is_stuck (host : Host) (ops : list Streaming.Op) (s : State) :
  waiting_for_nothing s →
  let r := Streaming.run host ops s in
  cloningState r.1 = CloningState.CLONING
  ∧ cloningQueue r.1 = []
  ∧ r.2 = [].
Proof.
  revert s. induction ops as [|op ops IH]; intros s Hs; cbv zeta.
  - destruct Hs as (Hst & Hq & _). by split_and!.
  - cbn [Streaming.run]. cbv zeta. cbn [fst snd].
    destruct (waiting_for_nothing_op host op s Hs) as [Hs' ->].
    destruct (IH _ Hs') as (Hst & Hq & Hev). by split_and!.
Qed.

Lemma dismissed_dialogue_is_stuck_witness :
  waiting_for_nothing dismissed
  ∧ cloningState
      (Streaming.run example_host
         [Streaming.InitiateCloning "https://b.test" false true;
          Streaming.ProcessQueue page_not_found;
          Streaming.QualityGate;
          Streaming.ConsoleMessage "ReferenceError: x is not defined";
          Streaming.AutoFixTrigger (Throws OtherValue);
          Streaming.CancelAuth]
         dismissed).1
    = CloningState.CLONING.
Proof.
  assert (waiting_for_nothing dismissed) as Hs.
  { unfold waiting_for_nothing. split_and!; try reflexivity. vm_compute. lia. }
  split; [exact Hs|].
  exact (proj1 (dismissed_dialogue_is_stuck example_host _ dismissed Hs)).
Defined.

(** * Applying a patch of the model: repair and review *)

(** Unfold the setters of the state on a state given by its fields. *)
Ltac setters :=
  unfold setCloningState, setAgentLogs, setFileSystem, setActiveFile,
    setMainHtmlContent, setIsScreenshotModalOpen, setUrlToClone, setAuthUrl,
    setCloningQueue, setVisitedUrls, setConsoleErrors, setFixAttempts;
  cbn [cloningState agentLogs fileSystem activeFile mainHtmlContent
       isScreenshotModalOpen urlToClone authUrl cloningQueue visitedUrls
       consoleErrors fixAttempts].

Section PatchRuns.
Context (host : Host).
Import Streaming.

(** The loop over the files of a patch: it inserts every file into the
    copy of the tree, in order, logs one line per file and puts every
    [.html] file in the preview; it calls nothing and does not throw. *)
Lemma apply_files_run log_prefix files : ∀ fs hu s evs,
  apply_files log_prefix files fs hu (s, evs)
  = (Ok (file_merge fs files, hu || negb (bool_decide (html_files files = []))),
     (setMainHtmlContent (looped_preview files)
        (setAgentLogs (fun prev => prev ++ patch_logs log_prefix files) s), evs)).
Proof.
  induction files as [|[path content] files IH]; intros fs hu s evs.
  - cbn. rewrite orb_false_r. unfold ret. destruct s; setters.
    by rewrite (right_id_L [] app).
  - cbn [apply_files].
    assert (html_files ((path, content) :: files)
            = if endsWith path ".html" then (path, content) :: html_files files
              else html_files files) as Hfiles by done.
    destruct (endsWith path ".html") eqn:Hhtml.
    + unfold bind at 1, addLog at 1, update at 1. cbn [fst snd].
      unfold bind at 1, update at 1. cbn [fst snd]. rewrite IH.
      unfold looped_preview. rewrite Hfiles, last_cons.
      f_equal; [by rewrite orb_true_r|]. f_equal.
      destruct s; setters. rewrite <- (assoc_L app).
      by destruct (last (html_files files)).
    + unfold bind at 1, addLog at 1, update at 1. cbn [fst snd]. rewrite IH.
      unfold looped_preview. rewrite Hfiles.
      f_equal. f_equal. destruct s; setters. by rewrite <- (assoc_L app).
Qed.
End PatchRuns.

(** X2.  When the repair is due (console errors are pending, the clone
    is [COMPLETED] or in [ERROR], and the count of repairs is below 3),
    the trigger asks the model once, with the pending errors, clears them
    and adds one to the count.  If the model answers with files, every
    file is inserted into the tree in order (for paths whose segments are
    ordinary property names), the preview becomes the last [.html] file
    of the patch behind the capture script (or the old preview with a
    space behind it when the patch has none) and the state is
    [COMPLETED]; if it answers with no file, or if the call or the parse
    throws, the tree and the preview stay and the state is [ERROR]. *)
Theorem repair_outcome (s : State) (answer : Result Patch) :
  consoleErrors s ≠ [] →
  cloningState s = CloningState.COMPLETED ∨ cloningState s = CloningState.ERROR →
  fixAttempts s < Streaming.MAX_FIX_ATTEMPTS →
  let r := Streaming.autoFixTrigger s answer in
  r.2 = [EvModelFix (consoleErrors s)]
  ∧ consoleErrors r.1 = []
  ∧ fixAttempts r.1 = fixAttempts s + 1
  ∧ match answer with
    | Ok patch =>
        match filesToUpdate patch with
        | [] =>
            cloningState r.1 = CloningState.ERROR
            ∧ fileSystem r.1 = fileSystem s
            ∧ mainHtmlContent r.1 = mainHtmlContent s
        | files =>
            cloningState r.1 = CloningState.COMPLETED
            ∧ (Forall (fun f => ordinary f.1) files →
               fileSystem r.1 = file_merge (fileSystem s) files)
            ∧ mainHtmlContent r.1 = patched_preview files (mainHtmlContent s)
        end
    | Throws e =>
        cloningState r.1 = CloningState.ERROR
        ∧ fileSystem r.1 = fileSystem s
        ∧ mainHtmlContent r.1 = mainHtmlContent s
        ∧ last (agentLogs r.1)
          = Some (mkLog ("Failed to apply fix: " +:+
                         errorMessage e "An unknown error occurred during auto-fix.")
                        LogType.ERROR)
    end.
Proof.
  intros Herr Hst Hfix. unfold Streaming.autoFixTrigger.
  rewrite bool_decide_eq_false_2 by done.
  assert (CloningState.eqb (cloningState s) CloningState.COMPLETED
          || CloningState.eqb (cloningState s) CloningState.ERROR = true) as ->
    by (by destruct Hst as [-> | ->]).
  apply Nat.ltb_lt in Hfix. rewrite Hfix. cbn [negb andb].
  unfold Streaming.handleAutoFix. cbv zeta.
  destruct answer as [[summary files]|e]; [destruct files as [|f files]|].
  - cbn. split_and!; (done || lia).
  - proc_unfold. cbn [filesToUpdate analysis]. rewrite apply_files_run.
    cbn [fst snd orb]. unfold patched_preview, looped_preview.
    destruct (last (html_files (f :: files))) as [g|] eqn:Hlast.
    + assert (html_files (f :: files) ≠ []) as Hne by (by intros Heq; rewrite Heq in Hlast).
      rewrite bool_decide_eq_false_2 by done. cbn.
      split_and!; (done || lia).
    + apply last_None in Hlast. rewrite Hlast.
      rewrite bool_decide_eq_true_2 by done. cbn.
      split_and!; (done || lia).
  - cbn. split_and!; try (done || lia). by rewrite last_snoc.
Qed.

Lemma repair_outcome_witness :
  let r := Streaming.autoFixTrigger broken_preview (Ok css_patch) in
  r.2 = [EvModelFix ["ReferenceError: x is not defined"]]
  ∧ consoleErrors r.1 = []
  ∧ fixAttempts r.1 = 1
  ∧ cloningState r.1 = CloningState.COMPLETED
  ∧ fileSystem r.1
    = [("index.html", File "<p>hi</p>");
       ("public", Folder [("css", Folder [("style.css", File "body { margin: 0; }")])])]
  ∧ mainHtmlContent r.1 = Some "<p>hi</p> ".
Proof.
  assert (consoleErrors broken_preview ≠ []) as H1 by done.
  assert (fixAttempts broken_preview < Streaming.MAX_FIX_ATTEMPTS) as H3
    by (vm_compute; lia).
  assert (Forall (fun f => ordinary f.1) (filesToUpdate css_patch)) as H4.
  { repeat constructor; apply (bool_decide_unpack _); vm_compute; exact I. }
  destruct (repair_outcome broken_preview (Ok css_patch) H1 (or_introl eq_refl) H3)
    as (Hev & Herr & Hfix & Hst & Hfs & Hmain).
  split_and!; [exact Hev|exact Herr|exact Hfix|exact Hst|exact (Hfs H4)|exact Hmain].
Defined.

(** X3.  In state [QUALITY_CHECK] the review asks the model once.  If the
    model answers, every file of the answer is inserted into the tree in
    order (for paths whose segments are ordinary property names), the
    preview becomes the last [.html] file of the answer behind
    the capture script (the old preview with a space behind it when the
    answer has files but none is [.html], the old preview when it has no
    file) and the state is [COMPLETED], also when the answer has no file;
    if the call or the parse throws, the tree and the preview stay and the
    state is [ERROR].  The count of repairs and the console errors stay. *)
Theorem review_outcome (s : State) (answer : Result Patch) :
  cloningState s = CloningState.QUALITY_CHECK →
  let r := Streaming.qualityCheck s answer in
  r.2 = [EvModelReview]
  ∧ fixAttempts r.1 = fixAttempts s
  ∧ consoleErrors r.1 = consoleErrors s
  ∧ match answer with
    | Ok patch =>
        cloningState r.1 = CloningState.COMPLETED
        ∧ (Forall (fun f => ordinary f.1) (filesToUpdate patch) →
           fileSystem r.1 = file_merge (fileSystem s) (filesToUpdate patch))
        ∧ mainHtmlContent r.1
          = match filesToUpdate patch with
            | [] => mainHtmlContent s
            | files => patched_preview files (mainHtmlContent s)
            end
    | Throws e =>
        cloningState r.1 = CloningState.ERROR
        ∧ fileSystem r.1 = fileSystem s
        ∧ mainHtmlContent r.1 = mainHtmlContent s
        ∧ last (agentLogs r.1)
          = Some (mkLog ("Failed to perform quality check: " +:+
                         errorMessage e "An unknown error occurred during quality check.")
                        LogType.ERROR)
    end.
Proof.
  intros Hst. unfold Streaming.qualityCheck. rewrite Hst. cbn [CloningState.eqb].
  unfold Streaming.handleQualityCheck. cbv zeta.
  destruct answer as [[summary files]|e]; [destruct files as [|f files]|].
  - cbn. by split_and!.
  - proc_unfold. cbn [filesToUpdate analysis]. rewrite apply_files_run.
    cbn [fst snd orb]. unfold patched_preview, looped_preview.
    destruct (last (html_files (f :: files))) as [g|] eqn:Hlast.
    + assert (html_files (f :: files) ≠ []) as Hne by (by intros Heq; rewrite Heq in Hlast).
      rewrite bool_decide_eq_false_2 by done. cbn. by split_and!.
    + apply last_None in Hlast. rewrite Hlast.
      rewrite bool_decide_eq_true_2 by done. cbn. by split_and!.
  - cbn. split_and!; try done. by rewrite last_snoc.
Qed.

Lemma review_outcome_witness :
  let r := Streaming.qualityCheck under_review (Ok html_patch) in
  r.2 = [EvModelReview]
  ∧ cloningState r.1 = CloningState.COMPLETED
  ∧ fileSystem r.1
    = [("index.html", File "<p>one</p>"); ("about.html", File "<p>two</p>")]
  ∧ mainHtmlContent r.1 = Some (consoleCaptureScript +:+ "<p>two</p>").
Proof.
  assert (Forall (fun f => ordinary f.1) (filesToUpdate html_patch)) as H2.
  { repeat constructor; apply (bool_decide_unpack _); vm_compute; exact I. }
  destruct (review_outcome under_review (Ok html_patch) eq_refl)
    as (Hev & _ & _ & Hst & Hfs & Hmain).
  split_and!; [exact Hev|exact Hst|exact (Hfs H2)|exact Hmain].
Defined.

(** * One run of the queue in the streaming orchestrator *)

#[global] Instance keeps_job_preorder u : PreOrder (keeps_job u).
Proof.
  split.
  - intros w. unfold keeps_job. split_and!; try done; [by left|].
    exists []. by rewrite (right_id_L [] app).
  - intros w1 w2 w3 (Hv1 & Hf1 & Hc1 & Hq1 & Hs1 & evs1 & He1 & Hp1)
      (Hv2 & Hf2 & Hc2 & Hq2 & Hs2 & evs2 & He2 & Hp2).
    unfold keeps_job. split_and!; [congruence|congruence|congruence|by etrans| |].
    + destruct Hs2 as [[Hs2 Ha2]|Hs2]; [|by right].
      destruct Hs1 as [[Hs1 Ha1]|[Hs1 Ha1]]; [left|right]; split; congruence.
    + exists (evs1 ++ evs2). split; [by rewrite He2, He1, (assoc_L app)|].
      by rewrite forallb_app, Hp1, Hp2.
Qed.

(** A state update that keeps the job: a log line, a file, the preview. *)
Ltac keeps_leaf :=
  intros; unfold keeps_job;
  cbn [fst snd visitedUrls fixAttempts consoleErrors cloningQueue cloningState
       authUrl setCloningState setAgentLogs setFileSystem setActiveFile
       setMainHtmlContent setIsScreenshotModalOpen setUrlToClone setAuthUrl
       setCloningQueue setVisitedUrls setConsoleErrors setFixAttempts];
  split_and!;
  [ reflexivity | reflexivity | reflexivity
  | first [reflexivity | by apply prefix_app_r]
  | by left
  | first [ exists []; by rewrite (right_id_L [] app)
          | eexists [_]; split; reflexivity ] ].

Ltac keeps_step := respects_step_with keeps_leaf.

Section Guarded.
Context (R : relation (State * list Event)) `{!PreOrder R}.

Lemma guarded_bind {A B} (Φ : State * list Event → Result B → State * list Event → Prop)
  (m : Proc A) (k : A → Proc B) :
  respects R m →
  (∀ a, guarded R Φ (k a)) →
  (∀ w0 w e, R w0 w → Φ w0 (Throws e) w) →
  guarded R Φ (bind m k).
Proof.
  intros Hm Hk Hthrow w0 w Hw. unfold bind.
  pose proof (Hm w) as Hstep. destruct (m w) as [[a|e] w1]; cbn [snd] in Hstep.
  - apply Hk. by etrans.
  - apply Hthrow. by etrans.
Qed.
End Guarded.

Ltac proc_unfold_in H :=
  cbv beta iota zeta delta
    [try_catch bind ret throw await update emit addLog exec fst snd] in H.

Section JobRuns.
Context (host : Host) (u : string).
Import Streaming.

Lemma keeps_handleStreamedAction visited main action :
  respects (keeps_job u) (handleStreamedAction host visited main action u).
Proof.
  destruct action as [| |msg| | |]; cbn [handleStreamedAction];
    [| |apply respects_fun; intros [s evs]; unfold keeps_job; cbn;
        split_and!; try done; [by right|];
        exists []; by rewrite (right_id_L [] app)|..];
    repeat keeps_step.
  apply respects_fun. intros w. cbv zeta.
  destruct (_ && _); [|reflexivity].
  match goal with
  | |- keeps_job u w (?m w).2 =>
      assert (respects (keeps_job u) m) as Hm by (repeat keeps_step); apply Hm
  end.
Qed.

Lemma keeps_handle_line visited main raw :
  respects (keeps_job u) (handle_line host visited main u raw).
Proof.
  unfold handle_line. repeat keeps_step. apply keeps_handleStreamedAction.
Qed.

Lemma keeps_drain visited main text : ∀ acc,
  respects (keeps_job u) (drain host visited main u acc text).
Proof.
  induction text as [|c text IH]; intros acc; cbn [drain].
  - repeat keeps_step.
  - destruct (Ascii.eqb c "010"); [|apply IH].
    apply respects_bind; [apply _|apply keeps_handle_line|].
    intros [|]; [repeat keeps_step|apply IH].
Qed.

Lemma keeps_read_chunks visited main chunks ending : ∀ buffer stop,
  respects (keeps_job u) (read_chunks host visited main u buffer stop chunks ending).
Proof.
  induction chunks as [|chunk chunks IH]; intros buffer stop; cbn [read_chunks].
  - repeat keeps_step.
  - destruct stop; [repeat keeps_step|].
    apply respects_bind; [apply _|apply keeps_drain|]. intros r. apply IH.
Qed.

Lemma keeps_resolve_assets paths :
  respects (keeps_job u) (resolve_assets host paths u).
Proof.
  induction paths as [|p paths IH]; cbn [resolve_assets]; repeat keeps_step.
  apply IH.
Qed.

(** Only an authentication wall makes the handler of a record say stop. *)
Lemma handleStreamedAction_stop visited main action w b w' :
  handleStreamedAction host visited main action u w = (Ok b, w') →
  b = true →
  cloningState w'.1 = CloningState.AWAITING_USER_INPUT.
Proof.
  intros Hrun ->.
  destruct action as [c|path content|msg|target|msg|json];
    cbn [handleStreamedAction] in Hrun.
  - proc_unfold_in Hrun. discriminate Hrun.
  - proc_unfold_in Hrun. destruct (_ && _); discriminate Hrun.
  - proc_unfold_in Hrun. by injection Hrun as <-.
  - destruct (URL_href host target u); [|proc_unfold_in Hrun; discriminate Hrun].
    cbv zeta in Hrun. destruct (_ && _); proc_unfold_in Hrun; discriminate Hrun.
  - proc_unfold_in Hrun. discriminate Hrun.
  - proc_unfold_in Hrun. discriminate Hrun.
Qed.

Lemma handle_line_stop visited main raw w w' :
  handle_line host visited main u raw w = (Ok true, w') →
  cloningState w'.1 = CloningState.AWAITING_USER_INPUT.
Proof.
  unfold handle_line. destruct (truthy _); [|by proc_unfold].
  destruct (JSON_parse host _) as [action|]; [|by proc_unfold].
  intros Hrun. by eapply handleStreamedAction_stop.
Qed.

Lemma drain_stop visited main text : ∀ acc w b w',
  drain host visited main u acc text w = (Ok (b, true), w') →
  cloningState w'.1 = CloningState.AWAITING_USER_INPUT.
Proof.
  induction text as [|c text IH]; intros acc w b w'; cbn [drain]; [by proc_unfold|].
  destruct (Ascii.eqb c "010"); [|apply IH].
  unfold bind at 1.
  destruct (handle_line host visited main u acc w) as [[[|]|e] w1] eqn:Hline.
  - intros [= <- <-]. by eapply handle_line_stop.
  - apply IH.
  - done.
Qed.

Lemma read_chunks_stop visited main chunks ending : ∀ buffer stop w b w',
  (stop = true → cloningState w.1 = CloningState.AWAITING_USER_INPUT) →
  read_chunks host visited main u buffer stop chunks ending w = (Ok (b, true), w') →
  cloningState w'.1 = CloningState.AWAITING_USER_INPUT.
Proof.
  induction chunks as [|chunk chunks IH]; intros buffer stop w b w' Hstop;
    cbn [read_chunks].
  - destruct ending; [by proc_unfold|]. intros [= _ -> <-]. by apply Hstop.
  - destruct stop; [intros [= _ <-]; by apply Hstop|].
    unfold bind at 1.
    destruct (drain host visited main u "" (buffer +:+ chunk) w)
      as [[[b1 stop1]|e] w1] eqn:Hdrain; [|done].
    cbn [fst snd]. apply IH. intros ->. by eapply drain_stop.
Qed.
End JobRuns.

Section QueueRun.
Context (host : Host).
Import Streaming.

(** The end of the body of a queue run: the stream is read, the text
    left in the buffer is handled, and the job is dropped unless the loop
    stopped. *)
Lemma job_tail visited main u chunks ending :
  guarded (keeps_job u) (job_body_end u)
    (r <- read_chunks host visited main u "" false chunks ending ;;
     (when truthy (trim host r.1) && negb r.2 then
        (match JSON_parse host (trim host r.1) with
         | Some action =>
             _ <- handleStreamedAction host visited main action u ;;
             ret ()
         | None =>
             addLog ("AI Output (non-JSON): " +:+ trim host r.1) LogType.DEBUG
         end)) ;;;
     (when negb r.2 then update (setCloningQueue (drop 1)))).
Proof.
  intros w0 w Hw.
  pose proof (keeps_read_chunks host u visited main chunks ending "" false w) as Hread.
  destruct (read_chunks host visited main u "" false chunks ending w)
    as [[[b stop]|e] w1] eqn:Hrun; cbn [snd] in Hread.
  - rewrite (bind_Ok _ _ _ _ _ Hrun). cbn [fst snd].
    destruct stop; cbn [negb].
    + rewrite andb_false_r. cbn. left. split; [by etrans|].
      by eapply (read_chunks_stop host u visited main chunks ending "" false w).
    + rewrite andb_true_r.
      match goal with
      | |- context [bind ?m ?k w1] =>
          assert (respects (keeps_job u) m) as Htrail
            by (repeat keeps_step; apply keeps_handleStreamedAction);
          specialize (Htrail w1);
          destruct (m w1) as [[[]|e] w2] eqn:Htrun;
          [rewrite (bind_Ok _ _ _ _ _ Htrun)|rewrite (bind_Throws _ _ _ _ _ Htrun)]
      end; cbn [snd] in Htrail.
      * cbn. right. exists w2. split; [|done]. etrans; [exact Hw|]. by etrans.
      * cbn. etrans; [exact Hw|]. by etrans.
  - rewrite (bind_Throws _ _ _ _ _ Hrun). cbn. by etrans.
Qed.
(** One step through the body of a queue run. *)
Ltac guarded_step :=
  apply guarded_bind;
  [ apply _
  | repeat keeps_step; try apply keeps_resolve_assets
  | intros ?
  | intros ? ? ? Hthrow; exact Hthrow ].

(** How a queue run that takes a job ends. *)
Lemma processQueue_outcome s w job rest :
  cloningState s = CloningState.CLONING →
  cloningQueue s = job :: rest →
  url job ∉ visitedUrls s →
  let r := processQueue host s w in
  visitedUrls r.1 = visitedUrls s ∪ {[ url job ]}
  ∧ fixAttempts r.1 = fixAttempts s
  ∧ consoleErrors r.1 = consoleErrors s
  ∧ (∃ evs, r.2 = EvFetchPage (url job) :: evs ∧ forallb side_call evs = true)
  ∧ ∃ more,
      (cloningState r.1 = CloningState.CLONING
       ∧ authUrl r.1 = authUrl s
       ∧ cloningQueue r.1 = rest ++ more)
      ∨ (cloningState r.1 = CloningState.AWAITING_USER_INPUT
         ∧ authUrl r.1 = url job
         ∧ (cloningQueue r.1 = job :: rest ++ more ∨ cloningQueue r.1 = rest ++ more))
      ∨ (cloningState r.1 = CloningState.ERROR
         ∧ cloningQueue r.1 = job :: rest ++ more
         ∧ ∃ e, last (agentLogs r.1)
                = Some (mkLog ("An error occurred: " +:+
                               errorMessage e "An unknown error occurred.")
                              LogType.ERROR)).
Proof.
  intros Hst Hq Hvis. unfold processQueue. rewrite Hst, Hq.
  cbn [CloningState.eqb negb]. rewrite bool_decide_eq_false_2 by done.
  unfold exec, addLog. rewrite !bind_update, try_catch_update, try_catch_emit.
  cbn [fst snd app].
  match goal with
  | |- context [try_catch ?body ?h ?W] =>
      assert (guarded (keeps_job (url job)) (job_body_end (url job)) body) as Hbody;
      [|specialize (Hbody W W (reflexivity _)); unfold try_catch;
        destruct (body W) as [[[]|e] w1]]
  end.
  { do 8 guarded_step. apply job_tail. }
  - cbn [fst snd] in Hbody. cbv zeta. cbn [fst snd].
    destruct Hbody as [[Hk Hwall]|(w2 & Hk & ->)];
      destruct Hk as (Hv & Hf & Hc & [more Hmore] & Hstate & evs & Hevs & Hside);
      cbn [fst snd visitedUrls fixAttempts consoleErrors cloningQueue
           cloningState authUrl setAgentLogs setVisitedUrls setCloningQueue]
        in Hv, Hf, Hc, Hmore, Hstate, Hevs |- *;
      rewrite ?Hq in Hmore;
      (split_and!; [done|done|done|by exists evs|]); exists more.
    + right. left. split_and!; [done| |by left].
      destruct Hstate as [[Hs _]|[_ Ha]]; [congruence|done].
    + rewrite Hmore. cbn [drop].
      destruct Hstate as [[Hs Ha]|[Hs Ha]].
      * left. split_and!; [congruence|done|done].
      * right. left. split_and!; [done|done|by right].
  - cbn [fst snd] in Hbody. cbv zeta.
    destruct Hbody as (Hv & Hf & Hc & [more Hmore] & Hstate & evs & Hevs & Hside).
    cbn [fst snd visitedUrls fixAttempts consoleErrors cloningQueue
         cloningState authUrl agentLogs setAgentLogs setVisitedUrls
         setCloningQueue setCloningState]
      in Hv, Hf, Hc, Hmore, Hstate, Hevs |- *.
    rewrite Hq in Hmore.
    split_and!; [done|done|done|by exists evs|]. exists more.
    right. right. split_and!; [done|done|]. exists e. cbn. by rewrite last_snoc.
Qed.
End QueueRun.

(** * What a run of the queue does to a job *)

Lemma side_calls_no_page evs :
  forallb side_call evs = true → fetched_pages evs = [] ∧ fix_calls evs = 0.
Proof.
  induction evs as [|e evs IH]; [done|]. cbn [forallb].
  intros [He Hevs]%andb_true_iff. destruct (IH Hevs) as [Hp Hf].
  unfold fetched_pages, fix_calls in *. by destruct e.
Qed.

#[global] Instance same_queue_preorder : PreOrder same_queue.
Proof.
  split; [by intros w|]. intros w1 w2 w3 H1 H2. unfold same_queue in *. congruence.
Qed.






Section Quiet.
Context (host : Host) (u : string) (visited : gset string) (main : option string).
Import Streaming.






End Quiet.





(** X7.  Starting a clone with a screenshot resets the visited set and
    the file tree and opens the dialogue, but leaves the queue as it is:
    a job left by the previous clone (one that failed, say) is taken by
    the next run of the queue, which fetches its page, before any
    screenshot is supplied. *)
Theorem screenshot_clone_keeps_queue (host : Host) (rawUrl : string) (s : State)
  (w : Streaming.PageAnswers) (job : Job) (rest : list Job) :
  rawUrl ≠ "" →
  cloningState s ∈ [CloningState.IDLE; CloningState.COMPLETED; CloningState.ERROR] →
  cloningQueue s = job :: rest →
  let s1 := (Streaming.handleInitiateCloning host rawUrl true true s).1 in
  cloningState s1 = CloningState.CLONING
  ∧ isScreenshotModalOpen s1 = true
  ∧ visitedUrls s1 = ∅
  ∧ fileSystem s1 = []
  ∧ cloningQueue s1 = job :: rest
  ∧ fetched_pages (Streaming.processQueue host s1 w).2 = [url job].
Proof.
  intros Hraw Hst Hq. cbv zeta.
  unfold Streaming.handleInitiateCloning.
  apply truthy_true in Hraw. rewrite Hraw, (idle_eqb _ Hst). cbn [negb orb].
  match goal with
  | |- context [exec ?m s] => set (s1 := (exec m s).1)
  end.
  assert (cloningState s1 = CloningState.CLONING) as Hst1 by done.
  assert (cloningQueue s1 = job :: rest) as Hq1 by done.
  assert (visitedUrls s1 = ∅) as Hv1 by done.
  split_and!; [done|done|done|done|done|].
  assert (url job ∉ visitedUrls s1) as Hvis by (rewrite Hv1; apply not_elem_of_empty).
  destruct (processQueue_outcome host s1 w job rest Hst1 Hq1 Hvis)
    as (_ & _ & _ & (evs & Hevs & Hside) & _).
  destruct (side_calls_no_page evs Hside) as [Hpages _].
  rewrite Hevs. unfold fetched_pages in *. cbn. by rewrite Hpages.
Qed.

Lemma screenshot_clone_keeps_queue_witness :
  let s1 := (Streaming.handleInitiateCloning example_host "https://b.test" true true
               failed_fetch).1 in
  cloningState failed_fetch = CloningState.ERROR
  ∧ cloningQueue failed_fetch = [mkJob "https://a.test/1" None]
  ∧ urlToClone s1 = "https://b.test"
  ∧ cloningQueue s1 = [mkJob "https://a.test/1" None]
  ∧ fetched_pages (Streaming.processQueue example_host s1 auth_wall_terminated).2
    = ["https://a.test/1"].
Proof.
  assert (cloningState failed_fetch
          ∈ [CloningState.IDLE; CloningState.COMPLETED; CloningState.ERROR]) as Hst.
  { apply (bool_decide_unpack _). vm_compute. exact I. }
  destruct (screenshot_clone_keeps_queue example_host "https://b.test" failed_fetch
              auth_wall_terminated (mkJob "https://a.test/1" None) []
              ltac:(done) Hst eq_refl)
    as (_ & _ & _ & _ & Hq & Hp).
  split_and!; [reflexivity|reflexivity|reflexivity|exact Hq|exact Hp].
Defined.

(** X8.  After an authentication wall that left its job alone in the
    queue, resuming at a URL that is not visited makes the queue fetch
    that URL next: the first run of the queue drops the job of the wall
    without any call, the second takes the new job.  The state is
    [CLONING] again and [authUrl] is cleared when the new job is taken. *)
Theorem resume_fetches_the_new_page (host : Host) (s : State) (job : Job)
  (nextUrl : string) (w1 w2 : Streaming.PageAnswers) :
  cloningState s = CloningState.AWAITING_USER_INPUT →
  cloningQueue s = [job] →
  url job ∈ visitedUrls s →
  nextUrl ≠ "" →
  nextUrl ∉ visitedUrls s →
  let ready :=
    Streaming.run host [Streaming.ResumeCloning nextUrl; Streaming.ProcessQueue w1] s in
  let r := Streaming.processQueue host ready.1 w2 in
  ready.2 = []
  ∧ cloningState ready.1 = CloningState.CLONING
  ∧ authUrl ready.1 = ""
  ∧ cloningQueue ready.1 = [mkJob nextUrl None]
  ∧ fetched_pages r.2 = [nextUrl]
  ∧ visitedUrls r.1 = visitedUrls s ∪ {[ nextUrl ]}.
Proof.
  intros Hst Hq Hjob Hnext Hvis. cbv zeta.
  cbn [Streaming.run Streaming.apply_op]. rewrite Hst. cbn [CloningState.eqb].
  unfold Streaming.handleResumeCloning.
  apply truthy_true in Hnext. rewrite Hnext. cbn [negb]. cbv zeta.
  match goal with
  | |- context [Streaming.processQueue host ?s0 w1] =>
      assert (Streaming.processQueue host s0 w1
              = (setCloningQueue (fun _ => [mkJob nextUrl None]) s0, [])) as ->
  end.
  { unfold Streaming.processQueue. cbn [fst snd cloningState exec]. cbn.
    rewrite Hq. cbn. rewrite bool_decide_eq_true_2 by done.
    setters. by rewrite Hq. }
  cbn [fst snd app].
  match goal with
  | |- context [Streaming.processQueue host ?s0 w2] => set (s2 := s0)
  end.
  assert (visitedUrls s2 = visitedUrls s) as Hv2 by done.
  assert (url (mkJob nextUrl None) ∉ visitedUrls s2) as Hvis2 by (by rewrite Hv2).
  destruct (processQueue_outcome host s2 w2 (mkJob nextUrl None) []
              eq_refl eq_refl Hvis2)
    as (Hv & _ & _ & (evs & Hevs & Hside) & _).
  destruct (side_calls_no_page evs Hside) as [Hpages _].
  split_and!; [done|done|done|done| |by rewrite Hv, Hv2].
  rewrite Hevs. unfold fetched_pages in *. cbn. by rewrite Hpages.
Qed.

Lemma resume_fetches_the_new_page_witness :
  let ready :=
    Streaming.run example_host
      [Streaming.ResumeCloning "https://a.test/2";
       Streaming.ProcessQueue page_not_found] at_the_wall in
  cloningState at_the_wall = CloningState.AWAITING_USER_INPUT
  ∧ cloningQueue at_the_wall = [mkJob "https://a.test/1" None]
  ∧ cloningQueue ready.1 = [mkJob "https://a.test/2" None]
  ∧ fetched_pages (Streaming.processQueue example_host ready.1 page_ok_stream).2
    = ["https://a.test/2"].
Proof.
  assert ("https://a.test/1" ∈ visitedUrls at_the_wall) as Hin.
  { apply (bool_decide_unpack _). vm_compute. exact I. }
  assert ("https://a.test/2" ∉ visitedUrls at_the_wall) as Hout.
  { apply (bool_decide_unpack _). vm_compute. exact I. }
  destruct (resume_fetches_the_new_page example_host at_the_wall
              (mkJob "https://a.test/1" None) "https://a.test/2"
              page_not_found page_ok_stream eq_refl eq_refl Hin ltac:(done) Hout)
    as (_ & _ & _ & Hq & Hp & _).
  split_and!; [reflexivity|reflexivity|exact Hq|exact Hp].
Defined.

(** * The count of repairs *)

Lemma fix_calls_app evs1 evs2 : fix_calls (evs1 ++ evs2) = fix_calls evs1 + fix_calls evs2.
Proof. unfold fix_calls. by rewrite List.filter_app, length_app. Qed.

Section RepairCount.
Context (host : Host).
Import Streaming.

Lemma processQueue_counts s w :
  let r := processQueue host s w in
  fixAttempts r.1 = fixAttempts s + fix_calls r.2.
Proof.
  cbv zeta.
  destruct (CloningState.eqb (cloningState s) CloningState.CLONING) eqn:Hst.
  2:{ unfold processQueue. rewrite Hst. cbn. lia. }
  assert (cloningState s = CloningState.CLONING) as Hst' by (by destruct (cloningState s)).
  destruct (cloningQueue s) as [|job rest] eqn:Hq.
  { unfold processQueue. rewrite Hst, Hq. cbn. lia. }
  destruct (decide (url job ∈ visitedUrls s)) as [Hvis|Hvis].
  { unfold processQueue. rewrite Hst, Hq. cbn [negb].
    rewrite bool_decide_eq_true_2 by done. cbn. lia. }
  destruct (processQueue_outcome host s w job rest Hst' Hq Hvis)
    as (_ & Hf & _ & (evs & Hevs & Hside) & _).
  destruct (side_calls_no_page evs Hside) as [_ Hfix].
  rewrite Hf, Hevs. unfold fix_calls in *. cbn. lia.
Qed.

Lemma qualityCheck_counts s answer :
  let r := qualityCheck s answer in
  fixAttempts r.1 = fixAttempts s + fix_calls r.2.
Proof.
  cbv zeta. unfold qualityCheck.
  destruct (CloningState.eqb _ _); [|cbn; lia].
  unfold handleQualityCheck.
  destruct answer as [[summary files]|e]; [destruct files as [|f files]|].
  - cbn. lia.
  - proc_unfold. cbn [filesToUpdate analysis]. rewrite apply_files_run.
    cbn [fst snd orb]. destruct (negb (negb _)); cbn; lia.
  - cbn. lia.
Qed.

Lemma autoFixTrigger_counts s answer :
  let r := autoFixTrigger s answer in
  fixAttempts r.1 = fixAttempts s + fix_calls r.2.
Proof.
  cbv zeta. unfold autoFixTrigger.
  destruct (_ && _ && (fixAttempts s <? MAX_FIX_ATTEMPTS)).
  - unfold handleAutoFix.
    destruct answer as [[summary files]|e]; [destruct files as [|f files]|].
    + cbn. lia.
    + proc_unfold. cbn [filesToUpdate analysis]. rewrite apply_files_run.
      cbn [fst snd orb]. destruct (negb (negb _)); cbn; lia.
    + cbn. lia.
  - destruct (_ && _ && negb _); cbn; lia.
Qed.

Lemma apply_op_counts op s :
  same_session op = true →
  let r := apply_op host op s in
  fixAttempts r.1 = fixAttempts s + fix_calls r.2.
Proof.
  intros Hop. destruct op; try discriminate Hop; cbn [apply_op]; cbv zeta.
  - destruct (isScreenshotModalOpen s); cbn; lia.
  - destruct (isScreenshotModalOpen s); cbn; lia.
  - destruct (CloningState.eqb _ _); [|cbn; lia].
    unfold handleResumeCloning. destruct (negb _); cbn; lia.
  - destruct (CloningState.eqb _ _); cbn; lia.
  - cbn. lia.
  - apply processQueue_counts.
  - unfold qualityGate. destruct (_ && _ && _); cbn; lia.
  - apply qualityCheck_counts.
  - cbn. lia.
  - apply autoFixTrigger_counts.
  - cbn. lia.
Qed.
End RepairCount.

(** X9.  In one clone (no new clone is started) the count of repairs is
    its value at the start plus the number of repairs requested from the
    model since; as the count never passes 3, at most 3 repairs less the
    count at the start are requested, whatever the operations. *)
Theorem repairs_are_counted (host : Host) (ops : list Streaming.Op) (s : State) :
  forallb Streaming.same_session ops = true →
  let r := Streaming.run host ops s in
  fixAttempts r.1 = fixAttempts s + fix_calls r.2
  ∧ (fixAttempts s ≤ Streaming.MAX_FIX_ATTEMPTS →
     fix_calls r.2 ≤ Streaming.MAX_FIX_ATTEMPTS - fixAttempts s).
Proof.
  intros Hops. cbv zeta.
  assert (fixAttempts (Streaming.run host ops s).1
          = fixAttempts s + fix_calls (Streaming.run host ops s).2) as Hcount.
  { revert s. induction ops as [|op ops IH]; intros s; [cbn; lia|].
    cbn [forallb] in Hops. apply andb_true_iff in Hops as [Hop Hops].
    cbn [Streaming.run]. cbv zeta. cbn [fst snd].
    rewrite (IH Hops), fix_calls_app, (apply_op_counts host op s Hop). lia. }
  split; [exact Hcount|].
  intros Hs. pose proof (run_fixAttempts host ops s Hs) as Hle. lia.
Qed.

Lemma repairs_are_counted_witness :
  let ops :=
    [Streaming.AutoFixTrigger (Ok css_patch);
     Streaming.ConsoleMessage "TypeError: y is null";
     Streaming.AutoFixTrigger (Throws OtherValue);
     Streaming.ConsoleMessage "TypeError: z is null";
     Streaming.AutoFixTrigger (Ok css_patch);
     Streaming.ConsoleMessage "TypeError: y is null";
     Streaming.AutoFixTrigger (Ok css_patch)] in
  let r := Streaming.run example_host ops broken_preview in
  fixAttempts r.1 = 3
  ∧ fix_calls r.2 ≤ 3
  ∧ cloningState r.1 = CloningState.ERROR.
Proof.
  cbv zeta.
  destruct (repairs_are_counted example_host
              [Streaming.AutoFixTrigger (Ok css_patch);
               Streaming.ConsoleMessage "TypeError: y is null";
               Streaming.AutoFixTrigger (Throws OtherValue);
               Streaming.ConsoleMessage "TypeError: z is null";
               Streaming.AutoFixTrigger (Ok css_patch);
               Streaming.ConsoleMessage "TypeError: y is null";
               Streaming.AutoFixTrigger (Ok css_patch)]
              broken_preview eq_refl) as [_ Hle].
  split_and!; [reflexivity| |reflexivity].
  apply Hle. vm_compute. lia.
Defined.

(** * The stream does not depend on its cut into chunks *)

Lemma bind_ext {A B} (m : Proc A) (k1 k2 : A → Proc B) w :
  (∀ a w', k1 a w' = k2 a w') → bind m k1 w = bind m k2 w.
Proof. intros Hk. unfold bind. destruct (m w) as [[a|e] w']; [apply Hk|done]. Qed.

Lemma try_catch_ext {A} (body1 body2 : Proc A) h w :
  (∀ w', body1 w' = body2 w') → try_catch body1 h w = try_catch body2 h w.
Proof. intros Hb. unfold try_catch. by rewrite Hb. Qed.

Lemma bind_await_Ok {A B} (a : A) (k : A → Proc B) w : bind (await (Ok a)) k w = k a w.
Proof. reflexivity. Qed.

Section Chunks.
Context (host : Host).
Import Streaming.

(** A stream that ends without throwing is read like its text in one
    piece: same state and calls at the end, same [stopProcessing], and the
    same buffer when the loop did not stop. *)
Lemma read_chunks_none visited main currentUrl chunks : ∀ buffer w,
  has_newline buffer = false →
  let d := drain host visited main currentUrl "" (buffer +:+ stream_text chunks) w in
  let r := read_chunks host visited main currentUrl buffer false chunks None w in
  r.2 = d.2
  ∧ match d.1 with
    | Ok (b, stop) => ∃ b', r.1 = Ok (b', stop) ∧ (stop = false → b' = b)
    | Throws e => r.1 = Throws e
    end.
Proof.
  induction chunks as [|chunk chunks IH]; intros buffer w Hbuf; cbv zeta.
  - cbn [stream_text foldr read_chunks].
    rewrite (drain_acc _ _ _ _ buffer "" "" w Hbuf). cbn [drain].
    change ("" +:+ buffer) with buffer. cbn. split; [done|]. by exists buffer.
  - cbn [stream_text foldr read_chunks]. fold (stream_text chunks).
    rewrite <- str_app_assoc, drain_app. unfold bind.
    destruct (drain host visited main currentUrl "" (buffer +:+ chunk) w)
      as [[[b [|]]|e] w1] eqn:Hd; cbn [fst snd].
    + destruct chunks as [|c2 chunks]; cbn [read_chunks]; cbn;
        (split; [done|]); by exists b.
    + assert (has_newline b = false) as Hb.
      { eapply drain_buffer; [|exact Hd]. done. }
      specialize (IH b w1 Hb). cbv zeta in IH.
      rewrite (drain_acc _ _ _ _ b (stream_text chunks) "" w1 Hb) in IH.
      exact IH.
    + done.
Qed.

(** The end of a queue run after two streams of the same text. *)
Lemma job_tail_chunks visited main u chunks1 chunks2 w :
  stream_text chunks1 = stream_text chunks2 →
  (r <- read_chunks host visited main u "" false chunks1 None ;;
   (when truthy (trim host r.1) && negb r.2 then
      (match JSON_parse host (trim host r.1) with
       | Some action =>
           _ <- handleStreamedAction host visited main action u ;;
           ret ()
       | None =>
           addLog ("AI Output (non-JSON): " +:+ trim host r.1) LogType.DEBUG
       end)) ;;;
   (when negb r.2 then update (setCloningQueue (drop 1)))) w
  = (r <- read_chunks host visited main u "" false chunks2 None ;;
     (when truthy (trim host r.1) && negb r.2 then
        (match JSON_parse host (trim host r.1) with
         | Some action =>
             _ <- handleStreamedAction host visited main action u ;;
             ret ()
         | None =>
             addLog ("AI Output (non-JSON): " +:+ trim host r.1) LogType.DEBUG
         end)) ;;;
     (when negb r.2 then update (setCloningQueue (drop 1)))) w.
Proof.
  intros Htext.
  destruct (read_chunks_none visited main u chunks1 "" w eq_refl) as [Hw1 Hr1].
  destruct (read_chunks_none visited main u chunks2 "" w eq_refl) as [Hw2 Hr2].
  change ("" +:+ ?x) with x in Hw1, Hr1, Hw2, Hr2. rewrite Htext in Hw1, Hr1.
  destruct (drain host visited main u "" (stream_text chunks2) w) as [[[b stop]|e] wd];
    cbn [fst snd] in Hw1, Hr1, Hw2, Hr2.
  - destruct Hr1 as (b1 & Hr1 & Hb1), Hr2 as (b2 & Hr2 & Hb2).
    destruct (read_chunks host visited main u "" false chunks1 None w) as [r1 w1] eqn:H1.
    destruct (read_chunks host visited main u "" false chunks2 None w) as [r2 w2] eqn:H2.
    cbn [fst snd] in *. subst.
    rewrite (bind_Ok _ _ _ _ _ H1), (bind_Ok _ _ _ _ _ H2). cbn [fst snd].
    destruct stop.
    + cbn [negb]. by rewrite !andb_false_r.
    + by rewrite (Hb1 eq_refl), (Hb2 eq_refl).
  - destruct (read_chunks host visited main u "" false chunks1 None w) as [r1 w1] eqn:H1.
    destruct (read_chunks host visited main u "" false chunks2 None w) as [r2 w2] eqn:H2.
    cbn [fst snd] in *. subst.
    by rewrite (bind_Throws _ _ _ _ _ H1), (bind_Throws _ _ _ _ _ H2).
Qed.
End Chunks.

(** X10.  A run of the queue for a page whose stream names no next
    page depends on the text of the stream, not on how the stream cuts it
    into chunks: two streams that end without throwing and whose chunks,
    put together, give the same text lead to the same state and the same
    calls. *)
Theorem queue_run_ignores_chunking (host : Host) (s : State)
  (w1 w2 : Streaming.PageAnswers) (chunks1 chunks2 : list string) :
  Streaming.page w1 = Streaming.page w2 →
  Streaming.image w1 = Streaming.image w2 →
  Streaming.stream w1 = Ok (chunks1, None) →
  Streaming.stream w2 = Ok (chunks2, None) →
  stream_text chunks1 = stream_text chunks2 →
  has_link host "" (stream_text chunks1) = false →
  Streaming.processQueue host s w1 = Streaming.processQueue host s w2.
Proof.
  intros Hpage Himage Hs1 Hs2 Htext _. unfold Streaming.processQueue.
  destruct (negb _); [done|]. destruct (cloningQueue s) as [|job rest]; [done|].
  destruct (bool_decide _); [done|].
  rewrite Hpage, Himage, Hs1, Hs2. unfold exec. f_equal.
  repeat first [apply bind_ext; intros ? ? | apply try_catch_ext; intros ?].
  rewrite !bind_await_Ok. cbn [fst snd]. by apply job_tail_chunks.
Qed.

Lemma queue_run_ignores_chunking_witness :
  Streaming.processQueue example_host seeded page_files_stream
  = Streaming.processQueue example_host seeded page_files_stream_cut.
Proof.
  apply (queue_run_ignores_chunking example_host seeded
           page_files_stream page_files_stream_cut
           [json_file "index.html" "<p>hi</p>" +:+ nl;
            "Sure, here are the files:" +:+ nl]
           ["{"; String.substring 1 200 (json_file "index.html" "<p>hi</p>");
            nl +:+ "Sure, here are"; ""; " the files:" +:+ nl]);
    reflexivity.
Defined.

(** X11.  A line of the stream that is blank once trimmed is skipped, and
    a line that does not parse is logged as [DEBUG] and skipped: the loop
    goes on with the text after the line break, with no other change to
    the state and no call. *)
Theorem stream_skips_noise (host : Host) (visited : gset string)
  (main : option string) (u line text : string) (w : State * list Event) :
  has_newline line = false →
  (trim host line = "" →
   Streaming.drain host visited main u "" (line +:+ nl +:+ text) w
   = Streaming.drain host visited main u "" text w)
  ∧ (trim host line ≠ "" → JSON_parse host (trim host line) = None →
     Streaming.drain host visited main u "" (line +:+ nl +:+ text) w
     = Streaming.drain host visited main u "" text
         (setAgentLogs
            (fun prev => prev ++ [mkLog ("AI Output (non-JSON): " +:+ trim host line)
                                        LogType.DEBUG]) w.1,
          w.2)).
Proof.
  intros Hline. split.
  - intros Hblank. rewrite drain_line by done. change ("" +:+ line) with line.
    unfold Streaming.handle_line. by rewrite Hblank.
  - intros Htext Hparse. rewrite drain_line by done. change ("" +:+ line) with line.
    unfold Streaming.handle_line. apply truthy_true in Htext. by rewrite Htext, Hparse.
Qed.

Lemma stream_skips_noise_witness :
  Streaming.drain example_host ∅ None "https://a.test/1" ""
    ("   " +:+ nl +:+ json_file "index.html" "<p>hi</p>" +:+ nl) (seeded, [])
  = Streaming.drain example_host ∅ None "https://a.test/1" ""
      (json_file "index.html" "<p>hi</p>" +:+ nl) (seeded, [])
  ∧ Streaming.drain example_host ∅ None "https://a.test/1" ""
      ("Sure, here are the files:" +:+ nl +:+ "") (seeded, [])
    = (Ok ("", false),
       (setAgentLogs
          (fun prev => prev ++ [mkLog "AI Output (non-JSON): Sure, here are the files:"
                                      LogType.DEBUG]) seeded,
        [])).
Proof.
  split.
  - exact (proj1 (stream_skips_noise example_host ∅ None "https://a.test/1" "   "
                    (json_file "index.html" "<p>hi</p>" +:+ nl) (seeded, []) eq_refl)
             eq_refl).
  - exact (proj2 (stream_skips_noise example_host ∅ None "https://a.test/1"
                    "Sure, here are the files:" "" (seeded, []) eq_refl)
             ltac:(done) eq_refl).
Defined.

(** * The batch component: the page bound *)

Lemma autoFixTrigger_visited s answer :
  visitedUrls (Streaming.autoFixTrigger s answer).1 = visitedUrls s.
Proof.
  unfold Streaming.autoFixTrigger.
  destruct (_ && _ && (fixAttempts s <? Streaming.MAX_FIX_ATTEMPTS)).
  - unfold Streaming.handleAutoFix.
    destruct answer as [[summary files]|e]; [destruct files as [|f files]|].
    + done.
    + proc_unfold. cbn [filesToUpdate analysis]. rewrite apply_files_run.
      cbn [fst snd orb]. by destruct (negb (negb _)).
    + done.
  - by destruct (_ && _ && negb _).
Qed.

Section BatchSessionRuns.
Context (host : Host).
Import BatchSession.

Lemma apply_op_bounded op s :
  size (visitedUrls s) ≤ Batch.MAX_PAGES →
  size (visitedUrls (apply_op host op s).1) ≤ Batch.MAX_PAGES.
Proof.
  intros Hs. destruct op; cbn [apply_op].
  - unfold handleInitiateCloning. destruct (_ || _); [done|].
    destruct useScreenshot, windowOpens; cbn; rewrite size_empty; lia.
  - by destruct (isScreenshotModalOpen s).
  - by destruct (isScreenshotModalOpen s).
  - destruct (CloningState.eqb _ _); [|done].
    unfold Streaming.handleResumeCloning. by destruct (negb _).
  - by destruct (CloningState.eqb _ _).
  - done.
  - by apply batch_visited_bounded.
  - done.
  - by rewrite autoFixTrigger_visited.
  - done.
Qed.
End BatchSessionRuns.

(** X12.  The batch component keeps the page bound: whatever the
    operations (clones started, jobs processed, resumptions after a wall,
    repairs), the visited set never holds more than 5 URLs. *)
Theorem batch_visited_never_exceeds (host : Host) (ops : list BatchSession.Op)
  (s : State) :
  size (visitedUrls s) ≤ Batch.MAX_PAGES →
  size (visitedUrls (BatchSession.run host ops s).1) ≤ Batch.MAX_PAGES.
Proof.
  revert s. induction ops as [|op ops IH]; intros s Hs; [done|].
  cbn [BatchSession.run]. cbv zeta. cbn [fst]. apply IH.
  by apply apply_op_bounded.
Qed.

Lemma batch_visited_never_exceeds_witness :
  size (visitedUrls initialState) ≤ Batch.MAX_PAGES
  ∧ size (visitedUrls (BatchSession.run example_host six_batch_pages initialState).1)
    ≤ Batch.MAX_PAGES
  ∧ fetched_pages (BatchSession.run example_host six_batch_pages initialState).2
    = ["https://a.test/1"; "https://a.test/2"; "https://a.test/3";
       "https://a.test/4"; "https://a.test/5"].
Proof.
  assert (size (visitedUrls initialState) ≤ Batch.MAX_PAGES) as Hs
    by (vm_compute; lia).
  split_and!; [exact Hs| |by vm_compute].
  exact (batch_visited_never_exceeds example_host six_batch_pages initialState Hs).
Defined.

(** X13.  In the batch version a job that comes when 5 pages are visited
    is not processed: nothing is called, the visited set and the file tree
    stay, the job leaves the queue and the clone is [COMPLETED], whatever
    else is queued.  The last log line then counts one page more than
    were visited. *)
Theorem batch_stops_at_the_bound (host : Host) (s : State) (w : Batch.PageAnswers)
  (job : Job) (shifted : list Job) :
  cloningState s = CloningState.CLONING →
  cloningQueue s = job :: shifted →
  url job ∉ visitedUrls s →
  Batch.MAX_PAGES ≤ size (visitedUrls s) →
  let r := Batch.processQueue host s w in
  r.2 = []
  ∧ cloningState r.1 = CloningState.COMPLETED
  ∧ cloningQueue r.1 = shifted
  ∧ visitedUrls r.1 = visitedUrls s
  ∧ fileSystem r.1 = fileSystem s
  ∧ last (agentLogs r.1)
    = Some (mkLog ("Cloning process complete. Cloned " +:+
                   pretty (size (visitedUrls s) + 1) +:+
                   " page(s). Now monitoring for errors.") LogType.SUCCESS).
Proof.
  intros Hst Hq Hvis Hsize. cbv zeta.
  unfold Batch.processQueue. rewrite Hst, Hq. cbn [CloningState.eqb].
  rewrite bool_decide_eq_false_2 by done.
  unfold exec, Batch.clonePage. rewrite bool_decide_eq_false_2 by done.
  assert ((Batch.MAX_PAGES <=? size (visitedUrls s)) = true) as Hle
    by (by apply Nat.leb_le).
  assert ((5 <=? size (visitedUrls s)) = true) as Hle5 by exact Hle.
  rewrite Hle. cbn [orb]. proc_unfold. rewrite Hle5, orb_true_r. cbn.
  split_and!; try done. by rewrite last_snoc.
Qed.

Lemma batch_stops_at_the_bound_witness :
  let r := Batch.processQueue example_host at_the_bound (batch_page "https://a.test/7") in
  size (visitedUrls at_the_bound) = 5
  ∧ cloningQueue at_the_bound = [mkJob "https://a.test/6" None]
  ∧ r.2 = []
  ∧ cloningState r.1 = CloningState.COMPLETED
  ∧ last (agentLogs r.1)
    = Some (mkLog "Cloning process complete. Cloned 6 page(s). Now monitoring for errors."
                  LogType.SUCCESS).
Proof.
  assert ("https://a.test/6" ∉ visitedUrls at_the_bound) as Hvis.
  { apply (bool_decide_unpack _). vm_compute. exact I. }
  assert (Batch.MAX_PAGES ≤ size (visitedUrls at_the_bound)) as Hsize
    by (vm_compute; lia).
  destruct (batch_stops_at_the_bound example_host at_the_bound
              (batch_page "https://a.test/7") (mkJob "https://a.test/6" None) []
              eq_refl eq_refl Hvis Hsize) as (Hev & Hst & _ & _ & _ & Hlog).
  split_and!; [by vm_compute|reflexivity|exact Hev|exact Hst|].
  rewrite Hlog. by vm_compute.
Defined.

Lemma includes_end a b : includes (a +:+ b) b = true.
Proof. rewrite <- (str_app_nil_r b) at 1. apply includes_middle. Qed.

(** X14.  In the batch version no asset can make a job fail: whatever
    the proxy answers for each asset (a rejection, a bad status, a body
    that cannot be read), the loop over the assets returns, requests each
    asset once, in the order of the list, and adds as many log lines as
    there are assets, one of which names each asset; nothing else of the
    state changes.  Nothing is said of the order of the log lines, which
    is the order in which the answers come. *)
Theorem batch_assets_never_fatal (w : Batch.PageAnswers) (urls : list string)
  (s : State) (evs : list Event) :
  ∃ lines,
    for_each urls (Batch.fetch_asset w) (s, evs)
    = (Ok (), (setAgentLogs (fun prev => prev ++ lines) s,
               evs ++ (EvFetchAsset <$> urls)))
    ∧ length lines = length urls
    ∧ ∀ u, u ∈ urls → ∃ line, line ∈ lines ∧ includes (message line) u = true.
Proof.
  revert s evs. induction urls as [|u urls IH]; intros s evs.
  - exists []. split_and!; [|done|by intros u ?%elem_of_nil]. cbn. unfold ret.
    rewrite (right_id_L [] app). destruct s; setters. by rewrite (right_id_L [] app).
  - cbn [for_each]. unfold bind at 1.
    assert (∃ line, Batch.fetch_asset w u (s, evs)
                    = (Ok (), (setAgentLogs (fun prev => prev ++ [line]) s,
                               evs ++ [EvFetchAsset u]))
                    ∧ includes (message line) u = true) as (line & -> & Hline).
    { unfold Batch.fetch_asset.
      destruct (Batch.asset w u) as [e|status [text|e]]; [| |];
        try destruct (response_ok status); cbn; eexists; (split; [reflexivity|]);
        cbn [message]; first [apply includes_end | apply includes_middle]. }
    destruct (IH (setAgentLogs (fun prev => prev ++ [line]) s) (evs ++ [EvFetchAsset u]))
      as (lines & -> & Hlen & Hlines).
    exists (line :: lines). split_and!.
    + rewrite fmap_cons. f_equal. f_equal.
      * destruct s; setters. by rewrite <- (assoc_L app).
      * by rewrite <- (assoc_L app).
    + cbn [length]. by rewrite Hlen.
    + intros u' [->|Hin]%elem_of_cons.
      * exists line. split; [by left|done].
      * destruct (Hlines u' Hin) as (l & Hl & Hnames). exists l. split; [by right|done].
Qed.

(** * More on the file tree *)

Lemma obj_set_twice {A} k (v v' : A) o : obj_set k v (obj_set k v' o) = obj_set k v o.
Proof.
  induction o as [|[k' x] o IH]; cbn [obj_set].
  - by rewrite String.eqb_refl.
  - destruct (String.eqb k k') eqn:Hk; cbn [obj_set].
    + by rewrite String.eqb_refl.
    + by rewrite Hk, IH.
Qed.

Lemma entered_obj_set k ch fs : entered k (obj_set k (Folder ch) fs) = ch.
Proof. unfold entered. by rewrite obj_get_set_eq. Qed.

Lemma add_parts_twice ks : ∀ c c' fs,
  add_parts ks c (add_parts ks c' fs) = add_parts ks c fs.
Proof.
  induction ks as [|k ks IH]; intros c c' fs; [apply obj_set_twice|].
  destruct ks as [|k' ks]; [apply obj_set_twice|].
  rewrite !add_parts_step, entered_obj_set, obj_set_twice. by rewrite IH.
Qed.

(** X15.  Insertion and lookup in any tree, for a path whose segments
    are ordinary property names: the file is found where it was put; every
    place that is neither on the way to it nor below it holds what it
    held; a second insertion at the same path replaces the first, so that
    inserting the same file twice is inserting it once; and a tree whose
    folders have distinct names keeps them distinct. *)
Theorem insert_lookup_laws (fs : FileSystem) (path content : string) :
  ordinary path →
  lookup_parts (target path) (addFileToSystem fs path content) = Some (File content)
  ∧ (∀ ks, ¬ nested (target path) ks →
       lookup_parts ks (addFileToSystem fs path content) = lookup_parts ks fs)
  ∧ (∀ content',
       addFileToSystem (addFileToSystem fs path content') path content
       = addFileToSystem fs path content)
  ∧ (wf_node (Folder fs) → wf_node (Folder (addFileToSystem fs path content))).
Proof.
  intros _. rewrite addFileToSystem_target. split_and!.
  - apply lookup_add_parts, target_nonempty.
  - intros ks Hks. by apply lookup_add_parts_other; [apply target_nonempty|].
  - intros content'. rewrite !addFileToSystem_target. apply add_parts_twice.
  - intros Hwf. rewrite <- addFileToSystem_target. by apply wf_addFileToSystem.
Qed.

Lemma insert_lookup_laws_witness :
  let fs := addFileToSystem sample_tree "public/css/style.css" "body { margin: 0 }" in
  ordinary "public/css/style.css"
  ∧ lookup_parts ["public"; "css"; "style.css"] fs = Some (File "body { margin: 0 }")
  ∧ lookup_parts ["public"; "app.js"] fs = Some (File "run()")
  ∧ lookup_parts ["index.html"] fs = Some (File "<p>hi</p>").
Proof.
  assert (ordinary "public/css/style.css") as Hord.
  { apply (bool_decide_unpack _). vm_compute. exact I. }
  destruct (insert_lookup_laws sample_tree "public/css/style.css" "body { margin: 0 }" Hord)
    as (Hget & Hother & _).
  split_and!; [exact Hord|exact Hget| |].
  - rewrite (Hother ["public"; "app.js"]); [reflexivity|].
    apply (bool_decide_unpack _). vm_compute. exact I.
  - rewrite (Hother ["index.html"]); [reflexivity|].
    apply (bool_decide_unpack _). vm_compute. exact I.
Defined.

Lemma Object_entries_single {A} k (v : A) : Object_entries [(k, v)] = [(k, v)].
Proof.
  unfold Object_entries, index_entries, named_entries. cbn [omap list_omap fst].
  rewrite filter_cons, filter_nil. cbn [fst].
  destruct (array_index k) as [n|]; [|by rewrite decide_True].
  by rewrite decide_False.
Qed.

(** Flattening the tree of one insertion into the empty tree. *)
Lemma visit_chain content : ∀ ks k cp,
  mjoin (Object_entries
           ((fun kv => (kv.1, visit (child_path cp kv.1) kv.2))
              <$> add_parts (k :: ks) content [])).*2
  = [(foldl child_path cp (k :: ks), content)].
Proof.
  induction ks as [|k' ks IH]; intros k cp.
  - cbn [add_parts obj_set fmap list_fmap fst snd].
    by rewrite Object_entries_single.
  - rewrite add_parts_step. unfold entered. cbn [obj_get obj_set fmap list_fmap fst snd].
    rewrite Object_entries_single. cbn [fmap list_fmap snd mjoin list_join visit].
    rewrite IH. by rewrite (right_id_L [] app).
Qed.

(** X16.  Whatever the slashes of the path (leading, trailing,
    repeated), inserting a file into the empty tree and flattening yields
    one entry, whose path is made of the non-empty segments of the path
    joined by single slashes, with the content inserted.  The path has a
    non-empty segment and its segments are ordinary property names. *)
Theorem flatten_normalises_path (path content : string) :
  path_parts path ≠ [] →
  ordinary path →
  traverse (addFileToSystem [] path content) "" = [(join_path (path_parts path), content)]
  ∧ getFileSystemAsText (addFileToSystem [] path content)
    = ["--- File: " +:+ join_path (path_parts path) +:+ " ---" +:+ nl +:+
       "```" +:+ nl +:+ content +:+ nl +:+ "```"].
Proof.
  intros Hparts _. unfold getFileSystemAsText, traverse, addFileToSystem.
  destruct (path_parts path) as [|k ks]; [done|].
  rewrite visit_chain. done.
Qed.

Lemma flatten_normalises_path_witness :
  path_parts "//public///css/style.css/" = ["public"; "css"; "style.css"]
  ∧ traverse (addFileToSystem [] "//public///css/style.css/" "body {}") ""
    = [("public/css/style.css", "body {}")].
Proof.
  split; [reflexivity|].
  refine (proj1 (flatten_normalises_path "//public///css/style.css/" "body {}" _ _)).
  - done.
  - apply (bool_decide_unpack _). vm_compute. exact I.
Defined.

Lemma visit_children_contents pre children :
  Forall (fun kv => ∀ cp, (visit cp kv.2).*2 ≡ₚ file_contents kv.2) children →
  (visit_children pre children).*2 ≡ₚ file_contents (Folder children).
Proof.
  induction 1 as [|[name child] rest Hchild _ IH]; [done|].
  rewrite visit_children_cons, fmap_app. cbn [file_contents fmap list_fmap mjoin list_join snd].
  rewrite (Hchild (pre +:+ name)). cbn [file_contents] in IH. by rewrite IH.
Qed.

Lemma visit_contents n : ∀ cp, (visit cp n).*2 ≡ₚ file_contents n.
Proof.
  induction n as [content|children IH] using FileSystemNode_ind; intros cp; [done|].
  rewrite visit_folder. by apply visit_children_contents.
Qed.

(** X17.  Flattening lists every file of the tree once: the contents it
    lists are the contents of the files of the tree, up to the order, and
    the text sent to the model has one block per file. *)
Theorem flatten_lists_every_file (fs : FileSystem) :
  (traverse fs "").*2 ≡ₚ file_contents (Folder fs)
  ∧ length (getFileSystemAsText fs) = length (file_contents (Folder fs)).
Proof.
  assert ((traverse fs "").*2 ≡ₚ file_contents (Folder fs)) as Hperm.
  { rewrite traverse_root. apply visit_children_contents.
    apply Forall_forall. intros kv _ cp. apply visit_contents. }
  split; [exact Hperm|].
  unfold getFileSystemAsText. rewrite length_fmap.
  rewrite <- (length_fmap snd (traverse fs "")). by rewrite Hperm.
Qed.

(** * The names of the existing files in the prompt *)

Lemma prefix_cons_ne c s t : c ≠ "-"%char → String.prefix (String "-"%char t) (String c s) = false.
Proof.
  intros Hc.
  change (String.prefix (String "-"%char t) (String c s))
    with (if ascii_dec "-"%char c then String.prefix t s else false).
  destruct (ascii_dec "-"%char c); [congruence|done].
Qed.

Lemma includes_cons_ne c s : c ≠ "-"%char → includes (String c s) "---" = includes s "---".
Proof. intros Hc. cbn [includes]. by rewrite (prefix_cons_ne c s "--" Hc). Qed.

(** An occurrence of [---] cannot start in a text and end after the space
    that follows it. *)
Lemma prefix_sep_space s x :
  String.prefix "---" s = false → String.prefix "---" (s +:+ " " +:+ x) = false.
Proof.
  assert (∀ c t y, String.prefix (String "-"%char t) (String c y)
                   = if ascii_dec "-"%char c then String.prefix t y else false) as Hstep
    by reflexivity.
  assert (∀ t y, String.prefix (String "-"%char t) (String " " y) = false) as Hspace
    by reflexivity.
  destruct s as [|c1 [|c2 [|c3 s]]]; rewrite ?str_app_cons;
    change ("" +:+ " " +:+ x) with (String " " x);
    change "---" with (String "-"%char (String "-"%char (String "-"%char "")));
    rewrite ?Hstep, ?Hspace; try done;
    repeat (match goal with
            | |- context [ascii_dec ?a ?b] => destruct (ascii_dec a b)
            end; rewrite ?Hstep, ?Hspace; try done).
  by destruct s.
Qed.

Lemma split_on_go_piece s : ∀ acc rest,
  includes s "---" = false →
  split_on_go "---" 0 acc (s +:+ " ---" +:+ rest)
  = (acc +:+ s +:+ " ") :: split_on_go "---" 0 "" rest.
Proof.
  induction s as [|c s IH]; intros acc rest Hs.
  - cbn. by destruct rest.
  - cbn [includes] in Hs. apply orb_false_iff in Hs as [Hhere Hs].
    rewrite str_app_cons. cbn [split_on_go].
    rewrite <- str_app_cons.
    change (String c s +:+ " ---" +:+ rest) with (String c s +:+ " " +:+ ("---" +:+ rest)).
    rewrite (prefix_sep_space _ _ Hhere).
    change (s +:+ " ---" +:+ rest) with (s +:+ " ---" +:+ rest).
    rewrite (IH _ _ Hs). by rewrite str_app_assoc.
Qed.

Lemma split_on_go_nonempty sep s : ∀ skip acc, split_on_go sep skip acc s ≠ [].
Proof.
  induction s as [|c s IH]; intros skip acc; cbn [split_on_go]; [done|].
  destruct skip; [|apply IH]. destruct (String.prefix sep _); [done|apply IH].
Qed.

Lemma split_on_sep x : split_on "---" ("---" +:+ x) = "" :: split_on_go "---" 0 "" x.
Proof.
  unfold split_on.
  change ("---" +:+ x) with (String "-" (String "-" (String "-" x))).
  cbn [split_on_go].
  change (String "-" (String "-" (String "-" x))) with ("---" +:+ x).
  by rewrite prefix_app_refl.
Qed.

Section Prompt.
Context (host : Host).

(** The block of a file always has a second piece. *)
Lemma existing_file_block e : ∃ name, existing_file host (file_block e) = Some name.
Proof.
  unfold existing_file, file_block.
  change ("--- File: " +:+ ?x) with ("---" +:+ (" File: " +:+ x)).
  rewrite split_on_sep.
  match goal with
  | |- context [split_on_go "---" 0 ?acc ?s] =>
      pose proof (split_on_go_nonempty "---" s 0 acc) as Hne;
      destruct (split_on_go "---" 0 acc s) as [|piece rest]; [done|]
  end.
  by eexists.
Qed.

Lemma existing_file_path path content :
  includes path "---" = false →
  trim host (path +:+ " ") = path →
  existing_file host (file_block (path, content)) = Some path.
Proof.
  intros Hpath Htrim. unfold existing_file, file_block. cbn [fst snd].
  change ("--- File: " +:+ path +:+ " ---" +:+ nl +:+ "```" +:+ nl +:+ content +:+ nl +:+ "```")
    with ("---" +:+ ((" File: " +:+ path) +:+ " ---" +:+
                     (nl +:+ "```" +:+ nl +:+ content +:+ nl +:+ "```"))).
  rewrite split_on_sep, (split_on_go_piece (" File: " +:+ path) "" _).
  2:{ change (" File: " +:+ path)
        with (String " " (String "F" (String "i" (String "l" (String "e"
                (String ":" (String " " path))))))).
      rewrite !includes_cons_ne by done. exact Hpath. }
  change ("" +:+ ?x) with x.
  change (remove_first " File: " ((" File: " +:+ path) +:+ " "))
    with (remove_first " File: " (" File: " +:+ (path +:+ " "))).
  assert (remove_first " File: " (" File: " +:+ (path +:+ " ")) = path +:+ " ") as ->.
  { destruct (path +:+ " ") as [|c p] eqn:Hp.
    - reflexivity.
    - change (" File: " +:+ String c p)
        with (String " " (String "F" (String "i" (String "l" (String "e"
                (String ":" (String " " (String c p)))))))).
      cbn [remove_first].
      change (String " " (String "F" (String "i" (String "l" (String "e"
                (String ":" (String " " (String c p))))))))
        with (" File: " +:+ String c p).
      by rewrite prefix_app_refl. }
  by rewrite Htrim.
Qed.
End Prompt.

(** X18.  The names of the existing files put in the prompt of a page
    are read back from the blocks of the flattened tree.  The reading
    never fails and gives one name per file; a file is named by its path
    when the path holds no [---] and no white space at its ends (a path
    that holds [---] is cut at it). *)
Theorem existing_files_in_prompt (host : Host) (fs : FileSystem) :
  (∃ names, existingFiles host fs = Some names
            ∧ length names = length (traverse fs ""))
  ∧ (Forall (fun e => includes e.1 "---" = false ∧ trim host (e.1 +:+ " ") = e.1)
       (traverse fs "") →
     existingFiles host fs = Some (traverse fs "").*1).
Proof.
  unfold existingFiles, getFileSystemAsText. split.
  - assert (is_Some (mapM (existing_file host) (file_block <$> traverse fs "")))
      as [names Hnames].
    { apply mapM_is_Some, Forall_fmap, Forall_forall. intros e _.
      destruct (existing_file_block host e) as [name Hname].
      simpl. by rewrite Hname. }
    exists names. split; [done|].
    apply length_mapM in Hnames. by rewrite length_fmap in Hnames.
  - intros Hfiles. apply mapM_Some, Forall2_fmap_l, Forall2_fmap_r.
    apply Forall_Forall2_diag.
    eapply Forall_impl; [exact Hfiles|].
    intros [path content] [Hpath Htrim]. by apply existing_file_path.
Qed.

Lemma existing_files_in_prompt_witness :
  existingFiles example_host sample_tree
  = Some ["404"; "index.html"; "public/css/style.css"; "public/app.js"]
  ∧ existingFiles example_host (addFileToSystem sample_tree "a---b.txt" "x")
    = Some ["404"; "index.html"; "public/css/style.css"; "public/app.js"; "a"].
Proof.
  split; [|reflexivity].
  apply (proj2 (existing_files_in_prompt example_host sample_tree)).
  apply (bool_decide_unpack _). vm_compute. exact I.
Defined.
Example split_example : path_parts "/a//b/c.txt/" = ["a"; "b"; "c.txt"].
Proof. reflexivity. Qed.

Example entries_order :
  (Object_entries [("b", 1); ("10", 2); ("a", 3); ("9", 4); ("01", 5)]).*1
  = ["9"; "10"; "b"; "a"; "01"].
Proof. vm_compute. reflexivity. Qed.

Example add_then_text content :
  getFileSystemAsText (addFileToSystem [] "a/b/c.txt" content)
  = ["--- File: a/b/c.txt ---" +:+ nl +:+ "```" +:+ nl +:+ content +:+ nl +:+ "```"].
Proof. reflexivity. Qed.

(** * The components that show the state *)

(** X20.  The prefixes of the log lines line up and tell the types
    apart: every prefix is 9 characters wide, and two types have the same
    prefix only if they are the same type. *)
Theorem log_prefixes_line_up (t1 t2 : LogType.t) :
  String.length (getLogTypePrefix t1) = 9
  ∧ (getLogTypePrefix t1 = getLogTypePrefix t2 → t1 = t2).
Proof. split; [by destruct t1|]. by destruct t1, t2. Qed.

Lemma split_on_go_newlines s : ∀ acc,
  length (split_on_go nl 0 acc s) = S (count_newlines s).
Proof.
  induction s as [|x s IH]; intros acc; [done|].
  cbn [split_on_go count_newlines]. unfold nl at 1.
  change (String.prefix (String "010" "") (String x s))
    with (if ascii_dec "010" x then String.prefix "" s else false).
  destruct (ascii_dec "010" x) as [<-|Hne].
  - assert (String.prefix "" s = true) as -> by (by destruct s).
    cbn [length]. unfold nl at 1. cbn [String.length Nat.sub]. by rewrite IH.
  - assert (Ascii.eqb x "010" = false) as -> by (by apply Ascii.eqb_neq).
    apply IH.
Qed.

(** X21.  The editor numbers one line more than the content has line
    breaks: an empty file shows the line number 1, and a content that ends
    with a line break shows a number for the empty line after it.  The
    numbers are 1, 2, ... in order. *)
Theorem editor_line_numbers (content : string) :
  lineCount content = S (count_newlines content)
  ∧ lineNumbers content = seq 1 (S (count_newlines content))
  ∧ lineCount (content +:+ nl) = S (lineCount content).
Proof.
  assert (∀ s, lineCount s = S (count_newlines s)) as Hcount.
  { intros s. unfold lineCount, split_on. apply split_on_go_newlines. }
  split_and!; [apply Hcount|unfold lineNumbers; by rewrite Hcount|].
  rewrite !Hcount. f_equal.
  induction content as [|c content IH]; [done|].
  rewrite str_app_cons. cbn [count_newlines]. rewrite IH. lia.
Qed.

Lemma prefix_comma x s :
  String.prefix "," (String x s) = Ascii.eqb x ",".
Proof.
  change (String.prefix "," (String x s))
    with (if ascii_dec "," x then String.prefix "" s else false).
  destruct (ascii_dec "," x) as [<-|Hne].
  - by destruct s.
  - symmetry. apply Ascii.eqb_neq. congruence.
Qed.

Lemma split_comma_none s : ∀ acc,
  has_comma s = false → split_on_go "," 0 acc s = [acc +:+ s].
Proof.
  induction s as [|x s IH]; intros acc Hs.
  - by rewrite str_app_nil_r.
  - cbn [has_comma] in Hs. apply orb_false_iff in Hs as [Hx Hs].
    cbn [split_on_go]. rewrite prefix_comma, Hx, IH by done.
    by rewrite str_app_assoc.
Qed.

Lemma split_comma_app s rest : ∀ acc,
  has_comma s = false →
  split_on_go "," 0 acc (s +:+ "," +:+ rest) = (acc +:+ s) :: split_on_go "," 0 "" rest.
Proof.
  induction s as [|x s IH]; intros acc Hs.
  - rewrite str_app_nil_r. change ("" +:+ "," +:+ rest) with (String "," rest).
    cbn [split_on_go]. by rewrite prefix_comma.
  - cbn [has_comma] in Hs. apply orb_false_iff in Hs as [Hx Hs].
    rewrite str_app_cons. cbn [split_on_go]. rewrite prefix_comma, Hx, IH by done.
    by rewrite str_app_assoc.
Qed.

(** X22.  [fileToBase64] resolves with the payload of the data URL: for a
    data URL made of a header without comma, a comma and a payload without
    comma (the base64 alphabet has none) the result is the payload.  For a
    string without any comma the promise resolves with [undefined]; it is
    not rejected. *)
Theorem file_to_base64_payload (header payload : string) :
  has_comma header = false →
  has_comma payload = false →
  fileToBase64_result (header +:+ "," +:+ payload) = Some payload
  ∧ fileToBase64_result header = None.
Proof.
  intros Hh Hp. unfold fileToBase64_result, split_on. split.
  - rewrite split_comma_app by done. by rewrite split_comma_none.
  - by rewrite split_comma_none.
Qed.

Lemma file_to_base64_payload_witness :
  fileToBase64_result "data:image/png;base64,iVBORw0KGgo=" = Some "iVBORw0KGgo="
  ∧ fileToBase64_result "data:image/png;base64" = None.
Proof. by apply (file_to_base64_payload "data:image/png;base64" "iVBORw0KGgo="). Defined.

(** * The preview and the pages after the first *)

#[global] Instance same_preview_preorder : PreOrder same_preview.
Proof.
  split; [by intros w|]. intros w1 w2 w3 H1 H2. unfold same_preview in *. congruence.
Qed.

Ltac preview_leaf := intros; reflexivity.

Ltac preview_step := respects_step_with preview_leaf.

Section PreviewKept.
Context (host : Host) (u : string) (visited : gset string) (main : option string).
Context (Hmain : main ≠ None).
Import Streaming.

Lemma preview_handleStreamedAction action :
  respects same_preview (handleStreamedAction host visited main action u).
Proof.
  destruct action as [| | | | |]; cbn [handleStreamedAction];
    rewrite ?(bool_decide_eq_false_2 (main = None)), ?andb_false_r by done;
    repeat preview_step.
  apply respects_fun. intros w. cbv zeta.
  destruct (_ && _); [|reflexivity].
  match goal with
  | |- same_preview w (?m w).2 =>
      assert (respects same_preview m) as Hm by (repeat preview_step); apply Hm
  end.
Qed.

Lemma preview_handle_line raw :
  respects same_preview (handle_line host visited main u raw).
Proof.
  unfold handle_line. repeat preview_step. apply preview_handleStreamedAction.
Qed.

Lemma preview_drain text : ∀ acc,
  respects same_preview (drain host visited main u acc text).
Proof.
  induction text as [|c text IH]; intros acc; cbn [drain].
  - repeat preview_step.
  - destruct (Ascii.eqb c "010"); [|apply IH].
    apply respects_bind; [apply _|apply preview_handle_line|].
    intros [|]; [repeat preview_step|apply IH].
Qed.

Lemma preview_read_chunks chunks ending : ∀ buffer stop,
  respects same_preview (read_chunks host visited main u buffer stop chunks ending).
Proof.
  induction chunks as [|chunk chunks IH]; intros buffer stop; cbn [read_chunks].
  - repeat preview_step.
  - destruct stop; [repeat preview_step|].
    apply respects_bind; [apply _|apply preview_drain|]. intros r. apply IH.
Qed.

Lemma preview_resolve_assets paths :
  respects same_preview (resolve_assets host paths u).
Proof.
  induction paths as [|p paths IH]; cbn [resolve_assets]; repeat preview_step.
  apply IH.
Qed.
End PreviewKept.

(** X23.  Once the preview shows a page, cloning further pages never
    replaces it: whatever the fetch, the screenshot and the model answer,
    a run of the queue leaves the content of the preview as it was. *)
Theorem later_pages_keep_the_preview (host : Host) (s : State)
  (w : Streaming.PageAnswers) :
  mainHtmlContent s ≠ None →
  mainHtmlContent (Streaming.processQueue host s w).1 = mainHtmlContent s.
Proof.
  intros Hmain. unfold Streaming.processQueue.
  destruct (negb _); [done|].
  destruct (cloningQueue s) as [|job rest]; [done|].
  destruct (bool_decide _); [done|].
  unfold exec.
  match goal with
  | |- mainHtmlContent (?m (s, [])).2.1 = _ =>
      assert (respects same_preview m) as Hm
  end.
  { repeat preview_step;
      first [ by apply preview_resolve_assets
            | by apply preview_read_chunks
            | by apply preview_handleStreamedAction ]. }
  apply (Hm (s, [])).
Qed.

Lemma later_pages_keep_the_preview_witness :
  mainHtmlContent (Streaming.processQueue example_host
                     (setMainHtmlContent (fun _ => Some "<p>first</p>") seeded)
                     page_ok_stream).1
  = Some "<p>first</p>".
Proof. by apply (later_pages_keep_the_preview example_host). Defined.
